(** * Server-authoritative room and combat simulation

    A shallow embedding of the multiplayer server of the 3D shooter:
    [GameRoom] (server/gameLogic.ts) and [GameServer] (server/gameServer.ts),
    followed by the properties of rate limiting, bullets, hits, scores,
    victory, respawn and room membership.

    Conventions of the embedding.
    - A JavaScript [number] that holds a coordinate, a health value, a speed
      or a damage is an IEEE-754 binary64 value: Rocq's primitive [float].
    - [Date.now()] readings, the last-shot time stamps, individual scores and
      team counters are integer valued in the source (they start at an
      integer and only ever get an integer added), so they are [Z].
    - A JavaScript [Map] iterates in insertion order and [set] on a present
      key overwrites in place: an association list, module [JsMap].
    - Every method returns the new state together with the list of effects
      it performs, in program order: a call of [this.broadcast], a direct
      [ws.send], or a [setTimeout].  Console output is not an effect, and
      whether a socket is open is the transport's business.
    - [Date.now()] and [Math.random()] are inputs of the operation that
      reads them.
    - A [GamePlayer] is a heap object in the source: the map holds a
      reference, and the respawn closure keeps the reference of the player it
      was created for.  The field [obj] is the identity of that object
      (allocated by [addPlayer]); nothing else in the source holds such a
      reference.  Position arrays are never written in place once a player
      record holds them, so they are values.
    - Inbound messages are taken with the field types the handlers expect
      (a direction is three numbers, a weapon is a string). *)

From Stdlib Require Import ZArith List String Bool Lia Uint63 PrimFloat DecimalString.
From Stdlib Require DecimalNat.
Import ListNotations.

#[local] Set Warnings "-inexact-float".
#[local] Open Scope string_scope.
#[local] Open Scope list_scope.

(** ** Numbers *)

Definition Vec3 : Type := (float * float * float)%type.

(** An integer number of milliseconds as a binary64 value (exact below
    2^53 in absolute value, which every difference of two clock readings
    is). *)
Definition numOfZ (z : Z) : float :=
  if (z <? 0)%Z then (- of_uint63 (Uint63.of_Z (- z)))%float
  else of_uint63 (Uint63.of_Z z).

(** JavaScript truthiness of a number: [0], [-0] and [NaN] are falsy. *)
Definition truthyNum (x : float) : bool :=
  negb (PrimFloat.eqb x 0%float) && PrimFloat.eqb x x.

(** JavaScript truthiness of a string: only the empty string is falsy. *)
Definition truthyStr (s : string) : bool :=
  match s with EmptyString => false | _ => true end.

(** [a || b] on an optional string field. *)
Definition orStr (a : option string) (b : string) : string :=
  match a with
  | Some s => if truthyStr s then s else b
  | None => b
  end.

(** ** Insertion-ordered maps *)

Class EqKey (K : Type) := {
  keyb : K -> K -> bool;
  keyb_eq : forall a b, keyb a b = true <-> a = b
}.

#[export] Instance EqKey_string : EqKey string :=
  {| keyb := String.eqb; keyb_eq := String.eqb_eq |}.

#[export] Instance EqKey_nat : EqKey nat :=
  {| keyb := Nat.eqb; keyb_eq := Nat.eqb_eq |}.

Module JsMap.

Definition t (K V : Type) : Type := list (K * V).

Section Ops.
Context {K V : Type} {EK : EqKey K}.

Fixpoint get (k : K) (m : t K V) : option V :=
  match m with
  | [] => None
  | (k', v) :: m' => if keyb k k' then Some v else get k m'
  end.

Definition has (k : K) (m : t K V) : bool :=
  match get k m with Some _ => true | None => false end.

(** [Map.prototype.set]: overwrite in place when the key is present, append
    otherwise. *)
Fixpoint set (k : K) (v : V) (m : t K V) : t K V :=
  match m with
  | [] => [(k, v)]
  | (k', v') :: m' =>
      if keyb k k' then (k', v) :: m' else (k', v') :: set k v m'
  end.

Fixpoint delete (k : K) (m : t K V) : t K V :=
  match m with
  | [] => []
  | (k', v') :: m' =>
      if keyb k k' then delete k m' else (k', v') :: delete k m'
  end.

Definition size (m : t K V) : nat := List.length m.

Definition keys (m : t K V) : list K := map fst m.

End Ops.

End JsMap.

(** ** Teams, wire messages and effects *)

Inductive Team : Type := Red | Blue.

Definition Team_eqb (a b : Team) : bool :=
  match a, b with
  | Red, Red | Blue, Blue => true
  | _, _ => false
  end.

Record TeamScores : Type := mkScores { red : Z; blue : Z }.

(** The outbound messages, one constructor per [type] tag. *)
Inductive Msg : Type :=
| TeamAssigned (team : Team) (color : string)
| TeamScoresUpdate (scores : TeamScores)
| TeamVictory (winningTeam : Team) (finalScores : TeamScores) (message : string)
| PlayerJoined (playerId playerName : string) (position rotation : Vec3)
    (health : float) (color : string) (team : Team)
| PlayerLeft (playerId : string)
| PlayerUpdate (playerId : string) (position rotation : Vec3) (health : float)
| BulletFired (id playerId : string) (position direction : Vec3)
    (weapon : string) (speed damage : float)
| PlayerHit (victimId : string) (damage : float) (weapon bulletId : string)
| PlayerEliminated (victimId victimName killerId killerName weapon : string)
| PlayerRespawned (playerId : string) (position : Vec3)
| RoomCreated (code playerId : string)
| RoomJoined (playerId : string)
| ErrorMsg (message : string).

(** The closure handed to [setTimeout] by [updateBullets]: it captures the
    map key [playerId] and the player object [player]. *)
Inductive Task : Type :=
| Respawn (playerId : string) (player : nat).

(** [Broadcast to m]: one call of [GameRoom.broadcast]; [to] lists the
    sockets of the members the loop visits (those not excluded), in map
    order.  [Send ws m]: [ws.send(JSON.stringify(m))]. *)
Inductive Effect : Type :=
| Broadcast (to : list nat) (m : Msg)
| Send (ws : nat) (m : Msg)
| SetTimeout (task : Task) (delay : Z).

(** ** Records of the source *)

(** [interface Player] of gameServer.ts: the per-connection record. *)
Module Player.
Record t : Type := mk {
  id : string;
  name : string;
  ws : nat;
  position : Vec3;
  rotation : Vec3;
  health : float;
  color : string;
  roomId : option string
}.
Definition set_name (v : string) (p : t) : t :=
  mk (id p) v (ws p) (position p) (rotation p) (health p) (color p) (roomId p).
Definition set_roomId (v : option string) (p : t) : t :=
  mk (id p) (name p) (ws p) (position p) (rotation p) (health p) (color p) v.
Definition set_state (pos rot : Vec3) (h : float) (p : t) : t :=
  mk (id p) (name p) (ws p) pos rot h (color p) (roomId p).
End Player.

(** [interface GamePlayer] of gameLogic.ts, with the identity [obj] of the
    object. *)
Module GamePlayer.
Record t : Type := mk {
  obj : nat;
  id : string;
  name : string;
  ws : nat;
  position : Vec3;
  rotation : Vec3;
  health : float;
  color : string;
  score : Z;
  isAlive : bool;
  lastShotTime : Z;
  team : Team
}.
Definition set_position (v : Vec3) (p : t) : t :=
  mk (obj p) (id p) (name p) (ws p) v (rotation p) (health p) (color p)
     (score p) (isAlive p) (lastShotTime p) (team p).
Definition set_rotation (v : Vec3) (p : t) : t :=
  mk (obj p) (id p) (name p) (ws p) (position p) v (health p) (color p)
     (score p) (isAlive p) (lastShotTime p) (team p).
Definition set_health (v : float) (p : t) : t :=
  mk (obj p) (id p) (name p) (ws p) (position p) (rotation p) v (color p)
     (score p) (isAlive p) (lastShotTime p) (team p).
Definition set_score (v : Z) (p : t) : t :=
  mk (obj p) (id p) (name p) (ws p) (position p) (rotation p) (health p)
     (color p) v (isAlive p) (lastShotTime p) (team p).
Definition set_isAlive (v : bool) (p : t) : t :=
  mk (obj p) (id p) (name p) (ws p) (position p) (rotation p) (health p)
     (color p) (score p) v (lastShotTime p) (team p).
Definition set_lastShotTime (v : Z) (p : t) : t :=
  mk (obj p) (id p) (name p) (ws p) (position p) (rotation p) (health p)
     (color p) (score p) (isAlive p) v (team p).
End GamePlayer.

(** [interface Bullet] of gameLogic.ts. *)
Module Bullet.
Record t : Type := mk {
  id : string;
  playerId : string;
  position : Vec3;
  direction : Vec3;
  weapon : string;
  startTime : Z;
  lastUpdateTime : Z;
  speed : float;
  damage : option float
}.
(** The two in-place writes of the tick: [position[i] += ...] and
    [lastUpdateTime = now]. *)
Definition moved (pos : Vec3) (now : Z) (b : t) : t :=
  mk (id b) (playerId b) pos (direction b) (weapon b) (startTime b) now
     (speed b) (damage b).
End Bullet.

(** The argument of [handleBullet], built by [handleBulletFired]. *)
Module BulletData.
Record t : Type := mk {
  id : string;
  playerId : string;
  position : Vec3;
  direction : Vec3;
  weapon : string
}.
End BulletData.

(** ** GameRoom (gameLogic.ts) *)

Module GameRoom.

(** The fields of the class.  [scoreLimit] is never assigned after its
    initialiser and is the constant below; the [bots] map stays empty
    ([spawnBots] has no caller) and is left out.  [nextObj] is the next free
    object identity. *)
Record t : Type := mk {
  code : string;
  players : JsMap.t string GamePlayer.t;
  bullets : JsMap.t string Bullet.t;
  teamScores : TeamScores;
  gameEnded : bool;
  nextObj : nat
}.

Definition scoreLimit : Z := 50.

Definition new (code : string) : t := mk code [] [] (mkScores 0 0) false 0.

Definition set_players (v : JsMap.t string GamePlayer.t) (r : t) : t :=
  mk (code r) v (bullets r) (teamScores r) (gameEnded r) (nextObj r).
Definition set_bullets (v : JsMap.t string Bullet.t) (r : t) : t :=
  mk (code r) (players r) v (teamScores r) (gameEnded r) (nextObj r).
Definition set_teamScores (v : TeamScores) (r : t) : t :=
  mk (code r) (players r) (bullets r) v (gameEnded r) (nextObj r).
Definition set_gameEnded (v : bool) (r : t) : t :=
  mk (code r) (players r) (bullets r) (teamScores r) v (nextObj r).
Definition set_nextObj (v : nat) (r : t) : t :=
  mk (code r) (players r) (bullets r) (teamScores r) (gameEnded r) v.

Definition assignPlayerTeam (r : t) : Team :=
  if Nat.eqb (Nat.modulo (JsMap.size (players r)) 2) 0 then Red else Blue.

Definition getTeamColor (team : Team) : string :=
  match team with Red => "#ff4444" | Blue => "#4444ff" end.

(** The members [broadcast] visits: every entry of the player map whose key
    is not [excludePlayerId].  Whether a socket is open ([readyState === 1])
    is the transport's state. *)
Definition recipients (excludePlayerId : option string) (r : t) : list nat :=
  map (fun kv => GamePlayer.ws (snd kv))
    (filter (fun kv => match excludePlayerId with
                       | Some x => negb (String.eqb (fst kv) x)
                       | None => true
                       end) (players r)).

Definition broadcast (m : Msg) (excludePlayerId : option string) (r : t) : Effect :=
  Broadcast (recipients excludePlayerId r) m.

Definition victoryMessage (winningTeam : Team) : string :=
  match winningTeam with
  | Red => "RED TEAM WINS!"
  | Blue => "BLUE TEAM WINS!"
  end.

Definition winnerOf (s : TeamScores) : option Team :=
  if (scoreLimit <=? red s)%Z then Some Red
  else if (scoreLimit <=? blue s)%Z then Some Blue
  else None.

Definition victoryBonus (winningTeam : Team) (kv : string * GamePlayer.t)
  : string * GamePlayer.t :=
  let player := snd kv in
  (fst kv,
   if Team_eqb (GamePlayer.team player) winningTeam
   then GamePlayer.set_score (GamePlayer.score player + 500)%Z player
   else player).

Definition checkForVictory (r : t) : t * list Effect :=
  if gameEnded r then (r, [])
  else
    match winnerOf (teamScores r) with
    | Some winningTeam =>
        let r1 := set_gameEnded true r in
        let e := broadcast (TeamVictory winningTeam (teamScores r)
                              (victoryMessage winningTeam)) None r1 in
        (set_players (map (victoryBonus winningTeam) (players r1)) r1, [e])
    | None => (r, [])
    end.

Definition getTeamScores (r : t) : TeamScores := teamScores r.

Definition joinedMsg (kv : string * GamePlayer.t) : Msg :=
  let p := snd kv in
  PlayerJoined (fst kv) (GamePlayer.name p) (GamePlayer.position p)
    (GamePlayer.rotation p) (GamePlayer.health p) (GamePlayer.color p)
    (GamePlayer.team p).

Definition addPlayer (player : Player.t) (r : t) : t * list Effect :=
  let team := assignPlayerTeam r in
  let teamColor := getTeamColor team in
  let gamePlayer :=
    GamePlayer.mk (nextObj r) (Player.id player) (Player.name player)
      (Player.ws player) (Player.position player) (Player.rotation player)
      (Player.health player) teamColor 0%Z true 0%Z team in
  let r1 := set_nextObj (S (nextObj r))
              (set_players (JsMap.set (Player.id player) gamePlayer (players r)) r) in
  let s := teamScores r1 in
  let ws := Player.ws player in
  (r1,
   [Send ws (TeamAssigned team teamColor); Send ws (TeamScoresUpdate s)]
   ++ (if gameEnded r1 && ((scoreLimit <=? red s)%Z || (scoreLimit <=? blue s)%Z)
       then [Send ws (TeamVictory (if (scoreLimit <=? red s)%Z then Red else Blue)
                        s (victoryMessage
                             (if (scoreLimit <=? red s)%Z then Red else Blue)))]
       else [])
   ++ [broadcast (PlayerJoined (Player.id player) (Player.name player)
                    (Player.position player) (Player.rotation player)
                    (Player.health player) teamColor team)
         (Some (Player.id player)) r1]
   ++ map (fun kv => Send ws (joinedMsg kv))
        (filter (fun kv => negb (String.eqb (fst kv) (Player.id player)))
           (players r1))).

Definition removePlayer (playerId : string) (r : t) : t * list Effect :=
  match JsMap.get playerId (players r) with
  | Some _ =>
      let r1 := set_players (JsMap.delete playerId (players r)) r in
      (r1, [broadcast (PlayerLeft playerId) None r1])
  | None => (r, [])
  end.

Definition broadcastPlayerUpdate (player : Player.t) (r : t) : t * list Effect :=
  match JsMap.get (Player.id player) (players r) with
  | None => (r, [])
  | Some gamePlayer =>
      let gamePlayer1 :=
        GamePlayer.set_health (Player.health player)
          (GamePlayer.set_rotation (Player.rotation player)
             (GamePlayer.set_position (Player.position player) gamePlayer)) in
      let r1 := set_players (JsMap.set (Player.id player) gamePlayer1 (players r)) r in
      (r1, [broadcast (PlayerUpdate (Player.id player) (Player.position player)
                         (Player.rotation player) (Player.health player))
              (Some (Player.id player)) r1])
  end.

Definition getWeaponDamage (weapon : string) : float :=
  if String.eqb weapon "pistol" then 25%float
  else if String.eqb weapon "rifle" then 35%float
  else if String.eqb weapon "shotgun" then 60%float
  else 25%float.

Definition getWeaponSpeed (weapon : string) : float :=
  if String.eqb weapon "pistol" then 80%float
  else if String.eqb weapon "rifle" then 120%float
  else if String.eqb weapon "shotgun" then 60%float
  else 100%float.

Definition minTimeBetweenShots : Z := 100.

(** The first block of [handleBullet]: [None] is the early [return] of the
    rate limit; otherwise the room with [lastShotTime] written (or the room
    as it is when the submitter is not in the player map). *)
Definition rateLimit (now : Z) (playerId : string) (r : t) : option t :=
  match JsMap.get playerId (players r) with
  | Some player =>
      if (now - GamePlayer.lastShotTime player <? minTimeBetweenShots)%Z
      then None
      else Some (set_players
                   (JsMap.set playerId (GamePlayer.set_lastShotTime now player)
                      (players r)) r)
  | None => Some r
  end.

Definition dirLength (direction : Vec3) : float :=
  let '(d0, d1, d2) := direction in
  sqrt (d0 * d0 + d1 * d1 + d2 * d2)%float.

Definition normalizedDirection (direction : Vec3) : Vec3 :=
  let '(d0, d1, d2) := direction in
  let l := dirLength direction in
  (d0 / l, d1 / l, d2 / l)%float.

(** [handleBullet] reads the clock twice: [now] inside the rate-limit block
    and [now'] when it builds the bullet. *)
Definition handleBullet (now now' : Z) (bulletData : BulletData.t) (r : t)
  : t * list Effect :=
  match rateLimit now (BulletData.playerId bulletData) r with
  | None => (r, [])
  | Some r1 =>
      if PrimFloat.leb (dirLength (BulletData.direction bulletData)) 1e-6%float
      then (r1, [])
      else
        let bullet :=
          Bullet.mk (BulletData.id bulletData) (BulletData.playerId bulletData)
            (BulletData.position bulletData)
            (normalizedDirection (BulletData.direction bulletData))
            (BulletData.weapon bulletData) now' now' 100%float None in
        let r2 := set_bullets (JsMap.set (Bullet.id bullet) bullet (bullets r1)) r1 in
        (r2, [broadcast (BulletFired (Bullet.id bullet) (Bullet.playerId bullet)
                           (Bullet.position bullet) (Bullet.direction bullet)
                           (Bullet.weapon bullet)
                           (getWeaponSpeed (Bullet.weapon bullet))
                           (getWeaponDamage (Bullet.weapon bullet))) None r2])
  end.

Definition getSpawnPoints : list Vec3 :=
  [ (10, 0.9, 10); (-10, 0.9, 10); (10, 0.9, -10); (-10, 0.9, -10);
    (0, 0.9, 15); (0, 0.9, -15); (15, 0.9, 0); (-15, 0.9, 0);
    (25, 0.9, 5); (-25, 0.9, -5) ]%float.

(** [spawnPoints[Math.floor(Math.random() * spawnPoints.length)]]: the draw
    [roll] stands for the index the random number selects. *)
Definition getRandomSpawnPoint (roll : nat) : Vec3 :=
  nth (Nat.modulo roll (List.length getSpawnPoints)) getSpawnPoints
    (0, 0.9, 0)%float.

(** The body of the respawn closure.  Its three writes go to the captured
    object [player]; they show in the room exactly when that object is still
    the one the map holds under [playerId]. *)
Definition respawn (playerId : string) (player : nat) (roll : nat) (r : t)
  : t * list Effect :=
  if JsMap.has playerId (players r) then
    let position := getRandomSpawnPoint roll in
    let r1 :=
      match JsMap.get playerId (players r) with
      | Some p =>
          if Nat.eqb (GamePlayer.obj p) player
          then set_players
                 (JsMap.set playerId
                    (GamePlayer.set_position position
                       (GamePlayer.set_isAlive true
                          (GamePlayer.set_health 100%float p)))
                    (players r)) r
          else r
      | None => r
      end in
    (r1, [broadcast (PlayerRespawned playerId position) None r1])
  else (r, []).

Definition runTask (task : Task) (roll : nat) (r : t) : t * list Effect :=
  match task with
  | Respawn playerId player => respawn playerId player roll r
  end.

(** *** The tick: [updateBullets] *)

Definition bulletLifetime : Z := 3000.
Definition respawnDelay : Z := 3000.

(** [this.players.get(bullet.playerId) || { team: 'red' }] *)
Definition shooterTeam (bullet : Bullet.t) (r : t) : Team :=
  match JsMap.get (Bullet.playerId bullet) (players r) with
  | Some shooter => GamePlayer.team shooter
  | None => Red
  end.

Definition distance (bullet : Bullet.t) (player : GamePlayer.t) : float :=
  let '(b0, b1, b2) := Bullet.position bullet in
  let '(p0, p1, p2) := GamePlayer.position player in
  let dx := (b0 - p0)%float in
  let dy := (b1 - p1)%float in
  let dz := (b2 - p2)%float in
  sqrt (dx * dx + dy * dy + dz * dz)%float.

(** The tests of the inner loop, in order: the two [continue]s, then the hit
    radius. *)
Definition isTarget (bullet : Bullet.t) (r : t) (kv : string * GamePlayer.t) : bool :=
  let playerId := fst kv in
  let player := snd kv in
  if String.eqb playerId (Bullet.playerId bullet) || negb (GamePlayer.isAlive player)
  then false
  else if Team_eqb (shooterTeam bullet r) (GamePlayer.team player) then false
  else PrimFloat.ltb (distance bullet player) 1%float.

(** [bullet.damage || this.getWeaponDamage(bullet.weapon)] *)
Definition damageOf (bullet : Bullet.t) : float :=
  match Bullet.damage bullet with
  | Some d => if truthyNum d then d else getWeaponDamage (Bullet.weapon bullet)
  | None => getWeaponDamage (Bullet.weapon bullet)
  end.

Definition bump (team : Team) (s : TeamScores) : TeamScores :=
  match team with
  | Red => mkScores (red s + 1)%Z (blue s)
  | Blue => mkScores (red s) (blue s + 1)%Z
  end.

(** The block that awards the kill: [if (shooter && shooter.team !==
    player.team) { if (!this.gameEnded) { ... } }]. *)
Definition award (bullet : Bullet.t) (player : GamePlayer.t) (r : t)
  : t * list Effect :=
  match JsMap.get (Bullet.playerId bullet) (players r) with
  | Some shooter =>
      if negb (Team_eqb (GamePlayer.team shooter) (GamePlayer.team player)) then
        if gameEnded r then (r, [])
        else
          let ra := set_players
                      (JsMap.set (Bullet.playerId bullet)
                         (GamePlayer.set_score (GamePlayer.score shooter + 100)%Z
                            shooter)
                         (players r)) r in
          let rb := set_teamScores
                      (bump (GamePlayer.team shooter) (teamScores ra)) ra in
          let e := broadcast (TeamScoresUpdate (teamScores rb)) None rb in
          let '(rc, ev) := checkForVictory rb in
          (rc, e :: ev)
      else (r, [])
  | None => (r, [])
  end.

(** [shooter?.name || 'Unknown'] *)
Definition shooterName (shooter : option GamePlayer.t) : string :=
  match shooter with
  | Some s => if truthyStr (GamePlayer.name s) then GamePlayer.name s else "Unknown"
  | None => "Unknown"
  end.

(** The [if (player.health <= 0)] block; [player] is the victim after the
    writes to [health] and [isAlive]. *)
Definition eliminate (bullet : Bullet.t) (playerId : string)
  (player : GamePlayer.t) (r : t) : t * list Effect :=
  let shooter := JsMap.get (Bullet.playerId bullet) (players r) in
  let '(r1, e1) := award bullet player r in
  (r1,
   e1 ++ [broadcast (PlayerEliminated playerId (GamePlayer.name player)
                       (Bullet.playerId bullet) (shooterName shooter)
                       (Bullet.weapon bullet))
            None r1;
          SetTimeout (Respawn playerId (GamePlayer.obj player)) respawnDelay]).

(** The [if (distance < 1.0)] block, up to the [break]. *)
Definition hit (bullet : Bullet.t) (playerId : string) (player : GamePlayer.t)
  (r : t) : t * list Effect :=
  let damage := damageOf bullet in
  let player1 := GamePlayer.set_health (GamePlayer.health player - damage)%float player in
  let r1 := set_players (JsMap.set playerId player1 (players r)) r in
  let e1 := broadcast (PlayerHit playerId damage (Bullet.weapon bullet)
                         (Bullet.id bullet)) None r1 in
  if PrimFloat.leb (GamePlayer.health player1) 0%float then
    let player2 := GamePlayer.set_isAlive false player1 in
    let r2 := set_players (JsMap.set playerId player2 (players r1)) r1 in
    let '(r3, e2) := eliminate bullet playerId player2 r2 in
    (r3, e1 :: e2)
  else (r1, [e1]).

(** What the callback of [this.bullets.forEach] decided for one bullet. *)
Inductive Fate : Type := Kept | Expired | Struck.

Definition flagged (f : Fate) : bool :=
  match f with Kept => false | _ => true end.

Definition advance (now : Z) (bullet : Bullet.t) : Bullet.t :=
  let deltaTime := (numOfZ (now - Bullet.lastUpdateTime bullet) / 1000)%float in
  let '(p0, p1, p2) := Bullet.position bullet in
  let '(d0, d1, d2) := Bullet.direction bullet in
  let speed := Bullet.speed bullet in
  Bullet.moved (p0 + d0 * speed * deltaTime,
                p1 + d1 * speed * deltaTime,
                p2 + d2 * speed * deltaTime)%float now bullet.

(** One call of the [forEach] callback: the bullet object after it, the
    room after it, the decision, and the effects. *)
Definition stepBullet (now : Z) (bullet : Bullet.t) (r : t)
  : Bullet.t * t * Fate * list Effect :=
  let elapsed := (now - Bullet.startTime bullet)%Z in
  if (bulletLifetime <? elapsed)%Z then (bullet, r, Expired, [])
  else
    let bullet1 := advance now bullet in
    match find (isTarget bullet1 r) (players r) with
    | Some (playerId, player) =>
        let '(r1, e) := hit bullet1 playerId player r in
        (bullet1, r1, Struck, e)
    | None => (bullet1, r, Kept, [])
    end.

(** The [forEach] over the bullet map.  The callback neither adds nor
    deletes a bullet, so the loop visits the entries [bs] the map had when
    it started; the result is the entries with their objects updated, the
    room, [bulletsToRemove], and the effects. *)
Fixpoint scanBullets (now : Z) (bs : JsMap.t string Bullet.t) (r : t)
  : JsMap.t string Bullet.t * t * list string * list Effect :=
  match bs with
  | [] => ([], r, [], [])
  | (bulletId, bullet) :: rest =>
      let '(bullet1, r1, fate, e1) := stepBullet now bullet r in
      let '(rest1, r2, toRemove, e2) := scanBullets now rest r1 in
      ((bulletId, bullet1) :: rest1, r2,
       (if flagged fate then [bulletId] else []) ++ toRemove,
       e1 ++ e2)
  end.

Definition removeAll (toRemove : list string) (bs : JsMap.t string Bullet.t)
  : JsMap.t string Bullet.t :=
  fold_left (fun m bulletId => JsMap.delete bulletId m) toRemove bs.

Definition updateBullets (now : Z) (r : t) : t * list Effect :=
  let '(bs, r1, bulletsToRemove, e) := scanBullets now (bullets r) r in
  (set_bullets (removeAll bulletsToRemove bs) r1, e).

(** [updateBots] returns at once. *)
Definition update (now : Z) (r : t) : t * list Effect := updateBullets now r.

Definition getPlayerCount (r : t) : nat := JsMap.size (players r).

Definition getCode (r : t) : string := code r.

(** *** Everything that can happen to a room *)

Inductive Op : Type :=
| OpAddPlayer (player : Player.t)
| OpRemovePlayer (playerId : string)
| OpPlayerUpdate (player : Player.t)
| OpHandleBullet (now now' : Z) (bulletData : BulletData.t)
| OpUpdate (now : Z)
| OpTimer (task : Task) (roll : nat).

Definition step (op : Op) (r : t) : t * list Effect :=
  match op with
  | OpAddPlayer player => addPlayer player r
  | OpRemovePlayer playerId => removePlayer playerId r
  | OpPlayerUpdate player => broadcastPlayerUpdate player r
  | OpHandleBullet now now' bulletData => handleBullet now now' bulletData r
  | OpUpdate now => update now r
  | OpTimer task roll => runTask task roll r
  end.

Fixpoint run (ops : list Op) (r : t) : t * list Effect :=
  match ops with
  | [] => (r, [])
  | op :: rest =>
      let '(r1, e1) := step op r in
      let '(r2, e2) := run rest r1 in
      (r2, e1 ++ e2)
  end.

End GameRoom.

(** ** Timers of one room

    [setTimeout(f, delay)] called by a handler that read the clock as [now]
    runs [f] once, at a time not before [now + delay].  The pending closures
    of a room are kept with that earliest time. *)

Module EventLoop.

Record t : Type := mk {
  room : GameRoom.t;
  timers : list (Z * Task)
}.

Definition scheduled (now : Z) (effects : list Effect) : list (Z * Task) :=
  flat_map (fun e => match e with
                     | SetTimeout task delay => [((now + delay)%Z, task)]
                     | _ => []
                     end) effects.

(** The clock reading an operation makes when it starts, if it makes one. *)
Definition readsClock (op : GameRoom.Op) : Z :=
  match op with
  | GameRoom.OpHandleBullet now _ _ => now
  | GameRoom.OpUpdate now => now
  | _ => 0%Z
  end.

(** A message handler or the interval tick runs on the room; a closure
    runs through [fire] only. *)
Definition call (op : GameRoom.Op) (w : t) : t * list Effect :=
  match op with
  | GameRoom.OpTimer _ _ => (w, [])
  | _ =>
      let '(r, e) := GameRoom.step op (room w) in
      (mk r (timers w ++ scheduled (readsClock op) e), e)
  end.

Fixpoint dropNth {A : Type} (i : nat) (l : list A) : list A :=
  match l, i with
  | [], _ => []
  | _ :: l', O => l'
  | x :: l', S j => x :: dropNth j l'
  end.

(** The [i]-th pending closure runs at time [now]; [None] when there is no
    such closure or its time has not come. *)
Definition fire (now : Z) (i : nat) (roll : nat) (w : t) : option (t * list Effect) :=
  match nth_error (timers w) i with
  | Some (due, task) =>
      if (due <=? now)%Z then
        let '(r, e) := GameRoom.runTask task roll (room w) in
        Some (mk r (dropNth i (timers w)), e)
      else None
  | None => None
  end.

End EventLoop.

(** ** GameServer (gameServer.ts) *)

(** The inbound messages [handleMessage] dispatches on. *)
Inductive Inbound : Type :=
| CreateRoom (playerName : option string)
| JoinRoom (code : string) (playerName : option string)
| PlayerUpdateIn (position rotation : Vec3) (health : float)
| BulletFiredIn (id : string) (position direction : Vec3) (weapon : string)
| UnknownType (type : string).

(** What a handler reads from outside while it runs: the two clock readings
    of [handleBullet] and the draws of [generateRoomCode]. *)
Record Env : Type := mkEnv {
  now : Z;
  now' : Z;
  draws : nat -> nat
}.

Module GameServer.

Record t : Type := mk {
  players : JsMap.t nat Player.t;
  rooms : JsMap.t string GameRoom.t;
  playerCounter : nat
}.

Definition new : t := mk [] [] 0.

Definition set_players (v : JsMap.t nat Player.t) (s : t) : t :=
  mk v (rooms s) (playerCounter s).
Definition set_rooms (v : JsMap.t string GameRoom.t) (s : t) : t :=
  mk (players s) v (playerCounter s).

Definition decimal (n : nat) : string := NilZero.string_of_uint (Nat.to_uint n).

Definition colors : list string :=
  ["#ff4444"; "#44ff44"; "#4444ff"; "#ffff44"; "#ff44ff"; "#44ffff"].

Definition handleConnection (ws : nat) (s : t) : t :=
  let counter := S (playerCounter s) in
  let player :=
    Player.mk (String.append "player_" (decimal counter))
      (String.append "Player " (decimal counter)) ws
      (0, 0.9, 0)%float (0, 0, 0)%float 100%float
      (nth (Nat.modulo counter (List.length colors)) colors "") None in
  mk (JsMap.set ws player (players s)) (rooms s) counter.

Definition chars : string := "ABCDEFGHIJKLMNOPQRSTUVWXYZ0123456789".

Definition charAt (i : nat) (s : string) : string :=
  match String.get i s with
  | Some c => String c EmptyString
  | None => EmptyString
  end.

(** Six characters, the [i]-th picked by the [i]-th random draw. *)
Definition generateRoomCode (draws : nat -> nat) : string :=
  fold_left (fun result i =>
               String.append result
                 (charAt (Nat.modulo (draws i) (String.length chars)) chars))
    (seq 0 6) EmptyString.

Definition handleCreateRoom (env : Env) (ws : nat) (playerName : option string)
  (s : t) : t * list Effect :=
  match JsMap.get ws (players s) with
  | None => (s, [])
  | Some player =>
      let roomCode := generateRoomCode (draws env) in
      let room := GameRoom.new roomCode in
      let player1 := Player.set_name (orStr playerName (Player.name player)) player in
      let '(room1, e) := GameRoom.addPlayer player1 room in
      let player2 := Player.set_roomId (Some roomCode) player1 in
      (mk (JsMap.set ws player2 (players s))
          (JsMap.set roomCode room1 (rooms s)) (playerCounter s),
       e ++ [Send ws (RoomCreated roomCode (Player.id player2))])
  end.

Definition handleJoinRoom (ws : nat) (code : string) (playerName : option string)
  (s : t) : t * list Effect :=
  match JsMap.get ws (players s) with
  | None => (s, [])
  | Some player =>
      match JsMap.get code (rooms s) with
      | None => (s, [Send ws (ErrorMsg "Room not found")])
      | Some room =>
          if Nat.leb 8 (GameRoom.getPlayerCount room)
          then (s, [Send ws (ErrorMsg "Room is full")])
          else
            let player1 :=
              Player.set_name (orStr playerName (Player.name player)) player in
            let '(room1, e) := GameRoom.addPlayer player1 room in
            let player2 := Player.set_roomId (Some code) player1 in
            (mk (JsMap.set ws player2 (players s))
                (JsMap.set code room1 (rooms s)) (playerCounter s),
             e ++ [Send ws (RoomJoined (Player.id player2))])
      end
  end.

(** [player.roomId] when it is truthy. *)
Definition currentRoom (player : Player.t) : option string :=
  match Player.roomId player with
  | Some c => if truthyStr c then Some c else None
  | None => None
  end.

Definition handlePlayerUpdate (ws : nat) (position rotation : Vec3) (health : float)
  (s : t) : t * list Effect :=
  match JsMap.get ws (players s) with
  | None => (s, [])
  | Some player =>
      match currentRoom player with
      | None => (s, [])
      | Some roomId =>
          let player1 := Player.set_state position rotation health player in
          let s1 := set_players (JsMap.set ws player1 (players s)) s in
          match JsMap.get roomId (rooms s1) with
          | Some room =>
              let '(room1, e) := GameRoom.broadcastPlayerUpdate player1 room in
              (set_rooms (JsMap.set roomId room1 (rooms s1)) s1, e)
          | None => (s1, [])
          end
      end
  end.

Definition handleBulletFired (env : Env) (ws : nat) (id : string)
  (position direction : Vec3) (weapon : string) (s : t) : t * list Effect :=
  match JsMap.get ws (players s) with
  | None => (s, [])
  | Some player =>
      match currentRoom player with
      | None => (s, [])
      | Some roomId =>
          match JsMap.get roomId (rooms s) with
          | Some room =>
              let '(room1, e) :=
                GameRoom.handleBullet (now env) (now' env)
                  (BulletData.mk id (Player.id player) position direction weapon)
                  room in
              (set_rooms (JsMap.set roomId room1 (rooms s)) s, e)
          | None => (s, [])
          end
      end
  end.

Definition handleMessage (env : Env) (ws : nat) (message : Inbound) (s : t)
  : t * list Effect :=
  match JsMap.get ws (players s) with
  | None => (s, [])
  | Some _ =>
      match message with
      | CreateRoom playerName => handleCreateRoom env ws playerName s
      | JoinRoom code playerName => handleJoinRoom ws code playerName s
      | PlayerUpdateIn position rotation health =>
          handlePlayerUpdate ws position rotation health s
      | BulletFiredIn id position direction weapon =>
          handleBulletFired env ws id position direction weapon s
      | UnknownType _ => (s, [])
      end
  end.

Definition handleDisconnection (ws : nat) (s : t) : t * list Effect :=
  match JsMap.get ws (players s) with
  | None => (s, [])
  | Some player =>
      let '(rooms1, e) :=
        match currentRoom player with
        | Some roomId =>
            match JsMap.get roomId (rooms s) with
            | Some room =>
                let '(room1, e) := GameRoom.removePlayer (Player.id player) room in
                if Nat.eqb (GameRoom.getPlayerCount room1) 0
                then (JsMap.delete roomId (rooms s), e)
                else (JsMap.set roomId room1 (rooms s), e)
            | None => (rooms s, [])
            end
        | None => (rooms s, [])
        end in
      (mk (JsMap.delete ws (players s)) rooms1 (playerCounter s), e)
  end.

(** [this.rooms.forEach(room => room.update())]; every room reads the clock
    itself, [clock i] is the reading of the [i]-th room. *)
Fixpoint updateRooms (clock : nat -> Z) (i : nat) (rs : JsMap.t string GameRoom.t)
  : JsMap.t string GameRoom.t * list Effect :=
  match rs with
  | [] => ([], [])
  | (c, room) :: rest =>
      let '(room1, e1) := GameRoom.update (clock i) room in
      let '(rest1, e2) := updateRooms clock (S i) rest in
      ((c, room1) :: rest1, e1 ++ e2)
  end.

Definition updateAllRooms (clock : nat -> Z) (s : t) : t * list Effect :=
  let '(rooms1, e) := updateRooms clock 0 (rooms s) in
  (set_rooms rooms1 s, e).

Definition getPlayerCount (s : t) : nat := JsMap.size (players s).

Definition getRoomCount (s : t) : nat := JsMap.size (rooms s).

(** The events the transport and the interval timer deliver. *)
Inductive Op : Type :=
| Connect (ws : nat)
| Close (ws : nat)
| Receive (env : Env) (ws : nat) (message : Inbound)
| Interval (clock : nat -> Z).

Definition step (op : Op) (s : t) : t * list Effect :=
  match op with
  | Connect ws => (handleConnection ws s, [])
  | Close ws => handleDisconnection ws s
  | Receive env ws message => handleMessage env ws message s
  | Interval clock => updateAllRooms clock s
  end.

Fixpoint run (ops : list Op) (s : t) : t * list Effect :=
  match ops with
  | [] => (s, [])
  | op :: rest =>
      let '(s1, e1) := step op s in
      let '(s2, e2) := run rest s1 in
      (s2, e1 ++ e2)
  end.

(** The rooms of the server's table whose player map holds [playerId]. *)
Definition roomsHolding (playerId : string) (s : t) : list string :=
  map fst (filter (fun kv => JsMap.has playerId (GameRoom.players (snd kv)))
             (rooms s)).

End GameServer.

(** ** AIBot (aiBot.ts)

    The bot class: its state, [takeDamage], [respawn] and target selection.
    [THREE.Vector3.distanceTo] belongs to the three.js library and is a
    parameter.  The methods that steer and aim ([updateMovement],
    [aimAtTarget], [shoot]) go through [Math.atan2] and the library's
    [normalize] and are not embedded. *)

Module AIBot.

Record t : Type := mk {
  id : string;
  name : string;
  position : Vec3;
  rotation : Vec3;
  health : float;
  isAlive : bool;
  color : string;
  target : option string;
  lastShotTime : Z;
  moveTarget : Vec3;
  lastMoveUpdate : Z
}.

(** [weaponStats] *)
Definition damage : float := 30%float.
Definition fireRate : float := 2%float.
Definition range : float := 50%float.

(** [id.slice(-3)] *)
Definition lastThree (s : string) : string :=
  String.substring (String.length s - 3) 3 s.

(** [constructor(id, spawnPosition)] *)
Definition new (id : string) (spawnPosition : Vec3) : t :=
  mk id (String.append "Bot_" (lastThree id)) spawnPosition (0, 0, 0)%float
     100%float true "#ff8800" None 0%Z spawnPosition 0%Z.

(** [selectNewMoveTarget]; [u] and [v] are its two [Math.random()] draws. *)
Definition selectNewMoveTarget (u v : float) (b : t) : t :=
  mk (id b) (name b) (position b) (rotation b) (health b) (isAlive b) (color b)
     (target b) (lastShotTime b)
     ((u - 0.5) * 90, 0.9, (v - 0.5) * 90)%float (lastMoveUpdate b).

(** [takeDamage(damage)]: the bot after the call and the returned flag
    ("the bot died"). *)
Definition takeDamage (dmg : float) (b : t) : t * bool :=
  if negb (isAlive b) then (b, false)
  else
    let h := (health b - dmg)%float in
    if PrimFloat.leb h 0%float
    then (mk (id b) (name b) (position b) (rotation b) 0%float false (color b)
             (target b) (lastShotTime b) (moveTarget b) (lastMoveUpdate b),
          true)
    else (mk (id b) (name b) (position b) (rotation b) h (isAlive b) (color b)
             (target b) (lastShotTime b) (moveTarget b) (lastMoveUpdate b),
          false).

(** [respawn(spawnPosition)] *)
Definition respawn (spawnPosition : Vec3) (u v : float) (b : t) : t :=
  selectNewMoveTarget u v
    (mk (id b) (name b) spawnPosition (rotation b) 100%float true (color b)
        None 0%Z (moveTarget b) (lastMoveUpdate b)).

(** [canShoot(target, now)] *)
Definition canShoot (now : Z) (b : t) : bool :=
  PrimFloat.leb (1000 / fireRate)%float (numOfZ (now - lastShotTime b)).

Section Targeting.
Variable distanceTo : Vec3 -> Vec3 -> float.

(** One call of the callback of [players.forEach] in [findNearestPlayer];
    the accumulator is [nearest] with [nearestDistance]. *)
Definition consider (b : t) (acc : option GamePlayer.t * float)
  (kv : string * GamePlayer.t) : option GamePlayer.t * float :=
  let player := snd kv in
  if negb (GamePlayer.isAlive player) then acc
  else if Team_eqb (GamePlayer.team player) Red then acc
  else
    let d := distanceTo (position b) (GamePlayer.position player) in
    if PrimFloat.ltb d (snd acc) && PrimFloat.ltb d range
    then (Some player, d)
    else acc.

Definition findNearestPlayer (players : JsMap.t string GamePlayer.t) (b : t)
  : option GamePlayer.t :=
  fst (fold_left (consider b) players (None, infinity)).

(** [canSeeTarget(target, obstacles)] *)
Definition canSeeTarget (target : GamePlayer.t) (b : t) : bool :=
  PrimFloat.ltb (distanceTo (position b) (GamePlayer.position target)) range.

End Targeting.

Definition getState (b : t) : t := b.
Definition getId (b : t) : string := id b.

(** A history of a bot: hits taken and respawns. *)
Inductive Event : Type :=
| Damage (dmg : float)
| Respawn (spawnPosition : Vec3) (u v : float).

(** The bot after a history, with the flags [takeDamage] returned, in
    order. *)
Fixpoint live (events : list Event) (b : t) : t * list bool :=
  match events with
  | [] => (b, [])
  | Damage dmg :: rest =>
      let '(b1, died) := takeDamage dmg b in
      let '(b2, flags) := live rest b1 in
      (b2, died :: flags)
  | Respawn spawnPosition u v :: rest => live rest (respawn spawnPosition u v b)
  end.

End AIBot.

(** * Vocabulary of the properties *)

(** ** Counters, flag and victory *)

Definition scores_le (a b : TeamScores) : Prop :=
  (red a <= red b)%Z /\ (blue a <= blue b)%Z.

(** What one operation may do to the counters: never lower one, and leave
    both alone (and the flag set) once the flag is set. *)
Definition ScoreStep (r r' : GameRoom.t) : Prop :=
  scores_le (GameRoom.teamScores r) (GameRoom.teamScores r') /\
  (GameRoom.gameEnded r = true ->
   GameRoom.gameEnded r' = true /\ GameRoom.teamScores r' = GameRoom.teamScores r).

Definition isVictoryBroadcast (e : Effect) : bool :=
  match e with
  | Broadcast _ (TeamVictory _ _ _) => true
  | _ => false
  end.

(** How many times a list of effects broadcasts [team_victory]. *)
Definition victoryBroadcasts (es : list Effect) : nat :=
  List.length (filter isVictoryBroadcast es).

(** The flag is set exactly when a counter has reached the limit. *)
Definition Decided (r : GameRoom.t) : Prop :=
  GameRoom.gameEnded r
  = ((GameRoom.scoreLimit <=? red (GameRoom.teamScores r))%Z
     || (GameRoom.scoreLimit <=? blue (GameRoom.teamScores r))%Z).

(** What one operation does to the flag: it flips from unset to set exactly
    when the operation broadcasts [team_victory] (once), and it stays as it
    is when the operation leaves the counters as they are. *)
Definition VictoryStep (r r' : GameRoom.t) (e : list Effect) : Prop :=
  Nat.b2n (GameRoom.gameEnded r) + victoryBroadcasts e
  = Nat.b2n (GameRoom.gameEnded r') /\
  (GameRoom.teamScores r' = GameRoom.teamScores r ->
   GameRoom.gameEnded r' = GameRoom.gameEnded r).

(** An operation with result [res] treats the flag as [VictoryStep] says
    and keeps it in line with the counters. *)
Definition Orderly (r : GameRoom.t) (res : GameRoom.t * list Effect) : Prop :=
  VictoryStep r (fst res) (snd res) /\ (Decided r -> Decided (fst res)).

(** The counter of a team. *)
Definition scoreOf (team : Team) (s : TeamScores) : Z :=
  match team with Red => red s | Blue => blue s end.

(** The member record after the victory bonus for [winningTeam]. *)
Definition withBonus (winningTeam : Team) (player : GamePlayer.t) : GamePlayer.t :=
  if Team_eqb (GamePlayer.team player) winningTeam
  then GamePlayer.set_score (GamePlayer.score player + 500)%Z player
  else player.

(** ** Shot submissions *)

Definition isBulletFired (e : Effect) : bool :=
  match e with
  | Broadcast _ (BulletFired _ _ _ _ _ _ _) => true
  | _ => false
  end.

(** How many times a list of effects broadcasts [bullet_fired]. *)
Definition firedBroadcasts (es : list Effect) : nat :=
  List.length (filter isBulletFired es).

(** A shot submission with the two clock readings of its handler. *)
Definition Shot : Type := (Z * Z * BulletData.t)%type.

Definition shotOp (s : Shot) : GameRoom.Op :=
  GameRoom.OpHandleBullet (fst (fst s)) (snd (fst s)) (snd s).

Definition isFiredBy (playerId : string) (e : Effect) : bool :=
  match e with
  | Broadcast _ (BulletFired _ p _ _ _ _ _) => String.eqb p playerId
  | _ => false
  end.

(** How many [bullet_fired] broadcasts a list of effects has for bullets of
    [playerId]. *)
Definition firedBy (playerId : string) (es : list Effect) : nat :=
  List.length (filter (isFiredBy playerId) es).

(** The last-shot time the room has for a member. *)
Definition lastShotOf (playerId : string) (r : GameRoom.t) : option Z :=
  option_map GamePlayer.lastShotTime (JsMap.get playerId (GameRoom.players r)).

(** An operation that is neither a shot of [playerId] nor a change of its
    membership: ticks, timers, position updates, and whatever the other
    members do. *)
Definition foreign (playerId : string) (op : GameRoom.Op) : Prop :=
  match op with
  | GameRoom.OpAddPlayer player => Player.id player <> playerId
  | GameRoom.OpRemovePlayer k => k <> playerId
  | GameRoom.OpHandleBullet _ _ bd => BulletData.playerId bd <> playerId
  | _ => True
  end.

(** A shot submission of [playerId] whose handler reads the clock within
    the 50 ms that start at [w]. *)
Definition shotInWindow (playerId : string) (w : Z) (op : GameRoom.Op) : Prop :=
  match op with
  | GameRoom.OpHandleBullet now _ bd =>
      BulletData.playerId bd = playerId /\ (w <= now <= w + 50)%Z
  | _ => False
  end.

(** [| |v| - 1 | <= 1e-6] *)
Definition unitLength (v : Vec3) : bool :=
  PrimFloat.leb (abs (GameRoom.dirLength v - 1)) 1e-6%float.

(** ** Shape of a room and outcome of a tick *)

(** Every entry is stored under the identifier its value carries. *)
Definition keyed {V : Type} (ident : V -> string) (m : JsMap.t string V) : Prop :=
  forall k v, In (k, v) m -> ident v = k.

(** What the association lists owe to being [Map]s, and the bullet map to
    [this.bullets.set(bullet.id, bullet)]. *)
Definition WellFormed (r : GameRoom.t) : Prop :=
  NoDup (JsMap.keys (GameRoom.players r)) /\
  NoDup (JsMap.keys (GameRoom.bullets r)) /\
  keyed Bullet.id (GameRoom.bullets r).

(** The members, in map order, each with one field of its record. *)
Definition view {A : Type} (field : GamePlayer.t -> A) (r : GameRoom.t)
  : list (string * A) :=
  map (fun kv => (fst kv, field (snd kv))) (GameRoom.players r).

(** The members with their teams. *)
Definition roster (r : GameRoom.t) : list (string * Team) :=
  view GamePlayer.team r.

(** The team of a member of the room, [None] for somebody who is not in the
    player map. *)
Definition teamOf (playerId : string) (r : GameRoom.t) : option Team :=
  option_map GamePlayer.team (JsMap.get playerId (GameRoom.players r)).

(** A hit on [victimId] by a bullet of [ownerId] that the room allows: the
    two ids differ, the victim is a member, and its team differs from the
    owner's team as the room has it, or is blue when the room has no such
    owner (an owner who is not in the player map counts as red). *)
Definition Spared (victimId ownerId : string) (r : GameRoom.t) : Prop :=
  victimId <> ownerId /\
  exists tv, teamOf victimId r = Some tv /\
             match teamOf ownerId r with
             | Some ts => ts <> tv
             | None => tv = Blue
             end.

Definition isHitOn (bulletId : string) (e : Effect) : bool :=
  match e with
  | Broadcast _ (PlayerHit _ _ _ b) => String.eqb b bulletId
  | _ => false
  end.

(** Whether a list of effects has a [player_hit] for the bullet. *)
Definition hitsOn (bulletId : string) (es : list Effect) : bool :=
  existsb (isHitOn bulletId) es.

(** The effects a tick can have. *)
Definition fromTick (e : Effect) : bool :=
  match e with
  | Broadcast _ (PlayerHit _ _ _ _) => true
  | Broadcast _ (TeamScoresUpdate _) => true
  | Broadcast _ (TeamVictory _ _ _) => true
  | Broadcast _ (PlayerEliminated _ _ _ _ _) => true
  | SetTimeout _ _ => true
  | _ => false
  end.

Definition expired (now : Z) (bullet : Bullet.t) : bool :=
  (GameRoom.bulletLifetime <? now - Bullet.startTime bullet)%Z.

Definition struck (f : GameRoom.Fate) : bool :=
  match f with GameRoom.Struck => true | _ => false end.

(** The bullet object after the callback: untouched when it had expired,
    advanced otherwise. *)
Definition visited (now : Z) (bullet : Bullet.t) : Bullet.t :=
  if expired now bullet then bullet else GameRoom.advance now bullet.



(** ** Sample data *)

(** Connection records as [handleConnection] makes them. *)
Definition guest (n : nat) : Player.t :=
  Player.mk (String.append "player_" (GameServer.decimal n))
    (String.append "Player " (GameServer.decimal n)) n
    (0, 0.9, 0)%float (0, 0, 0)%float 100%float
    (nth (Nat.modulo n (List.length GameServer.colors)) GameServer.colors "")
    None.

(** A room with [n] members, [player_1] ... [player_n], joined in order. *)
Definition lobby (n : nat) : GameRoom.t :=
  fst (GameRoom.run (map (fun i => GameRoom.OpAddPlayer (guest i)) (seq 1 n))
         (GameRoom.new "AAAAAA")).

(** [player_2] as its connection record stands after it reported 10
    health. *)
Definition wounded : Player.t :=
  Player.set_state (0, 0.9, 0)%float (0, 0, 0)%float 10%float (guest 2).

(** Two members at the same spot, [player_2] down to 10 health, and a rifle
    bullet of [player_1] on its way. *)
Definition duel : GameRoom.t :=
  fst (GameRoom.run
         [GameRoom.OpPlayerUpdate wounded;
          GameRoom.OpHandleBullet 1000 1000
            (BulletData.mk "b1" "player_1" (0, 0.9, 0)%float (0, 0, 1)%float
               "rifle")]
         (lobby 2)).

(** The same with red one kill short of the limit. *)
Definition brink : GameRoom.t := GameRoom.set_teamScores (mkScores 49 0) duel.

(** The room [brink] turns into when the bullet lands: red has won. *)
Definition afterVictory : GameRoom.t :=
  fst (GameRoom.step (GameRoom.OpUpdate 1005) brink).

(** After the victory: the respawn of [player_2], who reports 10 health
    again, and another rifle shot of [player_1] that lands. *)
Definition rematch : list GameRoom.Op :=
  [GameRoom.OpTimer (Respawn "player_2" 1) 0;
   GameRoom.OpPlayerUpdate wounded;
   GameRoom.OpHandleBullet 5000 5000
     (BulletData.mk "b2" "player_1" (0, 0.9, 0)%float (0, 0, 1)%float "rifle");
   GameRoom.OpUpdate 5005].

(** Twenty submissions of [player_1], one every 2 ms from 1000 ms on. *)
Definition burst : list Shot :=
  map (fun i => ((1000 + 2 * Z.of_nat i)%Z, (1000 + 2 * Z.of_nat i)%Z,
                 BulletData.mk (String.append "b" (GameServer.decimal i))
                   "player_1" (0, 0.9, 0)%float (0, 0, 1)%float "pistol"))
    (seq 0 20).

(** The twenty submissions of [burst] with a tick after each. *)
Definition burstWithTicks : list GameRoom.Op :=
  flat_map (fun s => [shotOp s; GameRoom.OpUpdate (fst (fst s) + 1)%Z]) burst.


(** A room of four (red, blue, red, blue at one spot); [player_2], blue,
    fires a rifle bullet and then leaves. *)
Definition orphanShot : GameRoom.t :=
  fst (GameRoom.run
         [GameRoom.OpHandleBullet 1000 1000
            (BulletData.mk "b1" "player_2" (0, 0.9, 0)%float (0, 0, 1)%float
               "rifle");
          GameRoom.OpRemovePlayer "player_2"]
         (lobby 4)).

(** The event loop of [duel] after the tick at 1005 ms, which eliminates
    [player_2]. *)
Definition fallen : EventLoop.t :=
  fst (EventLoop.call (GameRoom.OpUpdate 1005) (EventLoop.mk duel [])).

(** Then the connection of [player_2] joins the same room once more. *)
Definition rejoined : EventLoop.t :=
  fst (EventLoop.call (GameRoom.OpAddPlayer wounded) fallen).

(** Handler environments whose draws make the room codes AAAAAA and
    BBBBBB. *)
Definition envA : Env := mkEnv 1000 1000 (fun _ => 0).
Definition envB : Env := mkEnv 2000 2000 (fun _ => 1).

(** One connection that sends [create_room] twice. *)
Definition twoRooms : GameServer.t :=
  fst (GameServer.run
         [GameServer.Connect 1;
          GameServer.Receive envA 1 (CreateRoom None);
          GameServer.Receive envB 1 (CreateRoom None)]
         GameServer.new).

(** The messages behind [rejoined]: two connections, a room created by the
    first and joined by the second, the second reports 10 health, the first
    fires, the interval ticks at 1005 ms, and the second sends [join_room]
    for the same room again. *)
Definition rejoinTrace : list GameServer.Op :=
  [GameServer.Connect 1; GameServer.Connect 2;
   GameServer.Receive envA 1 (CreateRoom None);
   GameServer.Receive envA 2 (JoinRoom "AAAAAA" None);
   GameServer.Receive envA 2
     (PlayerUpdateIn (0, 0.9, 0)%float (0, 0, 0)%float 10%float);
   GameServer.Receive envA 1
     (BulletFiredIn "b1" (0, 0.9, 0)%float (0, 0, 1)%float "rifle");
   GameServer.Interval (fun _ => 1005%Z);
   GameServer.Receive envA 2 (JoinRoom "AAAAAA" None)].

(** ** Joining and leaving *)

Definition otherTeam (t : Team) : Team :=
  match t with Red => Blue | Blue => Red end.

(** The ids of the records in order, with teams that alternate from [t]. *)
Fixpoint alternate (t : Team) (ps : list Player.t) : list (string * Team) :=
  match ps with
  | [] => []
  | p :: rest => (Player.id p, t) :: alternate (otherTeam t) rest
  end.

(** The connection records join one after the other. *)
Definition joins (ps : list Player.t) : list GameRoom.Op :=
  map GameRoom.OpAddPlayer ps.

Definition isVictoryNotice (e : Effect) : bool :=
  match e with
  | Send _ (TeamVictory _ _ _) => true
  | _ => false
  end.

(** How many [team_victory] messages a list of effects sends to a single
    socket. *)
Definition victoryNotices (es : list Effect) : nat :=
  List.length (filter isVictoryNotice es).

(** What a position update must not touch in a member's record. *)
Definition standing (p : GamePlayer.t)
  : nat * string * string * nat * string * Z * bool * Z * Team :=
  (GamePlayer.obj p, GamePlayer.id p, GamePlayer.name p, GamePlayer.ws p,
   GamePlayer.color p, GamePlayer.score p, GamePlayer.isAlive p,
   GamePlayer.lastShotTime p, GamePlayer.team p).

(** ** Accounts of a tick *)

(** What a tick must not touch in a member's record. *)
Definition profile (p : GamePlayer.t)
  : nat * string * string * nat * Vec3 * Vec3 * string * Z * Team :=
  (GamePlayer.obj p, GamePlayer.id p, GamePlayer.name p, GamePlayer.ws p,
   GamePlayer.position p, GamePlayer.rotation p, GamePlayer.color p,
   GamePlayer.lastShotTime p, GamePlayer.team p).

(** The counters with the flag. *)
Definition tallyOf (r : GameRoom.t) : TeamScores * bool :=
  (GameRoom.teamScores r, GameRoom.gameEnded r).

Definition reached (s : TeamScores) : bool :=
  match GameRoom.winnerOf s with Some _ => true | None => false end.

(** The only way counters and flag ever move: while the flag is unset, one
    team gets one point and the flag is set if that reaches the limit. *)
Inductive Scored : TeamScores * bool -> TeamScores * bool -> Prop :=
| Scored_none (a : TeamScores * bool) : Scored a a
| Scored_kill (a : TeamScores * bool) (s : TeamScores) (team : Team) :
    Scored a (s, false) ->
    Scored a (GameRoom.bump team s, reached (GameRoom.bump team s)).

Definition count (p : Effect -> bool) (es : list Effect) : nat :=
  List.length (filter p es).

Definition isHit (e : Effect) : bool :=
  match e with Broadcast _ (PlayerHit _ _ _ _) => true | _ => false end.

Definition isElimination (e : Effect) : bool :=
  match e with Broadcast _ (PlayerEliminated _ _ _ _ _) => true | _ => false end.

Definition isScoreUpdate (e : Effect) : bool :=
  match e with Broadcast _ (TeamScoresUpdate _) => true | _ => false end.

Definition isTimer (e : Effect) : bool :=
  match e with SetTimeout _ _ => true | _ => false end.

(** A timer that is the respawn of some player after 3000 ms. *)
Definition isRespawnTimer (e : Effect) : bool :=
  match e with
  | SetTimeout (Respawn _ _) delay => Z.eqb delay 3000
  | _ => false
  end.

Definition total (s : TeamScores) : Z := (red s + blue s)%Z.

(** Whether an effect is a [player_hit] or a [player_eliminated] whose
    victim is [victimId]. *)
Definition strikes (victimId : string) (e : Effect) : bool :=
  match e with
  | Broadcast _ (PlayerHit v _ _ _) => String.eqb v victimId
  | Broadcast _ (PlayerEliminated v _ _ _ _) => String.eqb v victimId
  | _ => false
  end.

(** The alive flag and the health the room has for a member. *)
Definition vital (playerId : string) (r : GameRoom.t) : option (bool * float) :=
  option_map (fun p => (GamePlayer.isAlive p, GamePlayer.health p))
    (JsMap.get playerId (GameRoom.players r)).

(** [fallen] after [player_1] has fired again, at the dead [player_2]. *)
Definition overkill : GameRoom.t :=
  fst (GameRoom.handleBullet 1200 1200
         (BulletData.mk "b2" "player_1" (0, 0.9, 0)%float (0, 0, 1)%float "rifle")
         (EventLoop.room fallen)).


(** The books of the effects [e] of a part of a tick that took the room
    from [r] to [r'] and looked at [n] bullets: at most one hit per bullet,
    at most one elimination per hit, one respawn timer (of 3000 ms) per
    elimination and no other timer, at most one team point per elimination,
    each with its [team_scores_update], and at most one [team_victory] per
    point. *)
Definition Ledger (n : nat) (r r' : GameRoom.t) (e : list Effect) : Prop :=
  count isHit e <= n /\
  count isElimination e <= count isHit e /\
  count isTimer e = count isElimination e /\
  count isRespawnTimer e = count isTimer e /\
  count isScoreUpdate e <= count isElimination e /\
  victoryBroadcasts e <= count isScoreUpdate e /\
  total (GameRoom.teamScores r')
  = (total (GameRoom.teamScores r) + Z.of_nat (count isScoreUpdate e))%Z.


(** Whether an effect reports the elimination of [victimId]. *)
Definition isEliminationOf (victimId : string) (e : Effect) : bool :=
  match e with
  | Broadcast _ (PlayerEliminated v _ _ _ _) => String.eqb v victimId
  | _ => false
  end.

(** Whether the room has [playerId] as a member that is not alive. *)
Definition down (playerId : string) (r : GameRoom.t) : Prop :=
  option_map fst (vital playerId r) = Some false.

(** What a part of a tick with effects [e], from [r] to [r'], does to
    [playerId]. *)
Definition Casualty (playerId : string) (r r' : GameRoom.t) (e : list Effect)
  : Prop :=
  (down playerId r -> count (strikes playerId) e = 0 /\
                      vital playerId r' = vital playerId r) /\
  count (isEliminationOf playerId) e <= 1 /\
  (count (isEliminationOf playerId) e = 1 -> down playerId r').

(** Three members at one spot (red, blue, red), [player_2] down to 10
    health, and a rifle bullet of each red member on its way. *)
Definition crossfire : GameRoom.t :=
  fst (GameRoom.run
         [GameRoom.OpPlayerUpdate wounded;
          GameRoom.OpHandleBullet 1000 1000
            (BulletData.mk "b1" "player_1" (0, 0.9, 0)%float (0, 0, 1)%float
               "rifle");
          GameRoom.OpHandleBullet 1000 1000
            (BulletData.mk "b3" "player_3" (0, 0.9, 0)%float (0, 0, 1)%float
               "rifle")]
         (lobby 3)).


(** ** Frames *)

(** Every field of a member's record except [lastShotTime]. *)
Definition sansShot (p : GamePlayer.t)
  : nat * string * string * nat * Vec3 * Vec3 * float * string * Z * bool * Team :=
  (GamePlayer.obj p, GamePlayer.id p, GamePlayer.name p, GamePlayer.ws p,
   GamePlayer.position p, GamePlayer.rotation p, GamePlayer.health p,
   GamePlayer.color p, GamePlayer.score p, GamePlayer.isAlive p,
   GamePlayer.team p).

(** Whether a direction passes the guard of [handleBullet]. *)
Definition passesGuard (direction : Vec3) : bool :=
  negb (PrimFloat.leb (GameRoom.dirLength direction) 1e-6%float).

(** Two shots at the same instant in the name of [ghost], who is not a
    member. *)
Definition ghostShots : list Shot :=
  [(1000%Z, 1000%Z,
    BulletData.mk "g1" "ghost" (0, 0.9, 0)%float (0, 0, 1)%float "pistol");
   (1000%Z, 1000%Z,
    BulletData.mk "g2" "ghost" (0, 0.9, 0)%float (1, 0, 0)%float "pistol")].

(** [player_2] submits a bullet under the id of the bullet of [player_1]
    that is in flight in [duel]. *)
Definition sameId : BulletData.t :=
  BulletData.mk "b1" "player_2" (5, 0.9, 5)%float (1, 0, 0)%float "pistol".


(** ** The server's tables *)

(** A room as the server's table should hold it: its maps are maps, and it
    has between one and eight members. *)
Definition RoomOK (room : GameRoom.t) : Prop :=
  WellFormed room /\ 1 <= GameRoom.getPlayerCount room <= 8.

(** The player ids of the connections, in map order. *)
Definition playerIds (s : GameServer.t) : list string :=
  map (fun kv => Player.id (snd kv)) (GameServer.players s).

(** [`player_${n}`] *)
Definition idOf (n : nat) : string :=
  String.append "player_" (GameServer.decimal n).

(** Every connection record carries the id made from a counter value that
    has been handed out. *)
Definition Issued (s : GameServer.t) : Prop :=
  Forall (fun kv => exists n, n <= GameServer.playerCounter s /\
                              Player.id (snd kv) = idOf n)
    (GameServer.players s).


(** Two connections; the first has created the room AAAAAA and the second
    has joined it. *)
Definition pairServer : GameServer.t :=
  fst (GameServer.run
         [GameServer.Connect 1; GameServer.Connect 2;
          GameServer.Receive envA 1 (CreateRoom None);
          GameServer.Receive envA 2 (JoinRoom "AAAAAA" None)]
         GameServer.new).


(** ** Bots *)

(** How many of the calls of [takeDamage] returned [true]. *)
Definition deaths (flags : list bool) : nat :=
  List.length (filter (fun died => died) flags).

(** The Euclidean distance, for [distanceTo]. *)
Definition euclid (a b : Vec3) : float :=
  let '(a0, a1, a2) := a in
  let '(b0, b1, b2) := b in
  sqrt ((a0 - b0) * (a0 - b0) + (a1 - b1) * (a1 - b1) + (a2 - b2) * (a2 - b2))%float.

(** A bot at the spot where the members of [lobby 2] stand. *)
Definition sentry : AIBot.t := AIBot.new "bot_1" (0, 0.9, 0)%float.


(** ** Respawns *)

(** The object and the alive flag of a member record. *)
Definition body (p : GamePlayer.t) : nat * bool :=
  (GamePlayer.obj p, GamePlayer.isAlive p).

(** The room holds, under [playerId], the object [o], and it is not
    alive. *)
Definition awaits (playerId : string) (o : nat) (r : GameRoom.t) : Prop :=
  option_map body (JsMap.get playerId (GameRoom.players r)) = Some (o, false).


(** ** Damage *)




(** ** Room codes *)

(** The characters a room code is drawn from. *)
Definition alphabet : list Ascii.ascii := list_ascii_of_string GameServer.chars.


(** ** Messages of a player in a game *)

(** The two message types a client sends while it plays. *)
Definition inGame (message : Inbound) : Prop :=
  match message with
  | PlayerUpdateIn _ _ _ => True
  | BulletFiredIn _ _ _ _ => True
  | _ => False
  end.

(** A [player_update] or [bullet_fired] broadcast that names [playerId] as
    its player. *)
Definition inNameOf (playerId : string) (e : Effect) : Prop :=
  match e with
  | Broadcast _ (PlayerUpdate p _ _ _) => p = playerId
  | Broadcast _ (BulletFired _ p _ _ _ _ _) => p = playerId
  | _ => False
  end.


(** ** The standing of a member who stays *)

(** The personal score the room has for a member. *)
Definition pointsOf (playerId : string) (r : GameRoom.t) : option Z :=
  option_map GamePlayer.score (JsMap.get playerId (GameRoom.players r)).

(** [b] is a score of the same member as [a], and not a lower one. *)
Definition notBelow (a b : option Z) : Prop :=
  match a, b with
  | Some x, Some y => (x <= y)%Z
  | None, None => True
  | _, _ => False
  end.

(** From [r] to [r'] the member [playerId] (if it is one) keeps its team
    and loses no points. *)
Definition Standing (playerId : string) (r r' : GameRoom.t) : Prop :=
  teamOf playerId r' = teamOf playerId r /\
  notBelow (pointsOf playerId r) (pointsOf playerId r').

(** An operation that is neither a join nor a leave of [playerId]. *)
Definition stays (playerId : string) (op : GameRoom.Op) : Prop :=
  match op with
  | GameRoom.OpAddPlayer player => Player.id player <> playerId
  | GameRoom.OpRemovePlayer k => k <> playerId
  | _ => True
  end.

(** [player_1] of [brink] shoots, the tick lands the shot and ends the
    game, [player_3] joins, and [player_1] reports its position. *)
Definition career : list GameRoom.Op :=
  [GameRoom.OpUpdate 1005;
   GameRoom.OpAddPlayer (guest 3);
   GameRoom.OpPlayerUpdate (guest 1)].


(** After the victory in [afterVictory]: [player_2] is back, reports 10
    health again, and a rifle bullet of [player_1] is on its way. *)
Definition lateShot : GameRoom.t :=
  fst (GameRoom.run
         [GameRoom.OpTimer (Respawn "player_2" 1) 0;
          GameRoom.OpPlayerUpdate wounded;
          GameRoom.OpHandleBullet 5000 5000
            (BulletData.mk "b2" "player_1" (0, 0.9, 0)%float (0, 0, 1)%float
               "rifle")]
         afterVictory).


(** ** A second [join_room] between two shots *)

(** A handler environment whose clock reads [t]. *)
Definition envAt (t : Z) : Env := mkEnv t t (fun _ => 0).

(** One connection creates the room AAAAAA, fires at 1000 ms, sends
    [join_room] for the room it is in at 1001 ms, and fires again at
    1002 ms. *)
Definition quickRejoin : list GameServer.Op :=
  [GameServer.Connect 1;
   GameServer.Receive (envAt 0) 1 (CreateRoom None);
   GameServer.Receive (envAt 1000) 1
     (BulletFiredIn "b1" (0, 0.9, 0)%float (0, 0, 1)%float "rifle");
   GameServer.Receive (envAt 1001) 1 (JoinRoom "AAAAAA" None);
   GameServer.Receive (envAt 1002) 1
     (BulletFiredIn "b2" (0, 0.9, 0)%float (0, 0, 1)%float "rifle")].

(** The same without the [join_room]. *)
Definition twoShots : list GameServer.Op :=
  [GameServer.Connect 1;
   GameServer.Receive (envAt 0) 1 (CreateRoom None);
   GameServer.Receive (envAt 1000) 1
     (BulletFiredIn "b1" (0, 0.9, 0)%float (0, 0, 1)%float "rifle");
   GameServer.Receive (envAt 1002) 1
     (BulletFiredIn "b2" (0, 0.9, 0)%float (0, 0, 1)%float "rifle")].

(** The room AAAAAA of a server: the ids of its bullets and the last-shot
    time it has for [player_1]. *)
Definition roomA (s : GameServer.t) : option (list string * option Z) :=
  option_map (fun r => (JsMap.keys (GameRoom.bullets r), lastShotOf "player_1" r))
    (JsMap.get "AAAAAA" (GameServer.rooms s)).


(** ** Points *)

(** The team the first [team_victory] broadcast of [es] names. *)
Fixpoint victor (es : list Effect) : option Team :=
  match es with
  | [] => None
  | Broadcast _ (TeamVictory w _ _) :: _ => Some w
  | _ :: rest => victor rest
  end.

(** The kills of [es] that were credited to [killerId].  A kill is
    broadcast as [player_eliminated]; when it was credited, the
    [team_scores_update] of its team point comes before that broadcast.
    [pending] says that a [team_scores_update] has been seen since the last
    [player_eliminated]. *)
Fixpoint credited (killerId : string) (pending : bool) (es : list Effect) : nat :=
  match es with
  | [] => 0
  | Broadcast _ (TeamScoresUpdate _) :: rest => credited killerId true rest
  | Broadcast _ (PlayerEliminated _ _ killer _ _) :: rest =>
      (if pending && String.eqb killer killerId then 1 else 0)
      + credited killerId false rest
  | _ :: rest => credited killerId pending rest
  end.

(** [pending] at the end of [es]. *)
Fixpoint pendingAfter (pending : bool) (es : list Effect) : bool :=
  match es with
  | [] => pending
  | Broadcast _ (TeamScoresUpdate _) :: rest => pendingAfter true rest
  | Broadcast _ (PlayerEliminated _ _ _ _ _) :: rest => pendingAfter false rest
  | _ :: rest => pendingAfter pending rest
  end.

(** The victory bonus of a member of [team] when [w] has won. *)
Definition bonusFor (team : Team) (w : option Team) : Z :=
  match w with
  | Some t => if Team_eqb team t then 500%Z else 0%Z
  | None => 0%Z
  end.

(** An effect that is none of the three broadcasts [credited] and [victor]
    look at. *)
Definition silent (e : Effect) : bool :=
  match e with
  | Broadcast _ (TeamScoresUpdate _) => false
  | Broadcast _ (PlayerEliminated _ _ _ _ _) => false
  | Broadcast _ (TeamVictory _ _ _) => false
  | _ => true
  end.

(** What a part of the life of a room, from [r] to [r'] with effects [e],
    pays the member [playerId]: 100 for every kill credited to it and 500
    when its team is the one a [team_victory] names; that team has reached
    the limit, and the flag is set by a [team_victory] and by nothing
    else. *)
Definition Paid (playerId : string) (r r' : GameRoom.t) (e : list Effect)
  : Prop :=
  pendingAfter false e = false /\
  Nat.b2n (GameRoom.gameEnded r) + victoryBroadcasts e
  = Nat.b2n (GameRoom.gameEnded r') /\
  (forall w, victor e = Some w ->
             (GameRoom.scoreLimit <= scoreOf w (GameRoom.teamScores r'))%Z) /\
  forall p, JsMap.get playerId (GameRoom.players r) = Some p ->
    exists p', JsMap.get playerId (GameRoom.players r') = Some p' /\
               GamePlayer.team p' = GamePlayer.team p /\
               GamePlayer.score p'
               = (GamePlayer.score p
                  + 100 * Z.of_nat (credited playerId false e)
                  + bonusFor (GamePlayer.team p) (victor e))%Z.

(** * Properties *)

(** ** Facts about insertion-ordered maps *)

Section JsMapFacts.
Context {K V : Type} {EK : EqKey K}.

Lemma keyb_refl (k : K) : keyb k k = true.
Proof. apply keyb_eq; reflexivity. Qed.

Lemma keyb_neq (a b : K) : a <> b -> keyb a b = false.
Proof.
  intros Hab. destruct (keyb a b) eqn:E; [|reflexivity].
  apply keyb_eq in E. contradiction.
Qed.

Lemma get_set_same (k : K) (v : V) (m : JsMap.t K V) :
  JsMap.get k (JsMap.set k v m) = Some v.
Proof.
  induction m as [|[k' v'] m IH]; simpl.
  - now rewrite keyb_refl.
  - destruct (keyb k k') eqn:E; simpl; rewrite E; [reflexivity | exact IH].
Qed.

Lemma get_set_other (k k0 : K) (v : V) (m : JsMap.t K V) :
  k0 <> k -> JsMap.get k0 (JsMap.set k v m) = JsMap.get k0 m.
Proof.
  intros Hne. induction m as [|[k' v'] m IH]; simpl.
  - now rewrite (keyb_neq _ _ Hne).
  - destruct (keyb k k') eqn:E; simpl.
    + apply keyb_eq in E; subst k'. now rewrite (keyb_neq _ _ Hne).
    + destruct (keyb k0 k'); [reflexivity | exact IH].
Qed.

Lemma keys_set_present (k : K) (v : V) (m : JsMap.t K V) :
  JsMap.has k m = true -> JsMap.keys (JsMap.set k v m) = JsMap.keys m.
Proof.
  unfold JsMap.has, JsMap.keys.
  induction m as [|[k' v'] m IH]; simpl; [discriminate|].
  destruct (keyb k k') eqn:E; simpl; [reflexivity|].
  intros H. now rewrite IH.
Qed.

Lemma has_get (k : K) (m : JsMap.t K V) (v : V) :
  JsMap.get k m = Some v -> JsMap.has k m = true.
Proof. unfold JsMap.has. now intros ->. Qed.

Lemma get_In (k : K) (v : V) (m : JsMap.t K V) :
  JsMap.get k m = Some v -> In (k, v) m.
Proof.
  induction m as [|[k' v'] m IH]; simpl; [discriminate|].
  destruct (keyb k k') eqn:E.
  - intros [= ->]. apply keyb_eq in E; subst. now left.
  - intros H. right. auto.
Qed.

Lemma get_None_notin (k : K) (m : JsMap.t K V) :
  JsMap.get k m = None -> ~ In k (JsMap.keys m).
Proof.
  unfold JsMap.keys.
  induction m as [|[k' v'] m IH]; simpl; [tauto|].
  destruct (keyb k k') eqn:E; [discriminate|].
  intros H [Heq | Hin]; [|now apply IH].
  subst k'. now rewrite keyb_refl in E.
Qed.

Lemma In_get_NoDup (k : K) (v : V) (m : JsMap.t K V) :
  NoDup (JsMap.keys m) -> In (k, v) m -> JsMap.get k m = Some v.
Proof.
  unfold JsMap.keys.
  induction m as [|[k' v'] m IH]; simpl; [tauto|].
  intros Hnd [Heq | Hin].
  - injection Heq as -> ->. now rewrite keyb_refl.
  - inversion Hnd as [|? ? Hnotin Hnd']; subst.
    destruct (keyb k k') eqn:E; [|auto].
    apply keyb_eq in E; subst k'. exfalso. apply Hnotin.
    change k with (fst (k, v)). now apply in_map.
Qed.

Lemma In_set_inv (k k0 : K) (v v0 : V) (m : JsMap.t K V) :
  In (k0, v0) (JsMap.set k v m) -> (k0 = k /\ v0 = v) \/ In (k0, v0) m.
Proof.
  induction m as [|[k' v'] m IH]; simpl.
  - intros [[= <- <-] | []]. now left.
  - destruct (keyb k k') eqn:E; simpl.
    + apply keyb_eq in E; subst k'.
      intros [[= <- <-] | Hin]; [now left | right; now right].
    + intros [Heq | Hin]; [right; now left|].
      destruct (IH Hin) as [H | H]; [now left | right; now right].
Qed.

Lemma keys_set_incl (k k0 : K) (v : V) (m : JsMap.t K V) :
  In k0 (JsMap.keys (JsMap.set k v m)) -> k0 = k \/ In k0 (JsMap.keys m).
Proof.
  unfold JsMap.keys. intros Hin. apply in_map_iff in Hin.
  destruct Hin as [[k1 v1] [Hk Hin]]; simpl in Hk; subst k1.
  destruct (In_set_inv _ _ _ _ _ Hin) as [[-> _] | H]; [now left|].
  right. change k0 with (fst (k0, v1)). now apply in_map.
Qed.

Lemma NoDup_keys_set (k : K) (v : V) (m : JsMap.t K V) :
  NoDup (JsMap.keys m) -> NoDup (JsMap.keys (JsMap.set k v m)).
Proof.
  unfold JsMap.keys.
  induction m as [|[k' v'] m IH]; simpl; intros Hnd.
  - constructor; [tauto | constructor].
  - inversion Hnd as [|? ? Hnotin Hnd']; subst.
    destruct (keyb k k') eqn:E; simpl; [now constructor|].
    constructor; [|auto].
    intros Hin. destruct (keys_set_incl _ _ _ _ Hin) as [-> | H].
    + now rewrite keyb_refl in E.
    + contradiction.
Qed.

Lemma keys_delete_incl (k k0 : K) (m : JsMap.t K V) :
  In k0 (JsMap.keys (JsMap.delete k m)) -> In k0 (JsMap.keys m) /\ k0 <> k.
Proof.
  unfold JsMap.keys.
  induction m as [|[k' v'] m IH]; simpl; [tauto|].
  destruct (keyb k k') eqn:E; simpl.
  - intros H. destruct (IH H). split; [now right | assumption].
  - intros [<- | H].
    + split; [now left|]. intros ->. now rewrite keyb_refl in E.
    + destruct (IH H). split; [now right | assumption].
Qed.

Lemma NoDup_keys_delete (k : K) (m : JsMap.t K V) :
  NoDup (JsMap.keys m) -> NoDup (JsMap.keys (JsMap.delete k m)).
Proof.
  unfold JsMap.keys.
  induction m as [|[k' v'] m IH]; simpl; intros Hnd; [constructor|].
  inversion Hnd as [|? ? Hnotin Hnd']; subst.
  destruct (keyb k k'); simpl; [auto|].
  constructor; [|auto].
  intros Hin. apply keys_delete_incl in Hin. tauto.
Qed.

Lemma get_delete_same (k : K) (m : JsMap.t K V) :
  JsMap.get k (JsMap.delete k m) = None.
Proof.
  induction m as [|[k' v'] m IH]; simpl; [reflexivity|].
  destruct (keyb k k') eqn:E; simpl; [exact IH|]. now rewrite E.
Qed.

Lemma get_delete_other (k k0 : K) (m : JsMap.t K V) :
  k0 <> k -> JsMap.get k0 (JsMap.delete k m) = JsMap.get k0 m.
Proof.
  intros Hne. induction m as [|[k' v'] m IH]; simpl; [reflexivity|].
  destruct (keyb k k') eqn:E; simpl.
  - apply keyb_eq in E; subst k'. now rewrite (keyb_neq _ _ Hne).
  - now rewrite IH.
Qed.

End JsMapFacts.

(** ** Team scores and the game-ended flag *)

Lemma scores_le_refl (s : TeamScores) : scores_le s s.
Proof. unfold scores_le; lia. Qed.

Lemma ScoreStep_same (r r' : GameRoom.t) :
  GameRoom.teamScores r' = GameRoom.teamScores r ->
  GameRoom.gameEnded r' = GameRoom.gameEnded r ->
  ScoreStep r r'.
Proof.
  intros Hs He. split.
  - rewrite Hs. apply scores_le_refl.
  - intros H. rewrite He, Hs. now split.
Qed.

Lemma ScoreStep_refl (r : GameRoom.t) : ScoreStep r r.
Proof. now apply ScoreStep_same. Qed.

Lemma ScoreStep_trans (a b c : GameRoom.t) :
  ScoreStep a b -> ScoreStep b c -> ScoreStep a c.
Proof.
  intros [[Hr1 Hb1] H1] [[Hr2 Hb2] H2]. split.
  - unfold scores_le; lia.
  - intros Ha. destruct (H1 Ha) as [Hb Hs1]. destruct (H2 Hb) as [Hc Hs2].
    split; [assumption | congruence].
Qed.

Lemma checkForVictory_scores (r : GameRoom.t) :
  GameRoom.teamScores (fst (GameRoom.checkForVictory r)) = GameRoom.teamScores r.
Proof.
  unfold GameRoom.checkForVictory.
  destruct (GameRoom.gameEnded r); [reflexivity|].
  destruct (GameRoom.winnerOf (GameRoom.teamScores r)); reflexivity.
Qed.

Lemma checkForVictory_after_end (r : GameRoom.t) :
  GameRoom.gameEnded r = true -> GameRoom.checkForVictory r = (r, []).
Proof. unfold GameRoom.checkForVictory. now intros ->. Qed.

Lemma checkForVictory_flag (r : GameRoom.t) :
  GameRoom.gameEnded (fst (GameRoom.checkForVictory r))
  = GameRoom.gameEnded r
    || match GameRoom.winnerOf (GameRoom.teamScores r) with
       | Some _ => true
       | None => false
       end.
Proof.
  unfold GameRoom.checkForVictory.
  destruct (GameRoom.gameEnded r) eqn:E; [exact E|].
  destruct (GameRoom.winnerOf (GameRoom.teamScores r)); simpl; [reflexivity|].
  exact E.
Qed.

Lemma bump_grows (team : Team) (s : TeamScores) :
  scores_le s (GameRoom.bump team s).
Proof. destruct team; unfold scores_le; simpl; lia. Qed.

Lemma award_ScoreStep (bullet : Bullet.t) (player : GamePlayer.t) (r : GameRoom.t) :
  ScoreStep r (fst (GameRoom.award bullet player r)).
Proof.
  unfold GameRoom.award.
  destruct (JsMap.get _ _) as [shooter|]; [|apply ScoreStep_refl].
  destruct (negb _); [|apply ScoreStep_refl].
  destruct (GameRoom.gameEnded r) eqn:E; [apply ScoreStep_refl|].
  match goal with
  | |- context [GameRoom.checkForVictory ?x] =>
      pose proof (checkForVictory_scores x) as Hs;
      destruct (GameRoom.checkForVictory x) as [rc ev]
  end.
  simpl in *. split.
  - rewrite Hs. apply bump_grows.
  - rewrite E. discriminate.
Qed.

Lemma eliminate_ScoreStep (bullet : Bullet.t) (playerId : string)
  (player : GamePlayer.t) (r : GameRoom.t) :
  ScoreStep r (fst (GameRoom.eliminate bullet playerId player r)).
Proof.
  unfold GameRoom.eliminate.
  pose proof (award_ScoreStep bullet player r) as H.
  destruct (GameRoom.award bullet player r) as [r1 e1]. exact H.
Qed.

Lemma hit_ScoreStep (bullet : Bullet.t) (playerId : string)
  (player : GamePlayer.t) (r : GameRoom.t) :
  ScoreStep r (fst (GameRoom.hit bullet playerId player r)).
Proof.
  unfold GameRoom.hit.
  destruct (PrimFloat.leb _ _); [|now apply ScoreStep_same].
  match goal with
  | |- context [GameRoom.eliminate ?b ?k ?p ?x] =>
      pose proof (eliminate_ScoreStep b k p x) as H;
      destruct (GameRoom.eliminate b k p x) as [r3 e2]
  end.
  eapply ScoreStep_trans; [|exact H]. now apply ScoreStep_same.
Qed.

Lemma stepBullet_ScoreStep (now : Z) (bullet : Bullet.t) (r : GameRoom.t) :
  ScoreStep r (snd (fst (fst (GameRoom.stepBullet now bullet r)))).
Proof.
  unfold GameRoom.stepBullet.
  destruct (_ <? _)%Z; [apply ScoreStep_refl|].
  destruct (find _ _) as [[playerId player]|]; [|apply ScoreStep_refl].
  match goal with
  | |- context [GameRoom.hit ?b ?k ?p ?x] =>
      pose proof (hit_ScoreStep b k p x) as H;
      destruct (GameRoom.hit b k p x) as [r1 e]
  end.
  exact H.
Qed.

Lemma scanBullets_ScoreStep (now : Z) (bs : JsMap.t string Bullet.t) :
  forall r, ScoreStep r (snd (fst (fst (GameRoom.scanBullets now bs r)))).
Proof.
  induction bs as [|[bulletId bullet] rest IH]; intros r; simpl.
  - apply ScoreStep_refl.
  - pose proof (stepBullet_ScoreStep now bullet r) as H1.
    destruct (GameRoom.stepBullet now bullet r) as [[[bullet1 r1] fate] e1].
    pose proof (IH r1) as H2.
    destruct (GameRoom.scanBullets now rest r1) as [[[rest1 r2] rm] e2].
    simpl in *. eapply ScoreStep_trans; eassumption.
Qed.

Lemma updateBullets_ScoreStep (now : Z) (r : GameRoom.t) :
  ScoreStep r (fst (GameRoom.updateBullets now r)).
Proof.
  unfold GameRoom.updateBullets.
  pose proof (scanBullets_ScoreStep now (GameRoom.bullets r) r) as H.
  destruct (GameRoom.scanBullets now (GameRoom.bullets r) r) as [[[bs r1] rm] e].
  simpl in *. eapply ScoreStep_trans; [exact H|]. now apply ScoreStep_same.
Qed.

Lemma step_ScoreStep (op : GameRoom.Op) (r : GameRoom.t) :
  ScoreStep r (fst (GameRoom.step op r)).
Proof.
  destruct op as [player|playerId|player|now now' bd|now|[playerId player] roll];
    simpl.
  - now apply ScoreStep_same.
  - unfold GameRoom.removePlayer.
    destruct (JsMap.get _ _); now apply ScoreStep_same.
  - unfold GameRoom.broadcastPlayerUpdate.
    destruct (JsMap.get _ _); now apply ScoreStep_same.
  - unfold GameRoom.handleBullet, GameRoom.rateLimit.
    destruct (JsMap.get _ _) as [p|].
    + destruct (_ <? _)%Z; [apply ScoreStep_refl|].
      destruct (PrimFloat.leb _ _); now apply ScoreStep_same.
    + destruct (PrimFloat.leb _ _); now apply ScoreStep_same.
  - apply updateBullets_ScoreStep.
  - unfold GameRoom.respawn.
    destruct (JsMap.has _ _); [|apply ScoreStep_refl].
    destruct (JsMap.get _ _) as [p|]; [|apply ScoreStep_refl].
    destruct (Nat.eqb _ _); now apply ScoreStep_same.
Qed.

Lemma run_ScoreStep (ops : list GameRoom.Op) :
  forall r, ScoreStep r (fst (GameRoom.run ops r)).
Proof.
  induction ops as [|op rest IH]; intros r; simpl.
  - apply ScoreStep_refl.
  - pose proof (step_ScoreStep op r) as H1.
    destruct (GameRoom.step op r) as [r1 e1].
    pose proof (IH r1) as H2.
    destruct (GameRoom.run rest r1) as [r2 e2].
    simpl in *. eapply ScoreStep_trans; eassumption.
Qed.

(** C2: in a room, under every operation and every sequence of operations
    (message handlers, ticks, respawn timers), neither team counter ever
    decreases, and once the game-ended flag is set it stays set and both
    counters keep their values. *)
Theorem team_scores_monotone_then_frozen :
  forall (r : GameRoom.t) (ops : list GameRoom.Op),
    let r' := fst (GameRoom.run ops r) in
    ((red (GameRoom.teamScores r) <= red (GameRoom.teamScores r'))%Z /\
     (blue (GameRoom.teamScores r) <= blue (GameRoom.teamScores r'))%Z) /\
    (GameRoom.gameEnded r = true ->
     GameRoom.gameEnded r' = true /\
     GameRoom.teamScores r' = GameRoom.teamScores r).
Proof.
  intros r ops r'. exact (run_ScoreStep ops r).
Qed.

(** ** Victory *)

Lemma victoryBroadcasts_app (e1 e2 : list Effect) :
  victoryBroadcasts (e1 ++ e2) = victoryBroadcasts e1 + victoryBroadcasts e2.
Proof. unfold victoryBroadcasts. now rewrite filter_app, length_app. Qed.

Lemma scores_eq (a b : TeamScores) : red a = red b -> blue a = blue b -> a = b.
Proof. destruct a, b; simpl; congruence. Qed.

Lemma bump_changes (team : Team) (s : TeamScores) : GameRoom.bump team s <> s.
Proof.
  destruct team, s as [x y]; unfold GameRoom.bump; simpl; intros [= H]; lia.
Qed.

Lemma VictoryStep_quiet (r r' : GameRoom.t) (e : list Effect) :
  GameRoom.gameEnded r' = GameRoom.gameEnded r ->
  victoryBroadcasts e = 0 ->
  VictoryStep r r' e.
Proof. intros He Hv. split; [rewrite He, Hv; lia | auto]. Qed.

Lemma VictoryStep_trans (a b c : GameRoom.t) (e1 e2 : list Effect) :
  ScoreStep a b -> ScoreStep b c ->
  VictoryStep a b e1 -> VictoryStep b c e2 ->
  VictoryStep a c (e1 ++ e2).
Proof.
  intros [[Hr1 Hb1] _] [[Hr2 Hb2] _] [Hn1 Hq1] [Hn2 Hq2]. split.
  - rewrite victoryBroadcasts_app. lia.
  - intros Hca.
    assert (Hba : GameRoom.teamScores b = GameRoom.teamScores a).
    { apply scores_eq; rewrite Hca in *; lia. }
    rewrite Hq2 by congruence. auto.
Qed.

Lemma winnerOf_reached (s : TeamScores) :
  match GameRoom.winnerOf s with Some _ => true | None => false end
  = ((GameRoom.scoreLimit <=? red s)%Z || (GameRoom.scoreLimit <=? blue s)%Z).
Proof.
  unfold GameRoom.winnerOf.
  destruct (_ <=? red s)%Z; [reflexivity|].
  destruct (_ <=? blue s)%Z; reflexivity.
Qed.

Lemma checkForVictory_flip (r : GameRoom.t) :
  Nat.b2n (GameRoom.gameEnded r)
  + victoryBroadcasts (snd (GameRoom.checkForVictory r))
  = Nat.b2n (GameRoom.gameEnded (fst (GameRoom.checkForVictory r))).
Proof.
  unfold GameRoom.checkForVictory.
  destruct (GameRoom.gameEnded r) eqn:E; simpl; [now rewrite E|].
  destruct (GameRoom.winnerOf _); simpl; [reflexivity | now rewrite E].
Qed.

Lemma checkForVictory_Decided (r : GameRoom.t) :
  GameRoom.gameEnded r = false -> Decided (fst (GameRoom.checkForVictory r)).
Proof.
  intros E. unfold Decided.
  rewrite checkForVictory_flag, checkForVictory_scores, E. simpl.
  apply winnerOf_reached.
Qed.

Lemma award_VictoryStep (bullet : Bullet.t) (player : GamePlayer.t) (r : GameRoom.t) :
  VictoryStep r (fst (GameRoom.award bullet player r))
    (snd (GameRoom.award bullet player r)) /\
  (Decided r -> Decided (fst (GameRoom.award bullet player r))).
Proof.
  unfold GameRoom.award.
  destruct (JsMap.get _ _) as [shooter|];
    [|split; [now apply VictoryStep_quiet | auto]].
  destruct (negb _); [|split; [now apply VictoryStep_quiet | auto]].
  destruct (GameRoom.gameEnded r) eqn:E;
    [split; [now apply VictoryStep_quiet | auto]|].
  match goal with
  | |- context [GameRoom.checkForVictory ?x] =>
      pose proof (checkForVictory_scores x) as Hs;
      pose proof (checkForVictory_flip x) as Hf;
      pose proof (checkForVictory_Decided x E) as Hd;
      destruct (GameRoom.checkForVictory x) as [rc ev]
  end.
  simpl in *. split; [split|auto].
  - rewrite E. unfold victoryBroadcasts, GameRoom.broadcast. simpl.
    rewrite E in Hf. exact Hf.
  - rewrite Hs. intros H. now apply bump_changes in H.
Qed.

Lemma Orderly_quiet (r r' : GameRoom.t) (e : list Effect) :
  GameRoom.teamScores r' = GameRoom.teamScores r ->
  GameRoom.gameEnded r' = GameRoom.gameEnded r ->
  victoryBroadcasts e = 0 ->
  Orderly r (r', e).
Proof.
  intros Hs He Hv. split; simpl.
  - now apply VictoryStep_quiet.
  - unfold Decided. now rewrite Hs, He.
Qed.

Lemma Orderly_trans (a b c : GameRoom.t) (e1 e2 : list Effect) :
  ScoreStep a b -> ScoreStep b c ->
  Orderly a (b, e1) -> Orderly b (c, e2) -> Orderly a (c, e1 ++ e2).
Proof.
  intros Hab Hbc [V1 D1] [V2 D2]. split; simpl in *.
  - eapply VictoryStep_trans; eassumption.
  - auto.
Qed.

Lemma eliminate_Orderly (bullet : Bullet.t) (playerId : string)
  (player : GamePlayer.t) (r : GameRoom.t) :
  Orderly r (GameRoom.eliminate bullet playerId player r).
Proof.
  unfold GameRoom.eliminate.
  pose proof (award_VictoryStep bullet player r) as [[Hn Hq] Hd].
  destruct (GameRoom.award bullet player r) as [r1 e1]. simpl in *.
  split; [split|]; simpl; auto.
  rewrite victoryBroadcasts_app. unfold victoryBroadcasts at 2. simpl. lia.
Qed.

Lemma hit_Orderly (bullet : Bullet.t) (playerId : string)
  (player : GamePlayer.t) (r : GameRoom.t) :
  Orderly r (GameRoom.hit bullet playerId player r).
Proof.
  unfold GameRoom.hit.
  destruct (PrimFloat.leb _ _); [|now apply Orderly_quiet].
  match goal with
  | |- context [GameRoom.eliminate ?b ?k ?p ?x] =>
      pose proof (eliminate_Orderly b k p x) as H;
      pose proof (eliminate_ScoreStep b k p x) as Hs;
      destruct (GameRoom.eliminate b k p x) as [r3 e2]
  end.
  match goal with
  | |- Orderly _ (_, ?e :: _) => change (e :: e2) with ([e] ++ e2)
  end.
  eapply Orderly_trans; [| exact Hs | | exact H].
  - now apply ScoreStep_same.
  - now apply Orderly_quiet.
Qed.

Lemma stepBullet_Orderly (now : Z) (bullet : Bullet.t) (r : GameRoom.t) :
  Orderly r (snd (fst (fst (GameRoom.stepBullet now bullet r))),
             snd (GameRoom.stepBullet now bullet r)).
Proof.
  unfold GameRoom.stepBullet.
  destruct (_ <? _)%Z; [now apply Orderly_quiet|].
  destruct (find _ _) as [[playerId player]|]; [|now apply Orderly_quiet].
  match goal with
  | |- context [GameRoom.hit ?b ?k ?p ?x] =>
      pose proof (hit_Orderly b k p x) as H;
      destruct (GameRoom.hit b k p x) as [r1 e]
  end.
  exact H.
Qed.

Lemma scanBullets_Orderly (now : Z) (bs : JsMap.t string Bullet.t) :
  forall r,
    Orderly r (snd (fst (fst (GameRoom.scanBullets now bs r))),
               snd (GameRoom.scanBullets now bs r)).
Proof.
  induction bs as [|[bulletId bullet] rest IH]; intros r; simpl.
  - now apply Orderly_quiet.
  - pose proof (stepBullet_Orderly now bullet r) as H1.
    pose proof (stepBullet_ScoreStep now bullet r) as S1.
    destruct (GameRoom.stepBullet now bullet r) as [[[bullet1 r1] fate] e1].
    pose proof (IH r1) as H2.
    pose proof (scanBullets_ScoreStep now rest r1) as S2.
    destruct (GameRoom.scanBullets now rest r1) as [[[rest1 r2] rm] e2].
    simpl in *. eapply Orderly_trans; eassumption.
Qed.

Lemma updateBullets_Orderly (now : Z) (r : GameRoom.t) :
  Orderly r (GameRoom.updateBullets now r).
Proof.
  unfold GameRoom.updateBullets.
  pose proof (scanBullets_Orderly now (GameRoom.bullets r) r) as H.
  destruct (GameRoom.scanBullets now (GameRoom.bullets r) r) as [[[bs r1] rm] e].
  simpl in *. destruct H as [[Hn Hq] Hd]. split; [split|]; simpl in *; auto.
Qed.

Lemma sends_quiet {A : Type} (ws : nat) (f : A -> Msg) (l : list A) :
  victoryBroadcasts (map (fun x => Send ws (f x)) l) = 0.
Proof. induction l as [|x l IH]; [reflexivity | exact IH]. Qed.

Lemma victoryBroadcasts_cons (e : Effect) (es : list Effect) :
  victoryBroadcasts (e :: es)
  = Nat.b2n (isVictoryBroadcast e) + victoryBroadcasts es.
Proof. unfold victoryBroadcasts. simpl. now destruct (isVictoryBroadcast e). Qed.

Lemma addPlayer_quiet (player : Player.t) (r : GameRoom.t) :
  victoryBroadcasts (snd (GameRoom.addPlayer player r)) = 0.
Proof.
  unfold GameRoom.addPlayer. simpl snd.
  rewrite !victoryBroadcasts_cons, victoryBroadcasts_app,
    victoryBroadcasts_cons, sends_quiet.
  match goal with
  | |- context [if ?c then _ else _] => destruct c
  end; reflexivity.
Qed.

Lemma step_Orderly (op : GameRoom.Op) (r : GameRoom.t) :
  Orderly r (GameRoom.step op r).
Proof.
  destruct op as [player|playerId|player|now now' bd|now|[playerId player] roll];
    simpl.
  - pose proof (addPlayer_quiet player r) as Hq.
    destruct (GameRoom.addPlayer player r) as [r1 e] eqn:E.
    apply Orderly_quiet; [| | exact Hq];
      unfold GameRoom.addPlayer in E; injection E as <- _; reflexivity.
  - unfold GameRoom.removePlayer.
    destruct (JsMap.get _ _); now apply Orderly_quiet.
  - unfold GameRoom.broadcastPlayerUpdate.
    destruct (JsMap.get _ _); now apply Orderly_quiet.
  - unfold GameRoom.handleBullet, GameRoom.rateLimit.
    destruct (JsMap.get _ _) as [p|].
    + destruct (_ <? _)%Z; [now apply Orderly_quiet|].
      destruct (PrimFloat.leb _ _); now apply Orderly_quiet.
    + destruct (PrimFloat.leb _ _); now apply Orderly_quiet.
  - apply updateBullets_Orderly.
  - unfold GameRoom.respawn.
    destruct (JsMap.has _ _); [|now apply Orderly_quiet].
    destruct (JsMap.get _ _) as [p|]; [|now apply Orderly_quiet].
    destruct (Nat.eqb _ _); now apply Orderly_quiet.
Qed.

Lemma run_Orderly (ops : list GameRoom.Op) :
  forall r, Orderly r (GameRoom.run ops r).
Proof.
  induction ops as [|op rest IH]; intros r; simpl.
  - now apply Orderly_quiet.
  - pose proof (step_Orderly op r) as H1.
    pose proof (step_ScoreStep op r) as S1.
    destruct (GameRoom.step op r) as [r1 e1].
    pose proof (IH r1) as H2.
    pose proof (run_ScoreStep rest r1) as S2.
    destruct (GameRoom.run rest r1) as [r2 e2].
    simpl in *. eapply Orderly_trans; eassumption.
Qed.

Lemma get_map_bonus (w : Team) (k : string) (m : JsMap.t string GamePlayer.t) :
  JsMap.get k (map (GameRoom.victoryBonus w) m)
  = option_map (withBonus w) (JsMap.get k m).
Proof.
  induction m as [|[k' p] m IH]; simpl; [reflexivity|].
  destruct (String.eqb k k'); [reflexivity | exact IH].
Qed.

Lemma checkForVictory_bonus (r : GameRoom.t) (w : Team) :
  GameRoom.gameEnded r = false ->
  GameRoom.winnerOf (GameRoom.teamScores r) = Some w ->
  GameRoom.gameEnded (fst (GameRoom.checkForVictory r)) = true /\
  snd (GameRoom.checkForVictory r)
  = [Broadcast (GameRoom.recipients None r)
       (TeamVictory w (GameRoom.teamScores r) (GameRoom.victoryMessage w))] /\
  forall k,
    JsMap.get k (GameRoom.players (fst (GameRoom.checkForVictory r)))
    = option_map (withBonus w) (JsMap.get k (GameRoom.players r)).
Proof.
  intros E W. unfold GameRoom.checkForVictory. rewrite E, W. simpl.
  repeat split. intros k. apply get_map_bonus.
Qed.

Lemma step_reaches_limit (r : GameRoom.t) (op : GameRoom.Op) :
  Decided r ->
  ((GameRoom.scoreLimit <=? red (GameRoom.teamScores (fst (GameRoom.step op r))))%Z
   || (GameRoom.scoreLimit <=? blue (GameRoom.teamScores (fst (GameRoom.step op r))))%Z)
  = true ->
  GameRoom.gameEnded (fst (GameRoom.step op r)) = true /\
  Nat.b2n (GameRoom.gameEnded r) + victoryBroadcasts (snd (GameRoom.step op r)) = 1.
Proof.
  intros D L. destruct (step_Orderly op r) as [[Hn _] Hd].
  specialize (Hd D). unfold Decided in Hd. rewrite L in Hd.
  rewrite Hd in Hn. split; [exact Hd | exact Hn].
Qed.

Lemma run_after_end (r : GameRoom.t) (ops : list GameRoom.Op) :
  GameRoom.gameEnded r = true ->
  GameRoom.gameEnded (fst (GameRoom.run ops r)) = true /\
  victoryBroadcasts (snd (GameRoom.run ops r)) = 0.
Proof.
  intros E. destruct (run_ScoreStep ops r) as [_ Hs].
  destruct (Hs E) as [E' _]. split; [exact E'|].
  destruct (run_Orderly ops r) as [[Hn _] _].
  rewrite E, E' in Hn. simpl in Hn. lia.
Qed.

Lemma step_without_score_change (r : GameRoom.t) (op : GameRoom.Op) :
  GameRoom.teamScores (fst (GameRoom.step op r)) = GameRoom.teamScores r ->
  GameRoom.gameEnded (fst (GameRoom.step op r)) = GameRoom.gameEnded r /\
  victoryBroadcasts (snd (GameRoom.step op r)) = 0.
Proof.
  intros Hs. destruct (step_Orderly op r) as [[Hn Hq] _].
  specialize (Hq Hs). split; [exact Hq|]. rewrite Hq in Hn. lia.
Qed.

Lemma Team_eqb_neq (a b : Team) : a <> b -> Team_eqb a b = false.
Proof. destruct a, b; simpl; congruence. Qed.

(** The kill that takes the shooter's team to the limit: the flag is set,
    [team_victory] is broadcast once, and every member of that team has 500
    more than it had when the shooter got its 100. *)
Lemma award_reaches_limit (bullet : Bullet.t) (victim shooter : GamePlayer.t)
  (r : GameRoom.t) :
  Decided r ->
  GameRoom.gameEnded r = false ->
  JsMap.get (Bullet.playerId bullet) (GameRoom.players r) = Some shooter ->
  GamePlayer.team shooter <> GamePlayer.team victim ->
  (GameRoom.scoreLimit
   <= scoreOf (GamePlayer.team shooter) (GameRoom.teamScores r) + 1)%Z ->
  GameRoom.gameEnded (fst (GameRoom.award bullet victim r)) = true /\
  victoryBroadcasts (snd (GameRoom.award bullet victim r)) = 1 /\
  forall k,
    JsMap.get k (GameRoom.players (fst (GameRoom.award bullet victim r)))
    = option_map (withBonus (GamePlayer.team shooter))
        (JsMap.get k
           (JsMap.set (Bullet.playerId bullet)
              (GamePlayer.set_score (GamePlayer.score shooter + 100)%Z shooter)
              (GameRoom.players r))).
Proof.
  intros D E G T L. unfold Decided in D. rewrite E in D.
  symmetry in D. apply orb_false_iff in D. destruct D as [Dr Db].
  unfold GameRoom.award. rewrite G, (Team_eqb_neq _ _ T), E. simpl.
  assert (W : GameRoom.winnerOf
                (GameRoom.bump (GamePlayer.team shooter) (GameRoom.teamScores r))
              = Some (GamePlayer.team shooter)).
  { unfold GameRoom.winnerOf, GameRoom.bump.
    destruct (GamePlayer.team shooter); simpl in *.
    - apply Z.leb_le in L. now rewrite L.
    - rewrite Dr. apply Z.leb_le in L. now rewrite L. }
  unfold GameRoom.checkForVictory. simpl. rewrite E, W. simpl.
  repeat split. intros k. apply get_map_bonus.
Qed.

Lemma team_scores_monotone_then_frozen_witness :
  GameRoom.gameEnded afterVictory = true /\
  GameRoom.gameEnded (fst (GameRoom.run rematch afterVictory)) = true /\
  GameRoom.teamScores (fst (GameRoom.run rematch afterVictory))
  = GameRoom.teamScores afterVictory.
Proof.
  split; [reflexivity|].
  apply (proj2 (team_scores_monotone_then_frozen afterVictory rematch)).
  reflexivity.
Defined.

(** ** Shot submissions *)

Lemma length_set {V : Type} (k : string) (v : V) (m : JsMap.t string V) :
  List.length (JsMap.set k v m) <= List.length m + 1.
Proof.
  induction m as [|[k' v'] m IH]; simpl; [lia|].
  destruct (String.eqb k k'); simpl; lia.
Qed.

Lemma rateLimit_limited (now : Z) (playerId : string) (player : GamePlayer.t)
  (r : GameRoom.t) :
  JsMap.get playerId (GameRoom.players r) = Some player ->
  (now - GamePlayer.lastShotTime player < 100)%Z ->
  GameRoom.rateLimit now playerId r = None.
Proof.
  intros G L. unfold GameRoom.rateLimit, GameRoom.minTimeBetweenShots.
  rewrite G. apply Z.ltb_lt in L. now rewrite L.
Qed.

Lemma rateLimit_passed (now : Z) (playerId : string) (player : GamePlayer.t)
  (r : GameRoom.t) :
  JsMap.get playerId (GameRoom.players r) = Some player ->
  (100 <= now - GamePlayer.lastShotTime player)%Z ->
  GameRoom.rateLimit now playerId r
  = Some (GameRoom.set_players
            (JsMap.set playerId (GamePlayer.set_lastShotTime now player)
               (GameRoom.players r)) r).
Proof.
  intros G L. unfold GameRoom.rateLimit, GameRoom.minTimeBetweenShots.
  rewrite G. apply Z.ltb_ge in L. now rewrite L.
Qed.

Lemma handleBullet_limited (now now' : Z) (bd : BulletData.t)
  (player : GamePlayer.t) (r : GameRoom.t) :
  JsMap.get (BulletData.playerId bd) (GameRoom.players r) = Some player ->
  (now - GamePlayer.lastShotTime player < 100)%Z ->
  GameRoom.handleBullet now now' bd r = (r, []).
Proof.
  intros G L. unfold GameRoom.handleBullet.
  now rewrite (rateLimit_limited _ _ _ _ G L).
Qed.

(** A submission whose direction is no longer than 1e-6 leaves the bullet
    map alone and causes no effect, whoever sends it. *)
Lemma handleBullet_short_direction (now now' : Z) (bd : BulletData.t)
  (r : GameRoom.t) :
  PrimFloat.leb (GameRoom.dirLength (BulletData.direction bd)) 1e-6%float = true ->
  GameRoom.bullets (fst (GameRoom.handleBullet now now' bd r)) = GameRoom.bullets r /\
  snd (GameRoom.handleBullet now now' bd r) = [].
Proof.
  intros Z0. unfold GameRoom.handleBullet, GameRoom.rateLimit.
  destruct (JsMap.get _ _) as [p|].
  - destruct (_ <? _)%Z; [now split|]. rewrite Z0. now split.
  - rewrite Z0. now split.
Qed.

(** After a submission that passed the rate check the submitter is still a
    member and its last-shot time is the clock reading of that check. *)
Lemma handleBullet_stamps (now now' : Z) (bd : BulletData.t)
  (player : GamePlayer.t) (r : GameRoom.t) :
  JsMap.get (BulletData.playerId bd) (GameRoom.players r) = Some player ->
  (100 <= now - GamePlayer.lastShotTime player)%Z ->
  JsMap.get (BulletData.playerId bd)
    (GameRoom.players (fst (GameRoom.handleBullet now now' bd r)))
  = Some (GamePlayer.set_lastShotTime now player).
Proof.
  intros G L. unfold GameRoom.handleBullet.
  rewrite (rateLimit_passed _ _ _ _ G L).
  destruct (PrimFloat.leb _ _); simpl; apply get_set_same.
Qed.

Lemma handleBullet_at_most_one (now now' : Z) (bd : BulletData.t) (r : GameRoom.t) :
  firedBroadcasts (snd (GameRoom.handleBullet now now' bd r)) <= 1 /\
  List.length (GameRoom.bullets (fst (GameRoom.handleBullet now now' bd r)))
  <= List.length (GameRoom.bullets r) + 1.
Proof.
  unfold GameRoom.handleBullet, GameRoom.rateLimit.
  destruct (JsMap.get _ _) as [p|].
  - destruct (_ <? _)%Z; [simpl; unfold firedBroadcasts; simpl; lia|].
    destruct (PrimFloat.leb _ _); simpl; unfold firedBroadcasts; simpl;
      split; try lia; apply length_set.
  - destruct (PrimFloat.leb _ _); simpl; unfold firedBroadcasts; simpl;
      split; try lia; apply length_set.
Qed.

Lemma shots_all_dropped (playerId : string) (subs : list Shot) :
  forall (r : GameRoom.t) (player : GamePlayer.t),
    JsMap.get playerId (GameRoom.players r) = Some player ->
    Forall (fun s => BulletData.playerId (snd s) = playerId /\
                     (fst (fst s) - GamePlayer.lastShotTime player < 100)%Z) subs ->
    GameRoom.run (map shotOp subs) r = (r, []).
Proof.
  induction subs as [|[[now now'] bd] rest IH]; intros r player G F; simpl.
  - reflexivity.
  - inversion F as [|? ? [Hp Hl] F']; subst. simpl in *.
    rewrite (handleBullet_limited now now' bd player r) by (rewrite ?Hp; assumption).
    rewrite (IH r player G F'). reflexivity.
Qed.

Lemma shots_in_window (playerId : string) (w : Z) (subs : list Shot) :
  forall (r : GameRoom.t) (player : GamePlayer.t),
    JsMap.get playerId (GameRoom.players r) = Some player ->
    Forall (fun s => BulletData.playerId (snd s) = playerId /\
                     (w <= fst (fst s) <= w + 50)%Z) subs ->
    firedBroadcasts (snd (GameRoom.run (map shotOp subs) r)) <= 1 /\
    List.length (GameRoom.bullets (fst (GameRoom.run (map shotOp subs) r)))
    <= List.length (GameRoom.bullets r) + 1.
Proof.
  induction subs as [|[[now now'] bd] rest IH]; intros r player G F.
  - simpl. unfold firedBroadcasts. simpl. lia.
  - inversion F as [|? ? [Hp Hw] F']; subst. simpl in Hw.
    change (GameRoom.run (map shotOp (((now, now'), bd) :: rest)) r)
      with (let '(r1, e1) := GameRoom.handleBullet now now' bd r in
            let '(r2, e2) := GameRoom.run (map shotOp rest) r1 in
            (r2, e1 ++ e2)).
    destruct (Z.lt_ge_cases (now - GamePlayer.lastShotTime player) 100) as [L | L].
    + rewrite (handleBullet_limited now now' bd player r G L).
      specialize (IH r player G F').
      destruct (GameRoom.run (map shotOp rest) r) as [r2 e2]. exact IH.
    + pose proof (handleBullet_stamps now now' bd player r G L) as G1.
      pose proof (handleBullet_at_most_one now now' bd r) as [H1 H2].
      destruct (GameRoom.handleBullet now now' bd r) as [r1 e1]. simpl in *.
      rewrite (shots_all_dropped _ rest r1 _ G1).
      * simpl. rewrite app_nil_r. now split.
      * eapply Forall_impl; [|exact F']. simpl. intros s [Hs Hw']. split; [exact Hs|lia].
Qed.

(** C10: when a member's submission passes the 100 ms check but its
    direction is no longer than 1e-6, no bullet is stored and nothing is
    broadcast, yet the member's last-shot time is now the time of that
    submission; so every submission of the same member less than 100 ms
    later is dropped as well, whatever its direction. *)
Theorem rejected_direction_consumes_rate_window :
  forall (r : GameRoom.t) (now now' : Z) (bd : BulletData.t) (player : GamePlayer.t),
    JsMap.get (BulletData.playerId bd) (GameRoom.players r) = Some player ->
    (100 <= now - GamePlayer.lastShotTime player)%Z ->
    PrimFloat.leb (GameRoom.dirLength (BulletData.direction bd)) 1e-6%float = true ->
    let r1 := fst (GameRoom.handleBullet now now' bd r) in
    GameRoom.bullets r1 = GameRoom.bullets r /\
    snd (GameRoom.handleBullet now now' bd r) = [] /\
    option_map GamePlayer.lastShotTime
      (JsMap.get (BulletData.playerId bd) (GameRoom.players r1)) = Some now /\
    forall (later later' : Z) (next : BulletData.t),
      BulletData.playerId next = BulletData.playerId bd ->
      (later - now < 100)%Z ->
      GameRoom.handleBullet later later' next r1 = (r1, []).
Proof.
  intros r now now' bd player G L Z0 r1. subst r1.
  destruct (handleBullet_short_direction now now' bd r Z0) as [Hb He].
  pose proof (handleBullet_stamps now now' bd player r G L) as G1.
  repeat split; try assumption.
  - now rewrite G1.
  - intros later later' next Hp Hl.
    apply handleBullet_limited with (GamePlayer.set_lastShotTime now player).
    + now rewrite Hp.
    + exact Hl.
Qed.

Lemma rejected_direction_consumes_rate_window_witness :
  let zero := BulletData.mk "b1" "player_1" (0, 0.9, 0)%float (0, 0, 0)%float "rifle" in
  let good := BulletData.mk "b2" "player_1" (0, 0.9, 0)%float (0, 0, 1)%float "rifle" in
  let r1 := fst (GameRoom.handleBullet 1000 1000 zero (lobby 2)) in
  GameRoom.bullets r1 = [] /\
  GameRoom.handleBullet 1099 1099 good r1 = (r1, []) /\
  GameRoom.bullets (fst (GameRoom.handleBullet 1100 1100 good r1)) <> [].
Proof.
  intros zero good r1.
  destruct (rejected_direction_consumes_rate_window (lobby 2) 1000 1000 zero
              (GamePlayer.mk 0 "player_1" "Player 1" 1 (0, 0.9, 0)%float
                 (0, 0, 0)%float 100%float "#ff4444" 0%Z true 0%Z Red))
    as [Hb [_ [_ Hnext]]].
  - reflexivity.
  - simpl. lia.
  - reflexivity.
  - split; [exact Hb | split].
    + apply Hnext; [reflexivity | lia].
    + vm_compute. discriminate.
Defined.

(** ** The stored bullet *)

(** C1: a pistol shot that [handleBullet] accepts is stored with speed 100,
    not with the pistol's speed 80 that [getWeaponSpeed] gives and that the
    [bullet_fired] broadcast of the same call carries; a tick 100 ms later
    has moved the bullet by 10 units, the clients' 80 would make it 8. *)
Theorem stored_speed_differs_from_weapon_speed :
  let shot := BulletData.mk "b1" "player_1" (50, 0.9, 50)%float (0, 0, 1)%float
                "pistol" in
  let res := GameRoom.handleBullet 1000 1000 shot (lobby 2) in
  option_map Bullet.speed (JsMap.get "b1" (GameRoom.bullets (fst res)))
  = Some 100%float /\
  GameRoom.getWeaponSpeed "pistol" = 80%float /\
  snd res
  = [Broadcast [1; 2]
       (BulletFired "b1" "player_1" (50, 0.9, 50)%float (0, 0, 1)%float "pistol"
          80%float 25%float)] /\
  option_map Bullet.position
    (JsMap.get "b1" (GameRoom.bullets (fst (GameRoom.update 1100 (fst res)))))
  = Some (50, 0.9, 60)%float.
Proof. vm_compute. repeat split. Qed.

(** The stored speed is 100 for every weapon. *)
Lemma stored_speed_is_constant (now now' : Z) (bd : BulletData.t) (r : GameRoom.t) :
  snd (GameRoom.handleBullet now now' bd r) <> [] ->
  option_map Bullet.speed
    (JsMap.get (BulletData.id bd)
       (GameRoom.bullets (fst (GameRoom.handleBullet now now' bd r))))
  = Some 100%float.
Proof.
  unfold GameRoom.handleBullet.
  destruct (GameRoom.rateLimit _ _ _) as [r1|]; [|now intros []].
  destruct (PrimFloat.leb _ _); [now intros []|].
  intros _. simpl. now rewrite get_set_same.
Qed.

(** C6: the direction (1e200, 0, 0) passes the guard, because its computed
    length is infinite, and the bullet is stored and broadcast with the
    direction (0, 0, 0), which is not of unit length. *)
Theorem overflowing_direction_stored_with_zero_direction :
  let shot := BulletData.mk "b1" "player_1" (0, 0.9, 0)%float (1e200, 0, 0)%float
                "rifle" in
  let res := GameRoom.handleBullet 1000 1000 shot (lobby 2) in
  GameRoom.dirLength (BulletData.direction shot) = infinity /\
  option_map Bullet.direction (JsMap.get "b1" (GameRoom.bullets (fst res)))
  = Some (0, 0, 0)%float /\
  unitLength (0, 0, 0)%float = false /\
  snd res
  = [Broadcast [1; 2]
       (BulletFired "b1" "player_1" (0, 0.9, 0)%float (0, 0, 0)%float "rifle"
          120%float 35%float)].
Proof. vm_compute. repeat split. Qed.

(** ** The tick, bullet by bullet *)

Lemma hitsOn_app (k : string) (e1 e2 : list Effect) :
  hitsOn k (e1 ++ e2) = hitsOn k e1 || hitsOn k e2.
Proof. apply existsb_app. Qed.

Lemma checkForVictory_no_hit (r : GameRoom.t) (k : string) :
  hitsOn k (snd (GameRoom.checkForVictory r)) = false.
Proof.
  unfold GameRoom.checkForVictory.
  destruct (GameRoom.gameEnded r); [reflexivity|].
  destruct (GameRoom.winnerOf _); reflexivity.
Qed.

Lemma award_no_hit (bullet : Bullet.t) (player : GamePlayer.t) (r : GameRoom.t)
  (k : string) :
  hitsOn k (snd (GameRoom.award bullet player r)) = false.
Proof.
  unfold GameRoom.award.
  destruct (JsMap.get _ _) as [shooter|]; [|reflexivity].
  destruct (negb _); [|reflexivity].
  destruct (GameRoom.gameEnded r); [reflexivity|].
  match goal with
  | |- context [GameRoom.checkForVictory ?x] =>
      pose proof (checkForVictory_no_hit x k) as H;
      destruct (GameRoom.checkForVictory x) as [rc ev]
  end.
  simpl in *. exact H.
Qed.

Lemma eliminate_no_hit (bullet : Bullet.t) (playerId : string)
  (player : GamePlayer.t) (r : GameRoom.t) (k : string) :
  hitsOn k (snd (GameRoom.eliminate bullet playerId player r)) = false.
Proof.
  unfold GameRoom.eliminate.
  pose proof (award_no_hit bullet player r k) as H.
  destruct (GameRoom.award bullet player r) as [r1 e1]. simpl in *.
  rewrite hitsOn_app, H. reflexivity.
Qed.

(** The effects of a hit: one [player_hit] for the victim and the bullet,
    followed by effects that are not [player_hit]s. *)
Lemma hit_effects (bullet : Bullet.t) (playerId : string) (player : GamePlayer.t)
  (r : GameRoom.t) :
  exists to rest,
    snd (GameRoom.hit bullet playerId player r)
    = Broadcast to (PlayerHit playerId (GameRoom.damageOf bullet)
                      (Bullet.weapon bullet) (Bullet.id bullet)) :: rest /\
    forall k, hitsOn k rest = false.
Proof.
  unfold GameRoom.hit.
  destruct (PrimFloat.leb _ _).
  - match goal with
    | |- context [GameRoom.eliminate ?b ?k ?p ?x] =>
        pose proof (eliminate_no_hit b k p x) as H;
        destruct (GameRoom.eliminate b k p x) as [r3 e2]
    end.
    simpl in *. eexists. exists e2. split; [reflexivity | exact H].
  - simpl. eexists. exists []. split; [reflexivity | reflexivity].
Qed.

Lemma advance_id (now : Z) (bullet : Bullet.t) :
  Bullet.id (GameRoom.advance now bullet) = Bullet.id bullet.
Proof.
  unfold GameRoom.advance.
  destruct (Bullet.position bullet) as [[p0 p1] p2].
  destruct (Bullet.direction bullet) as [[d0 d1] d2]. reflexivity.
Qed.

Lemma advance_playerId (now : Z) (bullet : Bullet.t) :
  Bullet.playerId (GameRoom.advance now bullet) = Bullet.playerId bullet.
Proof.
  unfold GameRoom.advance.
  destruct (Bullet.position bullet) as [[p0 p1] p2].
  destruct (Bullet.direction bullet) as [[d0 d1] d2]. reflexivity.
Qed.

(** What one call of the callback decides: an expired bullet is flagged
    untouched and without effect; any other bullet is advanced, and is
    flagged exactly when it causes a [player_hit], which then carries its
    id. *)
Lemma stepBullet_fate (now : Z) (bullet : Bullet.t) (r : GameRoom.t) :
  let '(bullet1, r1, fate, e) := GameRoom.stepBullet now bullet r in
  if expired now bullet
  then fate = GameRoom.Expired /\ bullet1 = bullet /\ e = [] /\ r1 = r
  else bullet1 = GameRoom.advance now bullet /\
       ((fate = GameRoom.Kept /\ e = [] /\ r1 = r) \/
        (fate = GameRoom.Struck /\
         exists to v d w rest,
           e = Broadcast to (PlayerHit v d w (Bullet.id bullet)) :: rest /\
           forall k, hitsOn k rest = false)).
Proof.
  unfold GameRoom.stepBullet, expired.
  destruct (_ <? _)%Z; [repeat split|].
  destruct (find _ _) as [[playerId player]|].
  - match goal with
    | |- context [GameRoom.hit ?b ?k ?p ?x] =>
        destruct (hit_effects b k p x) as [to [rest [He Hn]]];
        destruct (GameRoom.hit b k p x) as [r1 e]
    end.
    simpl in He. split; [reflexivity|]. right. split; [reflexivity|].
    rewrite advance_id in He. eauto 8.
  - split; [reflexivity|]. left. repeat split.
Qed.


Lemma stepBullet_summary (now : Z) (bullet : Bullet.t) (r : GameRoom.t) :
  let '(bullet1, r1, fate, e) := GameRoom.stepBullet now bullet r in
  bullet1 = visited now bullet /\
  (forall k, hitsOn k e = struck fate && String.eqb (Bullet.id bullet) k) /\
  GameRoom.flagged fate = expired now bullet || struck fate /\
  expired now bullet && struck fate = false.
Proof.
  pose proof (stepBullet_fate now bullet r) as H.
  destruct (GameRoom.stepBullet now bullet r) as [[[bullet1 r1] fate] e].
  unfold visited. destruct (expired now bullet).
  - destruct H as [-> [-> [-> _]]]. repeat split.
  - destruct H as [-> [[-> [-> _]] | [-> [to [v [d [w [rest [-> Hn]]]]]]]]].
    + repeat split.
    + repeat split. intros k. simpl. now rewrite Hn, orb_false_r.
Qed.




Lemma keyed_cons_inv {V : Type} (ident : V -> string) (k : string) (v : V)
  (m : JsMap.t string V) :
  keyed ident ((k, v) :: m) -> ident v = k /\ keyed ident m.
Proof.
  intros H. split.
  - apply H. now left.
  - intros k' v' Hin. apply H. now right.
Qed.




Lemma In_removeAll (toRemove : list string) :
  forall (m : JsMap.t string Bullet.t) (k : string) (b : Bullet.t),
    In (k, b) (GameRoom.removeAll toRemove m) -> In (k, b) m.
Proof.
  induction toRemove as [|x rm IH]; intros m k b H; [exact H|].
  change (GameRoom.removeAll (x :: rm) m)
    with (GameRoom.removeAll rm (JsMap.delete x m)) in H.
  apply IH in H. clear IH. induction m as [|[k' v'] m IHm]; simpl in *; [tauto|].
  destruct (String.eqb x k'); [right; auto|].
  destruct H as [H | H]; [now left | right; auto].
Qed.

Lemma NoDup_removeAll (toRemove : list string) :
  forall (m : JsMap.t string Bullet.t),
    NoDup (JsMap.keys m) -> NoDup (JsMap.keys (GameRoom.removeAll toRemove m)).
Proof.
  induction toRemove as [|x rm IH]; intros m H; [exact H|].
  change (GameRoom.removeAll (x :: rm) m)
    with (GameRoom.removeAll rm (JsMap.delete x m)).
  apply IH. now apply NoDup_keys_delete.
Qed.




(** ** What the tick leaves alone in the player map

    The tick writes [health], [isAlive] and [score] only; every other field
    of every member, and the order of the map, stay as they are. *)

Section Kept.
Context {A : Type} (field : GamePlayer.t -> A).
Hypothesis field_health : forall v p, field (GamePlayer.set_health v p) = field p.
Hypothesis field_isAlive : forall v p, field (GamePlayer.set_isAlive v p) = field p.
Hypothesis field_score : forall v p, field (GamePlayer.set_score v p) = field p.

Lemma view_set (k : string) (v v' : GamePlayer.t) (r : GameRoom.t) :
  JsMap.get k (GameRoom.players r) = Some v ->
  field v' = field v ->
  view field (GameRoom.set_players (JsMap.set k v' (GameRoom.players r)) r)
  = view field r.
Proof.
  unfold view. simpl. intros G T.
  induction (GameRoom.players r) as [|[k' p] m IH]; simpl in *; [discriminate|].
  destruct (String.eqb k k') eqn:E; simpl.
  - injection G as ->. now rewrite T.
  - now rewrite IH.
Qed.

Lemma view_lookup (k : string) (r r' : GameRoom.t) :
  view field r = view field r' ->
  option_map field (JsMap.get k (GameRoom.players r))
  = option_map field (JsMap.get k (GameRoom.players r')).
Proof.
  unfold view.
  generalize (GameRoom.players r) (GameRoom.players r'). clear r r'.
  intros m1. induction m1 as [|[k1 p1] m1 IH]; intros [|[k2 p2] m2]; simpl;
    try discriminate; [reflexivity|].
  intros [= -> T H].
  destruct (String.eqb k k2); simpl; [now rewrite T | now apply IH].
Qed.

Lemma checkForVictory_view (r : GameRoom.t) :
  view field (fst (GameRoom.checkForVictory r)) = view field r.
Proof.
  unfold GameRoom.checkForVictory.
  destruct (GameRoom.gameEnded r); [reflexivity|].
  destruct (GameRoom.winnerOf _) as [w|]; [|reflexivity].
  unfold view. simpl. rewrite map_map. apply map_ext.
  intros [k p]. unfold GameRoom.victoryBonus. simpl.
  destruct (Team_eqb _ _); [now rewrite field_score | reflexivity].
Qed.

Lemma award_view (bullet : Bullet.t) (player : GamePlayer.t) (r : GameRoom.t) :
  view field (fst (GameRoom.award bullet player r)) = view field r.
Proof.
  unfold GameRoom.award.
  destruct (JsMap.get _ _) as [shooter|] eqn:G; [|reflexivity].
  destruct (negb _); [|reflexivity].
  destruct (GameRoom.gameEnded r); [reflexivity|].
  match goal with
  | |- context [GameRoom.checkForVictory ?x] =>
      pose proof (checkForVictory_view x) as H;
      destruct (GameRoom.checkForVictory x) as [rc ev]
  end.
  simpl in *. rewrite H.
  exact (view_set _ shooter _ r G
           (field_score (GamePlayer.score shooter + 100)%Z shooter)).
Qed.

Lemma eliminate_view (bullet : Bullet.t) (playerId : string)
  (player : GamePlayer.t) (r : GameRoom.t) :
  view field (fst (GameRoom.eliminate bullet playerId player r)) = view field r.
Proof.
  unfold GameRoom.eliminate.
  pose proof (award_view bullet player r) as H.
  destruct (GameRoom.award bullet player r) as [r1 e1]. exact H.
Qed.

Lemma hit_view (bullet : Bullet.t) (playerId : string) (player : GamePlayer.t)
  (r : GameRoom.t) :
  JsMap.get playerId (GameRoom.players r) = Some player ->
  view field (fst (GameRoom.hit bullet playerId player r)) = view field r.
Proof.
  intros G. unfold GameRoom.hit.
  set (player1 := GamePlayer.set_health _ player).
  assert (H1 : view field
                 (GameRoom.set_players
                    (JsMap.set playerId player1 (GameRoom.players r)) r)
               = view field r).
  { apply view_set with player; [exact G | apply field_health]. }
  destruct (PrimFloat.leb _ _); [|exact H1].
  match goal with
  | |- context [GameRoom.eliminate ?b ?k ?p ?x] =>
      pose proof (eliminate_view b k p x) as H;
      destruct (GameRoom.eliminate b k p x) as [r3 e2]
  end.
  simpl in *. rewrite H. rewrite <- H1.
  apply (view_set playerId player1 _
           (GameRoom.set_players
              (JsMap.set playerId player1 (GameRoom.players r)) r)).
  - simpl. apply get_set_same.
  - apply field_isAlive.
Qed.

Lemma stepBullet_view (now : Z) (bullet : Bullet.t) (r : GameRoom.t) :
  NoDup (JsMap.keys (GameRoom.players r)) ->
  view field (snd (fst (fst (GameRoom.stepBullet now bullet r)))) = view field r.
Proof.
  intros Hnd. unfold GameRoom.stepBullet.
  destruct (_ <? _)%Z; [reflexivity|].
  destruct (find _ _) as [[playerId player]|] eqn:F; [|reflexivity].
  apply find_some in F. destruct F as [Hin _].
  pose proof (hit_view (GameRoom.advance now bullet) playerId player r
                (In_get_NoDup _ _ _ Hnd Hin)) as H.
  destruct (GameRoom.hit _ _ _ _) as [r1 e]. exact H.
Qed.

Lemma keys_view (r : GameRoom.t) :
  JsMap.keys (GameRoom.players r) = map fst (view field r).
Proof. unfold view, JsMap.keys. rewrite map_map. reflexivity. Qed.

Lemma NoDup_view (r r' : GameRoom.t) :
  view field r' = view field r ->
  NoDup (JsMap.keys (GameRoom.players r)) ->
  NoDup (JsMap.keys (GameRoom.players r')).
Proof. intros H. now rewrite !keys_view, H. Qed.

Lemma scanBullets_view (now : Z) (bs : JsMap.t string Bullet.t) :
  forall r,
    NoDup (JsMap.keys (GameRoom.players r)) ->
    view field (snd (fst (fst (GameRoom.scanBullets now bs r)))) = view field r.
Proof.
  induction bs as [|[k0 b0] rest IH]; intros r Hnd; simpl; [reflexivity|].
  pose proof (stepBullet_view now b0 r Hnd) as H1.
  destruct (GameRoom.stepBullet now b0 r) as [[[b1 r1] fate] e1].
  simpl in H1.
  pose proof (IH r1 (NoDup_view _ _ H1 Hnd)) as H2.
  destruct (GameRoom.scanBullets now rest r1) as [[[rest1 r2] rm] e2].
  simpl in *. congruence.
Qed.

Lemma updateBullets_view (now : Z) (r : GameRoom.t) :
  NoDup (JsMap.keys (GameRoom.players r)) ->
  view field (fst (GameRoom.updateBullets now r)) = view field r.
Proof.
  intros Hnd. unfold GameRoom.updateBullets.
  pose proof (scanBullets_view now (GameRoom.bullets r) r Hnd) as H.
  destruct (GameRoom.scanBullets now (GameRoom.bullets r) r) as [[[bs r1] rm] e].
  exact H.
Qed.

End Kept.

(** ** Teams during the tick *)

Lemma teamOf_roster (k : string) (r r' : GameRoom.t) :
  roster r = roster r' -> teamOf k r = teamOf k r'.
Proof. unfold roster, teamOf. apply view_lookup. Qed.

Lemma Spared_roster (v o : string) (r r' : GameRoom.t) :
  roster r = roster r' -> Spared v o r -> Spared v o r'.
Proof.
  intros H [Hne [tv [Hv Ho]]]. split; [exact Hne|]. exists tv.
  now rewrite <- (teamOf_roster v r r' H), <- (teamOf_roster o r r' H).
Qed.

Lemma stepBullet_roster (now : Z) (bullet : Bullet.t) (r : GameRoom.t) :
  NoDup (JsMap.keys (GameRoom.players r)) ->
  roster (snd (fst (fst (GameRoom.stepBullet now bullet r)))) = roster r.
Proof. now apply stepBullet_view. Qed.

Lemma NoDup_roster (r r' : GameRoom.t) :
  roster r' = roster r ->
  NoDup (JsMap.keys (GameRoom.players r)) ->
  NoDup (JsMap.keys (GameRoom.players r')).
Proof. apply NoDup_view. Qed.

Lemma scanBullets_roster (now : Z) (bs : JsMap.t string Bullet.t) (r : GameRoom.t) :
  NoDup (JsMap.keys (GameRoom.players r)) ->
  roster (snd (fst (fst (GameRoom.scanBullets now bs r)))) = roster r.
Proof. now apply scanBullets_view. Qed.

Lemma hitsOn_In (to : list nat) (v : string) (d : float) (w bid : string)
  (es : list Effect) :
  In (Broadcast to (PlayerHit v d w bid)) es -> hitsOn bid es = true.
Proof.
  intros H. unfold hitsOn. apply existsb_exists.
  exists (Broadcast to (PlayerHit v d w bid)). split; [exact H|].
  simpl. apply String.eqb_refl.
Qed.

(** The hit one bullet causes names a victim the inner loop let through. *)
Lemma stepBullet_hit_spared (now : Z) (bullet : Bullet.t) (r : GameRoom.t)
  (to : list nat) (v : string) (d : float) (w bid : string) :
  NoDup (JsMap.keys (GameRoom.players r)) ->
  In (Broadcast to (PlayerHit v d w bid)) (snd (GameRoom.stepBullet now bullet r)) ->
  bid = Bullet.id bullet /\ Spared v (Bullet.playerId bullet) r.
Proof.
  intros Hnd. unfold GameRoom.stepBullet.
  destruct (_ <? _)%Z; [intros []|].
  destruct (find _ _) as [[playerId player]|] eqn:F; [|intros []].
  apply find_some in F. destruct F as [Hin Ht].
  destruct (hit_effects (GameRoom.advance now bullet) playerId player r)
    as [to' [rest [He Hn]]].
  destruct (GameRoom.hit _ _ _ _) as [r1 e]. simpl in *. subst e.
  intros [Heq | Hrest].
  - injection Heq as _ <- _ _ <-.
    rewrite advance_id. split; [reflexivity|].
    unfold GameRoom.isTarget in Ht. simpl in Ht.
    rewrite advance_playerId in Ht.
    destruct (String.eqb playerId (Bullet.playerId bullet)) eqn:E1;
      [discriminate|].
    destruct (GamePlayer.isAlive player); [|discriminate]. simpl in Ht.
    destruct (Team_eqb _ _) eqn:E2; [discriminate|].
    split; [now apply String.eqb_neq|].
    exists (GamePlayer.team player). unfold teamOf.
    rewrite (In_get_NoDup _ _ _ Hnd Hin). split; [reflexivity|].
    unfold GameRoom.shooterTeam in E2. rewrite advance_playerId in E2.
    destruct (JsMap.get (Bullet.playerId bullet) (GameRoom.players r))
      as [shooter|]; simpl.
    + intros Heq. rewrite Heq in E2. now destruct (GamePlayer.team player).
    + now destruct (GamePlayer.team player).
  - apply hitsOn_In in Hrest. now rewrite Hn in Hrest.
Qed.

Lemma scanBullets_hit_spared (now : Z) (bs : JsMap.t string Bullet.t)
  (to : list nat) (v : string) (d : float) (w bid : string) :
  forall r,
    NoDup (JsMap.keys (GameRoom.players r)) ->
    In (Broadcast to (PlayerHit v d w bid)) (snd (GameRoom.scanBullets now bs r)) ->
    exists k bullet,
      In (k, bullet) bs /\ Bullet.id bullet = bid /\
      Spared v (Bullet.playerId bullet) r.
Proof.
  induction bs as [|[k0 b0] rest IH]; intros r Hnd; simpl; [intros []|].
  pose proof (stepBullet_hit_spared now b0 r to v d w bid Hnd) as H1.
  pose proof (stepBullet_roster now b0 r Hnd) as R1.
  destruct (GameRoom.stepBullet now b0 r) as [[[b1 r1] fate] e1].
  simpl in H1, R1.
  pose proof (IH r1 (NoDup_roster _ _ R1 Hnd)) as H2.
  destruct (GameRoom.scanBullets now rest r1) as [[[rest1 r2] rm] e2].
  simpl in *. intros Hin. apply in_app_or in Hin. destruct Hin as [Hin | Hin].
  - destruct (H1 Hin) as [-> Hs]. exists k0, b0. split; [now left | now split].
  - destruct (H2 Hin) as [k [b [Hb [Hid Hs]]]].
    exists k, b. split; [now right | split; [exact Hid|]].
    now apply Spared_roster with r1.
Qed.

(** What the hit scan does ensure: every [player_hit] of a tick is for a
    bullet of the room's map and a victim whose id differs from the bullet's
    owner; when the owner is in the player map, the victim's team differs
    from the owner's; when it is not, the scan takes the owner for red, and
    the victim is blue. *)
Theorem hit_spares_owner_and_registered_team :
  forall (r : GameRoom.t) (now : Z) (to : list nat) (victimId : string)
         (damage : float) (weapon bulletId : string),
    NoDup (JsMap.keys (GameRoom.players r)) ->
    In (Broadcast to (PlayerHit victimId damage weapon bulletId))
      (snd (GameRoom.updateBullets now r)) ->
    exists k bullet,
      In (k, bullet) (GameRoom.bullets r) /\ Bullet.id bullet = bulletId /\
      victimId <> Bullet.playerId bullet /\
      exists tv, teamOf victimId r = Some tv /\
                 match teamOf (Bullet.playerId bullet) r with
                 | Some ts => ts <> tv
                 | None => tv = Blue
                 end.
Proof.
  intros r now to victimId damage weapon bulletId Hnd.
  unfold GameRoom.updateBullets.
  pose proof (scanBullets_hit_spared now (GameRoom.bullets r) to victimId damage
                weapon bulletId r Hnd) as H.
  destruct (GameRoom.scanBullets now (GameRoom.bullets r) r) as [[[bs r1] rm] e].
  simpl in *. intros Hin. destruct (H Hin) as [k [b [Hb [Hid [Hne Hs]]]]].
  exists k, b. auto.
Qed.

Lemma hit_spares_owner_and_registered_team_witness :
  exists k bullet,
    In (k, bullet) (GameRoom.bullets brink) /\ Bullet.id bullet = "b1" /\
    "player_2" <> Bullet.playerId bullet /\
    exists tv, teamOf "player_2" brink = Some tv /\
               match teamOf (Bullet.playerId bullet) brink with
               | Some ts => ts <> tv
               | None => tv = Blue
               end.
Proof.
  apply (hit_spares_owner_and_registered_team brink 1005 [1; 2] "player_2"
           35%float "rifle" "b1").
  - vm_compute. repeat constructor; simpl; intuition discriminate.
  - vm_compute. now left.
Defined.

(** C3: a hit can be friendly fire when the shooter has left while the
    bullet was in flight.  The scan looks the shooter up in the player map
    at hit time and takes a shooter it does not find for red.  In a room of
    four at one spot, [player_2], blue, fires and leaves; at the next tick
    its bullet passes the two red members and hits [player_4], who is on the
    team [player_2] was on. *)
Lemma bullet_of_departed_player_hits_teammate :
  teamOf "player_2" (lobby 4) = Some Blue /\
  teamOf "player_4" (lobby 4) = Some Blue /\
  option_map Bullet.playerId (JsMap.get "b1" (GameRoom.bullets orphanShot))
  = Some "player_2" /\
  teamOf "player_2" orphanShot = None /\
  teamOf "player_4" orphanShot = Some Blue /\
  snd (GameRoom.update 1005 orphanShot)
  = [Broadcast [1; 3; 4] (PlayerHit "player_4" 35%float "rifle" "b1")].
Proof. vm_compute. repeat split. Qed.

(** ** Every room the server can build is well formed *)

Lemma visited_id (now : Z) (bullet : Bullet.t) :
  Bullet.id (visited now bullet) = Bullet.id bullet.
Proof. unfold visited. destruct (expired now bullet); [reflexivity | apply advance_id]. Qed.

Lemma scanBullets_keyed (now : Z) (bs : JsMap.t string Bullet.t) :
  forall r,
    keyed Bullet.id bs ->
    keyed Bullet.id (fst (fst (fst (GameRoom.scanBullets now bs r)))).
Proof.
  induction bs as [|[k0 b0] rest IH]; intros r Hk; simpl; [exact Hk|].
  apply keyed_cons_inv in Hk. destruct Hk as [Hid Hk'].
  pose proof (stepBullet_summary now b0 r) as S.
  destruct (GameRoom.stepBullet now b0 r) as [[[b1 r1] fate] e1].
  destruct S as [-> _].
  pose proof (IH r1 Hk') as H2.
  destruct (GameRoom.scanBullets now rest r1) as [[[rest1 r2] rm] e2].
  simpl in *. intros k v [Heq | Hin].
  - injection Heq as <- <-. now rewrite visited_id.
  - now apply H2.
Qed.

Lemma scanBullets_keys (now : Z) (bs : JsMap.t string Bullet.t) :
  forall r,
    JsMap.keys (fst (fst (fst (GameRoom.scanBullets now bs r)))) = JsMap.keys bs.
Proof.
  induction bs as [|[k0 b0] rest IH]; intros r; simpl; [reflexivity|].
  destruct (GameRoom.stepBullet now b0 r) as [[[b1 r1] fate] e1].
  pose proof (IH r1) as H2.
  destruct (GameRoom.scanBullets now rest r1) as [[[rest1 r2] rm] e2].
  unfold JsMap.keys in *. simpl in *. now rewrite H2.
Qed.

Lemma updateBullets_WellFormed (now : Z) (r : GameRoom.t) :
  WellFormed r -> WellFormed (fst (GameRoom.updateBullets now r)).
Proof.
  intros [Hp [Hb Hk]]. unfold GameRoom.updateBullets.
  pose proof (scanBullets_roster now (GameRoom.bullets r) r Hp) as R.
  pose proof (scanBullets_keys now (GameRoom.bullets r) r) as K.
  pose proof (scanBullets_keyed now (GameRoom.bullets r) r Hk) as Kd.
  destruct (GameRoom.scanBullets now (GameRoom.bullets r) r) as [[[bs r1] rm] e].
  simpl in *. split; [|split]; simpl.
  - now apply NoDup_roster with r.
  - apply NoDup_removeAll. now rewrite K.
  - intros k v Hin. apply In_removeAll in Hin. now apply Kd.
Qed.

Lemma step_WellFormed (op : GameRoom.Op) (r : GameRoom.t) :
  WellFormed r -> WellFormed (fst (GameRoom.step op r)).
Proof.
  intros W. pose proof W as [Hp [Hb Hk]].
  destruct op as [player|playerId|player|now now' bd|now|[playerId player] roll];
    simpl.
  - split; [|split]; simpl; try assumption. now apply NoDup_keys_set.
  - unfold GameRoom.removePlayer. destruct (JsMap.get _ _); [|exact W].
    split; [|split]; simpl; try assumption. now apply NoDup_keys_delete.
  - unfold GameRoom.broadcastPlayerUpdate. destruct (JsMap.get _ _); [|exact W].
    split; [|split]; simpl; try assumption. now apply NoDup_keys_set.
  - unfold GameRoom.handleBullet.
    assert (W1 : forall r1, GameRoom.rateLimit now (BulletData.playerId bd) r = Some r1 ->
                            WellFormed r1).
    { unfold GameRoom.rateLimit. intros r1.
      destruct (JsMap.get _ _) as [p|]; [|now intros [= <-]].
      destruct (_ <? _)%Z; [discriminate|]. intros [= <-].
      split; [|split]; simpl; try assumption. now apply NoDup_keys_set. }
    destruct (GameRoom.rateLimit _ _ _) as [r1|]; [|exact W].
    specialize (W1 r1 eq_refl). destruct W1 as [Hp1 [Hb1 Hk1]].
    destruct (PrimFloat.leb _ _); [now split|].
    split; [|split]; simpl; try assumption.
    + now apply NoDup_keys_set.
    + intros k v Hin. apply In_set_inv in Hin.
      destruct Hin as [[-> ->] | Hin]; [reflexivity | now apply Hk1].
  - now apply updateBullets_WellFormed.
  - unfold GameRoom.respawn. destruct (JsMap.has _ _); [|exact W].
    destruct (JsMap.get _ _) as [p|]; [|exact W].
    destruct (Nat.eqb _ _); [|exact W].
    split; [|split]; simpl; try assumption. now apply NoDup_keys_set.
Qed.

(** The hypotheses of the theorems on the tick hold in every state a room
    can reach. *)
Lemma run_WellFormed (ops : list GameRoom.Op) :
  forall r, WellFormed r -> WellFormed (fst (GameRoom.run ops r)).
Proof.
  induction ops as [|op rest IH]; intros r W; simpl; [exact W|].
  pose proof (step_WellFormed op r W) as W1.
  destruct (GameRoom.step op r) as [r1 e1].
  pose proof (IH r1 W1) as W2.
  destruct (GameRoom.run rest r1) as [r2 e2]. exact W2.
Qed.

Lemma new_WellFormed (code : string) : WellFormed (GameRoom.new code).
Proof.
  split; [|split]; simpl; try constructor. intros k v [].
Qed.

(** ** Respawn *)

Lemma spawn_point_listed (roll : nat) :
  In (GameRoom.getRandomSpawnPoint roll) GameRoom.getSpawnPoints.
Proof.
  unfold GameRoom.getRandomSpawnPoint. apply nth_In.
  apply Nat.mod_upper_bound. discriminate.
Qed.

(** An elimination hands [setTimeout] the respawn closure of the victim with
    a delay of 3000 ms. *)
Lemma elimination_schedules_respawn (bullet : Bullet.t) (playerId : string)
  (player : GamePlayer.t) (r : GameRoom.t) :
  PrimFloat.leb (GamePlayer.health player - GameRoom.damageOf bullet)%float 0%float
  = true ->
  In (SetTimeout (Respawn playerId (GamePlayer.obj player)) 3000)
    (snd (GameRoom.hit bullet playerId player r)).
Proof.
  intros H. unfold GameRoom.hit. simpl. rewrite H.
  unfold GameRoom.eliminate.
  destruct (GameRoom.award _ _ _) as [r1 e1]. simpl.
  right. apply in_or_app. right. right. now left.
Qed.

(** A closure does not run before the time it was scheduled for. *)
Lemma fire_not_early (now : Z) (i roll : nat) (w : EventLoop.t)
  (res : EventLoop.t * list Effect) :
  EventLoop.fire now i roll w = Some res ->
  exists due task, nth_error (EventLoop.timers w) i = Some (due, task) /\
                   (due <= now)%Z.
Proof.
  unfold EventLoop.fire.
  destruct (nth_error _ _) as [[due task]|]; [|discriminate].
  destruct (due <=? now)%Z eqn:E; [|discriminate].
  intros _. exists due, task. split; [reflexivity | now apply Z.leb_le].
Qed.

(** When the id is no longer in the player map the closure does nothing. *)
Lemma respawn_absent (playerId : string) (player roll : nat) (r : GameRoom.t) :
  JsMap.has playerId (GameRoom.players r) = false ->
  GameRoom.respawn playerId player roll r = (r, []).
Proof. unfold GameRoom.respawn. now intros ->. Qed.

(** When the map still holds the object the closure captured, the member is
    back at 100 health, alive, at a listed spawn point, and the respawn is
    broadcast. *)
Lemma respawn_same_object (playerId : string) (p : GamePlayer.t) (roll : nat)
  (r : GameRoom.t) :
  JsMap.get playerId (GameRoom.players r) = Some p ->
  let res := GameRoom.respawn playerId (GamePlayer.obj p) roll r in
  JsMap.get playerId (GameRoom.players (fst res))
  = Some (GamePlayer.set_position (GameRoom.getRandomSpawnPoint roll)
            (GamePlayer.set_isAlive true (GamePlayer.set_health 100%float p))) /\
  snd res
  = [GameRoom.broadcast
       (PlayerRespawned playerId (GameRoom.getRandomSpawnPoint roll)) None
       (fst res)].
Proof.
  intros G res. subst res. unfold GameRoom.respawn, JsMap.has.
  rewrite G, Nat.eqb_refl. simpl. split; [apply get_set_same | reflexivity].
Qed.

(** C8: [player_2] is eliminated by the tick at 1005 ms and its respawn is
    scheduled for 4005 ms; the same connection then joins the room again
    (the server's handlers, fed [rejoinTrace], build this very room), so
    the map holds a new object for [player_2] (health 10, as the connection
    last reported).  The closure cannot run at 4004 ms; at 4005 ms it runs,
    finds the id in the map, broadcasts [player_respawned], and leaves the
    member at 10 health and at its old position: its writes went to the
    object it captured. *)
Theorem respawn_after_rejoin_misses_member :
  JsMap.get "AAAAAA" (GameServer.rooms (fst (GameServer.run rejoinTrace GameServer.new)))
  = Some (EventLoop.room rejoined) /\
  EventLoop.timers fallen = [(4005%Z, Respawn "player_2" 1)] /\
  option_map GamePlayer.isAlive
    (JsMap.get "player_2" (GameRoom.players (EventLoop.room fallen))) = Some false /\
  option_map GamePlayer.obj
    (JsMap.get "player_2" (GameRoom.players (EventLoop.room rejoined))) = Some 2 /\
  EventLoop.fire 4004 0 7 rejoined = None /\
  option_map snd (EventLoop.fire 4005 0 7 rejoined)
  = Some [Broadcast [1; 2] (PlayerRespawned "player_2" (-15, 0.9, 0)%float)] /\
  option_map
    (fun res =>
       option_map (fun p => (GamePlayer.health p, GamePlayer.position p))
         (JsMap.get "player_2" (GameRoom.players (EventLoop.room (fst res)))))
    (EventLoop.fire 4005 0 7 rejoined)
  = Some (Some (10%float, (0, 0.9, 0)%float)).
Proof. vm_compute. repeat split. Qed.

(** ** Rooms of a connection *)

(** C9: after one connection has sent [create_room] twice, its player is in
    the player maps of both rooms while its record names the second room
    only; when the connection closes, the player stays in the first room's
    map for good. *)
Theorem second_room_keeps_first_membership :
  GameServer.roomsHolding "player_1" twoRooms = ["AAAAAA"; "BBBBBB"] /\
  option_map Player.roomId (JsMap.get 1 (GameServer.players twoRooms))
  = Some (Some "BBBBBB") /\
  let closed := fst (GameServer.step (GameServer.Close 1) twoRooms) in
  GameServer.players closed = [] /\
  GameServer.roomsHolding "player_1" closed = ["AAAAAA"].
Proof. vm_compute. repeat split. Qed.

(** ** A member's shots among the other operations *)

Lemma updateBullets_effects (now : Z) (r : GameRoom.t) :
  forallb fromTick (snd (GameRoom.updateBullets now r)) = true.
Proof.
  assert (Hc : forall x, forallb fromTick (snd (GameRoom.checkForVictory x)) = true).
  { intros x. unfold GameRoom.checkForVictory.
    destruct (GameRoom.gameEnded x); [reflexivity|].
    destruct (GameRoom.winnerOf _); reflexivity. }
  assert (Ha : forall b p x, forallb fromTick (snd (GameRoom.award b p x)) = true).
  { intros b p x. unfold GameRoom.award.
    destruct (JsMap.get _ _); [|reflexivity].
    destruct (negb _); [|reflexivity].
    destruct (GameRoom.gameEnded x); [reflexivity|].
    match goal with
    | |- context [GameRoom.checkForVictory ?y] =>
        pose proof (Hc y) as H; destruct (GameRoom.checkForVictory y) as [rc ev]
    end.
    simpl in *. exact H. }
  assert (Hh : forall b k p x, forallb fromTick (snd (GameRoom.hit b k p x)) = true).
  { intros b k p x. unfold GameRoom.hit.
    destruct (PrimFloat.leb _ _); [|reflexivity].
    unfold GameRoom.eliminate.
    match goal with
    | |- context [GameRoom.award ?b' ?p' ?y] =>
        pose proof (Ha b' p' y) as H; destruct (GameRoom.award b' p' y) as [r1 e1]
    end.
    simpl in *. rewrite forallb_app, H. reflexivity. }
  assert (Hs : forall b x, forallb fromTick (snd (GameRoom.stepBullet now b x)) = true).
  { intros b x. unfold GameRoom.stepBullet.
    destruct (_ <? _)%Z; [reflexivity|].
    destruct (find _ _) as [[k p]|]; [|reflexivity].
    pose proof (Hh (GameRoom.advance now b) k p x) as H.
    destruct (GameRoom.hit _ _ _ _) as [r1 e]. exact H. }
  unfold GameRoom.updateBullets.
  assert (Hscan : forall bs x, forallb fromTick (snd (GameRoom.scanBullets now bs x)) = true).
  { induction bs as [|[k0 b0] rest IH]; intros x; simpl; [reflexivity|].
    pose proof (Hs b0 x) as H1.
    destruct (GameRoom.stepBullet now b0 x) as [[[b1 r1] fate] e1].
    pose proof (IH r1) as H2.
    destruct (GameRoom.scanBullets now rest r1) as [[[rest1 r2] rm] e2].
    simpl in *. now rewrite forallb_app, H1, H2. }
  pose proof (Hscan (GameRoom.bullets r) r) as H.
  destruct (GameRoom.scanBullets now (GameRoom.bullets r) r) as [[[bs r1] rm] e].
  exact H.
Qed.

Lemma firedBy_app (playerId : string) (e1 e2 : list Effect) :
  firedBy playerId (e1 ++ e2) = firedBy playerId e1 + firedBy playerId e2.
Proof. unfold firedBy. now rewrite filter_app, length_app. Qed.

Lemma firedBy_tick (playerId : string) (es : list Effect) :
  forallb fromTick es = true -> firedBy playerId es = 0.
Proof.
  unfold firedBy. induction es as [|e es IH]; simpl; [reflexivity|].
  intros H. apply andb_true_iff in H. destruct H as [He Hes].
  destruct e as [to m | ws m | task delay]; try discriminate;
    [destruct m; try discriminate|]; simpl; auto.
Qed.

Lemma firedBy_sends {A : Type} (playerId : string) (ws : nat) (f : A -> Msg)
  (l : list A) :
  firedBy playerId (map (fun x => Send ws (f x)) l) = 0.
Proof. induction l as [|x l IH]; [reflexivity | exact IH]. Qed.

Lemma lastShotOf_set_other (playerId k : string) (v : GamePlayer.t) (r : GameRoom.t) :
  k <> playerId ->
  lastShotOf playerId
    (GameRoom.set_players (JsMap.set k v (GameRoom.players r)) r)
  = lastShotOf playerId r.
Proof.
  intros H. unfold lastShotOf. simpl. rewrite get_set_other; auto.
Qed.

Lemma lastShotOf_set_same (playerId : string) (v v' : GamePlayer.t) (r : GameRoom.t) :
  JsMap.get playerId (GameRoom.players r) = Some v ->
  GamePlayer.lastShotTime v' = GamePlayer.lastShotTime v ->
  lastShotOf playerId
    (GameRoom.set_players (JsMap.set playerId v' (GameRoom.players r)) r)
  = lastShotOf playerId r.
Proof.
  intros G H. unfold lastShotOf. simpl. rewrite get_set_same, G. simpl.
  now rewrite H.
Qed.

Lemma lastShotOf_set (playerId k : string) (v v' : GamePlayer.t) (r : GameRoom.t) :
  JsMap.get k (GameRoom.players r) = Some v ->
  GamePlayer.lastShotTime v' = GamePlayer.lastShotTime v ->
  lastShotOf playerId
    (GameRoom.set_players (JsMap.set k v' (GameRoom.players r)) r)
  = lastShotOf playerId r.
Proof.
  intros G H. destruct (String.eqb k playerId) eqn:E.
  - apply String.eqb_eq in E; subst k. now apply lastShotOf_set_same with v.
  - apply String.eqb_neq in E. now apply lastShotOf_set_other.
Qed.

(** An operation that is foreign to a member leaves its last-shot time as
    it is and broadcasts no [bullet_fired] for it. *)
Lemma foreign_step (playerId : string) (op : GameRoom.Op) (r : GameRoom.t) :
  WellFormed r -> foreign playerId op ->
  lastShotOf playerId (fst (GameRoom.step op r)) = lastShotOf playerId r /\
  firedBy playerId (snd (GameRoom.step op r)) = 0.
Proof.
  intros [Hp _] F.
  destruct op as [player|k|player|now now' bd|now|[k player] roll]; simpl in *.
  - split.
    + unfold GameRoom.addPlayer. simpl.
      unfold lastShotOf. simpl. now rewrite get_set_other by auto.
    + unfold GameRoom.addPlayer. simpl snd.
      change (firedBy playerId (?a :: ?b :: ?l)) with (firedBy playerId l).
      rewrite firedBy_app.
      change (firedBy playerId (?a :: ?l)) with (firedBy playerId l).
      rewrite firedBy_sends.
      match goal with
      | |- context [if ?c then _ else _] => destruct c
      end; reflexivity.
  - unfold GameRoom.removePlayer.
    destruct (JsMap.get _ _); [|now split].
    split; [|reflexivity].
    unfold lastShotOf. simpl. now rewrite get_delete_other by auto.
  - unfold GameRoom.broadcastPlayerUpdate.
    destruct (JsMap.get _ _) as [gp|] eqn:G; [|now split].
    split; [|reflexivity]. simpl. now apply lastShotOf_set with gp.
  - unfold GameRoom.handleBullet, GameRoom.rateLimit.
    assert (E : String.eqb (BulletData.playerId bd) playerId = false)
      by now apply String.eqb_neq.
    destruct (JsMap.get _ _) as [p|].
    + destruct (_ <? _)%Z; [now split|].
      destruct (PrimFloat.leb _ _); simpl;
        (split; [now apply lastShotOf_set_other|]);
        [reflexivity | unfold firedBy; simpl; now rewrite E].
    + destruct (PrimFloat.leb _ _); simpl; (split; [reflexivity|]);
        [reflexivity | unfold firedBy; simpl; now rewrite E].
  - split.
    + unfold lastShotOf. apply view_lookup.
      apply updateBullets_view; auto.
    + apply firedBy_tick, updateBullets_effects.
  - unfold GameRoom.respawn, JsMap.has.
    destruct (JsMap.get _ _) as [p|] eqn:G; [|now split].
    destruct (Nat.eqb _ _); [|now split].
    split; [|reflexivity]. simpl. now apply lastShotOf_set with p.
Qed.

Lemma handleBullet_firedBy (playerId : string) (now now' : Z) (bd : BulletData.t)
  (r : GameRoom.t) :
  firedBy playerId (snd (GameRoom.handleBullet now now' bd r)) <= 1.
Proof.
  unfold GameRoom.handleBullet.
  destruct (GameRoom.rateLimit _ _ _) as [r1|]; [|unfold firedBy; simpl; lia].
  destruct (PrimFloat.leb _ _); unfold firedBy; simpl; [lia|].
  destruct (String.eqb _ _); simpl; lia.
Qed.

(** Once the member's last-shot time lies in the window, nothing of the
    member's is fired for the rest of the window. *)
Lemma window_spent (playerId : string) (w : Z) (ops : list GameRoom.Op) :
  forall (r : GameRoom.t) (last : Z),
    WellFormed r ->
    lastShotOf playerId r = Some last -> (w <= last)%Z ->
    Forall (fun op => shotInWindow playerId w op \/ foreign playerId op) ops ->
    firedBy playerId (snd (GameRoom.run ops r)) = 0.
Proof.
  induction ops as [|op rest IH]; intros r last W L Hw F; [reflexivity|].
  inversion F as [|? ? Hop F']; subst. simpl.
  pose proof (step_WellFormed op r W) as W1.
  destruct Hop as [S | Fo].
  - destruct op as [?|?|?|now now' bd|?|? ?]; simpl in S; try contradiction.
    destruct S as [Hp Hn]. simpl in *.
    unfold lastShotOf in L.
    destruct (JsMap.get playerId (GameRoom.players r)) as [p|] eqn:G;
      [|discriminate].
    injection L as L.
    rewrite (handleBullet_limited now now' bd p r) in * by (rewrite ?Hp; auto; lia).
    specialize (IH r last W).
    destruct (GameRoom.run rest r) as [r2 e2]. simpl.
    apply IH; auto. unfold lastShotOf. now rewrite G, <- L.
  - destruct (foreign_step playerId op r W Fo) as [Hl Hf].
    destruct (GameRoom.step op r) as [r1 e1]. simpl in *.
    specialize (IH r1 last W1).
    destruct (GameRoom.run rest r1) as [r2 e2]. simpl in *.
    rewrite firedBy_app, Hf, IH; auto. congruence.
Qed.

(** Within the window at most one bullet of the member is fired, whatever
    else happens in the room meanwhile. *)
Lemma window_one_shot (playerId : string) (w : Z) (ops : list GameRoom.Op) :
  forall (r : GameRoom.t) (last : Z),
    WellFormed r ->
    lastShotOf playerId r = Some last ->
    Forall (fun op => shotInWindow playerId w op \/ foreign playerId op) ops ->
    firedBy playerId (snd (GameRoom.run ops r)) <= 1.
Proof.
  induction ops as [|op rest IH]; intros r last W L F;
    [unfold firedBy; simpl; lia|].
  inversion F as [|? ? Hop F']; subst. simpl.
  pose proof (step_WellFormed op r W) as W1.
  destruct Hop as [S | Fo].
  - destruct op as [?|?|?|now now' bd|?|? ?]; simpl in S; try contradiction.
    destruct S as [Hp Hn]. simpl in *.
    pose proof L as L0. unfold lastShotOf in L0.
    destruct (JsMap.get playerId (GameRoom.players r)) as [p|] eqn:G;
      [|discriminate].
    injection L0 as L0. rewrite <- Hp in G.
    destruct (Z.lt_ge_cases (now - GamePlayer.lastShotTime p) 100) as [Hl | Hl].
    + rewrite (handleBullet_limited now now' bd p r G Hl) in *.
      specialize (IH r last W L F').
      destruct (GameRoom.run rest r) as [r2 e2]. exact IH.
    + pose proof (handleBullet_stamps now now' bd p r G Hl) as G1.
      pose proof (handleBullet_firedBy playerId now now' bd r) as H1.
      destruct (GameRoom.handleBullet now now' bd r) as [r1 e1]. simpl in *.
      pose proof (window_spent playerId w rest r1 now W1) as H2.
      destruct (GameRoom.run rest r1) as [r2 e2]. simpl in *.
      rewrite firedBy_app, H2; [lia | | lia | exact F'].
      unfold lastShotOf. rewrite <- Hp, G1. reflexivity.
  - destruct (foreign_step playerId op r W Fo) as [Hl Hf].
    destruct (GameRoom.step op r) as [r1 e1]. simpl in *.
    specialize (IH r1 last W1).
    destruct (GameRoom.run rest r1) as [r2 e2]. simpl in *.
    rewrite firedBy_app, Hf. apply IH; auto. congruence.
Qed.

(** What the rate limit does ensure, for a member whose record stays in the
    player map: a submission that arrives less than 100 ms after the
    record's last-shot time changes nothing in the room and causes no effect
    at all (no bullet, no broadcast, nothing sent to the client); of any
    number of consecutive submissions of one member whose clock readings lie
    within one 50 ms window (twenty, say) at most one is broadcast as
    [bullet_fired] and at most one bullet is added to the map; and the same
    bound on the member's [bullet_fired] broadcasts holds when ticks, timers
    and the other members' operations come in between. *)
Theorem rate_limit_drops_and_caps :
  (forall (r : GameRoom.t) (now now' : Z) (bd : BulletData.t) (player : GamePlayer.t),
      JsMap.get (BulletData.playerId bd) (GameRoom.players r) = Some player ->
      (now - GamePlayer.lastShotTime player < 100)%Z ->
      GameRoom.handleBullet now now' bd r = (r, [])) /\
  (forall (r : GameRoom.t) (playerId : string) (player : GamePlayer.t) (w : Z)
          (subs : list Shot),
      JsMap.get playerId (GameRoom.players r) = Some player ->
      Forall (fun s => BulletData.playerId (snd s) = playerId /\
                       (w <= fst (fst s) <= w + 50)%Z) subs ->
      let res := GameRoom.run (map shotOp subs) r in
      firedBroadcasts (snd res) <= 1 /\
      List.length (GameRoom.bullets (fst res))
      <= List.length (GameRoom.bullets r) + 1) /\
  (forall (r : GameRoom.t) (playerId : string) (player : GamePlayer.t) (w : Z)
          (ops : list GameRoom.Op),
      WellFormed r ->
      JsMap.get playerId (GameRoom.players r) = Some player ->
      Forall (fun op => shotInWindow playerId w op \/ foreign playerId op) ops ->
      firedBy playerId (snd (GameRoom.run ops r)) <= 1).
Proof.
  split; [|split].
  - intros r now now' bd player G L. now apply handleBullet_limited with player.
  - intros r playerId player w subs G F res. subst res.
    now apply shots_in_window with playerId w player.
  - intros r playerId player w ops W G F.
    apply window_one_shot with w (GamePlayer.lastShotTime player); auto.
    unfold lastShotOf. now rewrite G.
Qed.

Lemma rate_limit_drops_and_caps_witness :
  List.length burst = 20 /\
  (firedBroadcasts (snd (GameRoom.run (map shotOp burst) (lobby 2))) <= 1 /\
   List.length (GameRoom.bullets (fst (GameRoom.run (map shotOp burst) (lobby 2))))
   <= List.length (GameRoom.bullets (lobby 2)) + 1) /\
  firedBy "player_1" (snd (GameRoom.run burstWithTicks (lobby 2))) <= 1.
Proof.
  assert (B : Forall (fun s : Shot => BulletData.playerId (snd s) = "player_1" /\
                                      (1000 <= fst (fst s) <= 1000 + 50)%Z) burst).
  { unfold burst. apply Forall_forall. intros s Hs.
    apply in_map_iff in Hs. destruct Hs as [i [<- Hi]].
    apply in_seq in Hi. cbn [fst snd BulletData.playerId].
    split; [reflexivity | lia]. }
  split; [reflexivity | split].
  - apply (proj1 (proj2 rate_limit_drops_and_caps) (lobby 2) "player_1"
             (GamePlayer.mk 0 "player_1" "Player 1" 1 (0, 0.9, 0)%float
                (0, 0, 0)%float 100%float "#ff4444" 0%Z true 0%Z Red)
             1000%Z burst); [reflexivity | exact B].
  - apply (proj2 (proj2 rate_limit_drops_and_caps) (lobby 2) "player_1"
             (GamePlayer.mk 0 "player_1" "Player 1" 1 (0, 0.9, 0)%float
                (0, 0, 0)%float 100%float "#ff4444" 0%Z true 0%Z Red)
             1000%Z burstWithTicks).
    + apply run_WellFormed, new_WellFormed.
    + reflexivity.
    + unfold burstWithTicks. apply Forall_forall. intros op Hop.
      apply in_flat_map in Hop. destruct Hop as [s [Hs [<- | [<- | []]]]].
      * left. rewrite Forall_forall in B. exact (B s Hs).
      * right. exact I.
Defined.

(** C7: a submission less than 100 ms after the player's last accepted shot
    is not always dropped.  The last-shot time lives in the member record,
    and [join_room] puts a new record (last-shot time 0) under the same id
    without asking whether the sender is a member already.  One connection
    creates a room, fires at 1000 ms, sends [join_room] for its room at
    1001 ms and fires at 1002 ms: both shots are stored and broadcast, 2 ms
    apart.  Without the [join_room] the second shot is dropped. *)
Theorem rejoin_resets_rate_limit :
  filter isBulletFired (snd (GameServer.run quickRejoin GameServer.new))
  = [Broadcast [1]
       (BulletFired "b1" "player_1" (0, 0.9, 0)%float (0, 0, 1)%float "rifle"
          120%float 35%float);
     Broadcast [1]
       (BulletFired "b2" "player_1" (0, 0.9, 0)%float (0, 0, 1)%float "rifle"
          120%float 35%float)] /\
  roomA (fst (GameServer.run (firstn 3 quickRejoin) GameServer.new))
  = Some (["b1"], Some 1000%Z) /\
  roomA (fst (GameServer.run (firstn 4 quickRejoin) GameServer.new))
  = Some (["b1"], Some 0%Z) /\
  roomA (fst (GameServer.run quickRejoin GameServer.new))
  = Some (["b1"; "b2"], Some 1002%Z) /\
  firedBroadcasts (snd (GameServer.run twoShots GameServer.new)) = 1 /\
  roomA (fst (GameServer.run twoShots GameServer.new))
  = Some (["b1"], Some 1000%Z).
Proof. vm_compute. repeat split. Qed.

(** * Further properties of the room and the server *)

(** ** Joining and leaving *)

Lemma set_fresh {V : Type} (k : string) (v : V) (m : JsMap.t string V) :
  JsMap.get k m = None -> JsMap.set k v m = m ++ [(k, v)].
Proof.
  induction m as [|[k' v'] m IH]; simpl; [reflexivity|].
  destruct (String.eqb k k'); [discriminate|].
  intros H. now rewrite IH.
Qed.

Lemma delete_set {V : Type} (k : string) (v : V) (m : JsMap.t string V) :
  JsMap.delete k (JsMap.set k v m) = JsMap.delete k m.
Proof.
  induction m as [|[k' v'] m IH]; simpl.
  - now rewrite String.eqb_refl.
  - destruct (String.eqb k k') eqn:E; simpl; rewrite E; [reflexivity|].
    now rewrite IH.
Qed.

Lemma delete_absent {V : Type} (k : string) (m : JsMap.t string V) :
  JsMap.get k m = None -> JsMap.delete k m = m.
Proof.
  induction m as [|[k' v'] m IH]; simpl; [reflexivity|].
  destruct (String.eqb k k'); [discriminate|].
  intros H. now rewrite IH.
Qed.

Lemma parity_succ (n : nat) :
  Nat.eqb (Nat.modulo (S n) 2) 0 = negb (Nat.eqb (Nat.modulo n 2) 0).
Proof.
  pose proof (Nat.div_mod_eq n 2) as Hn.
  pose proof (Nat.mod_upper_bound n 2 ltac:(discriminate)) as Hb.
  assert (H : Nat.modulo n 2 = 0 \/ Nat.modulo n 2 = 1) by lia.
  destruct H as [H | H]; rewrite H in *.
  - rewrite <- (Nat.mod_unique (S n) 2 (n / 2) 1); [reflexivity | lia | lia].
  - rewrite <- (Nat.mod_unique (S n) 2 (S (n / 2)) 0); [reflexivity | lia | lia].
Qed.

Lemma addPlayer_roster_fresh (p : Player.t) (r : GameRoom.t) :
  JsMap.get (Player.id p) (GameRoom.players r) = None ->
  roster (fst (GameRoom.addPlayer p r))
  = roster r ++ [(Player.id p, GameRoom.assignPlayerTeam r)] /\
  GameRoom.assignPlayerTeam (fst (GameRoom.addPlayer p r))
  = otherTeam (GameRoom.assignPlayerTeam r).
Proof.
  intros G. split.
  - unfold GameRoom.addPlayer, roster, view. simpl.
    rewrite set_fresh by exact G. now rewrite map_app.
  - unfold GameRoom.addPlayer, GameRoom.assignPlayerTeam, JsMap.size.
    cbn [fst GameRoom.players GameRoom.set_players GameRoom.set_nextObj].
    rewrite set_fresh by exact G.
    rewrite length_app. cbn [List.length]. rewrite Nat.add_1_r, parity_succ.
    now destruct (Nat.eqb _ 0).
Qed.

Lemma run_cons (op : GameRoom.Op) (rest : list GameRoom.Op) (r : GameRoom.t) :
  fst (GameRoom.run (op :: rest) r)
  = fst (GameRoom.run rest (fst (GameRoom.step op r))) /\
  snd (GameRoom.run (op :: rest) r)
  = snd (GameRoom.step op r) ++ snd (GameRoom.run rest (fst (GameRoom.step op r))).
Proof.
  simpl. destruct (GameRoom.step op r) as [r1 e1]. simpl.
  destruct (GameRoom.run rest r1) as [r2 e2]. now split.
Qed.

Lemma joins_roster (ps : list Player.t) :
  forall r,
    NoDup (map Player.id ps) ->
    (forall p, In p ps -> JsMap.get (Player.id p) (GameRoom.players r) = None) ->
    roster (fst (GameRoom.run (joins ps) r))
    = roster r ++ alternate (GameRoom.assignPlayerTeam r) ps.
Proof.
  induction ps as [|p rest IH]; intros r Hnd Hfresh.
  - simpl. now rewrite app_nil_r.
  - inversion Hnd as [|? ? Hnotin Hnd']; subst.
    destruct (addPlayer_roster_fresh p r (Hfresh p (or_introl eq_refl)))
      as [Hr Ht].
    assert (Hfresh' : forall q, In q rest ->
              JsMap.get (Player.id q)
                (GameRoom.players (fst (GameRoom.addPlayer p r))) = None).
    { intros q Hq. unfold GameRoom.addPlayer. simpl.
      rewrite get_set_other; [apply Hfresh; now right|].
      intros Heq. apply Hnotin. rewrite <- Heq. now apply in_map. }
    specialize (IH (fst (GameRoom.addPlayer p r)) Hnd' Hfresh').
    change (joins (p :: rest)) with (GameRoom.OpAddPlayer p :: joins rest).
    rewrite (proj1 (run_cons _ _ _)).
    change (GameRoom.step (GameRoom.OpAddPlayer p) r) with (GameRoom.addPlayer p r).
    rewrite IH, Hr, Ht, <- app_assoc. reflexivity.
Qed.

(** X1: when connection records with pairwise different ids join a new room
    one after the other, the room's members are these ids in joining order
    and their teams alternate, starting with red. *)
Theorem joiners_alternate_teams :
  forall (code : string) (ps : list Player.t),
    NoDup (map Player.id ps) ->
    roster (fst (GameRoom.run (joins ps) (GameRoom.new code)))
    = alternate Red ps.
Proof.
  intros code ps Hnd.
  rewrite (joins_roster ps (GameRoom.new code) Hnd); [reflexivity|].
  intros p _. reflexivity.
Qed.

Lemma joiners_alternate_teams_witness :
  roster (fst (GameRoom.run (joins [guest 1; guest 2; guest 3]) (GameRoom.new "AAAAAA")))
  = [("player_1", Red); ("player_2", Blue); ("player_3", Red)].
Proof.
  apply (joiners_alternate_teams "AAAAAA" [guest 1; guest 2; guest 3]).
  repeat constructor; simpl; intuition discriminate.
Defined.

(** X2: a join followed by the leave of the same id leaves the member list
    as it was without that id: exactly as it was when the id was new, and
    without the earlier record when the id was a member already.  Bullets,
    counters and flag are as before, and the leave is broadcast. *)
Theorem join_then_leave :
  forall (p : Player.t) (r : GameRoom.t),
    let r1 := fst (GameRoom.addPlayer p r) in
    let res := GameRoom.removePlayer (Player.id p) r1 in
    GameRoom.players (fst res) = JsMap.delete (Player.id p) (GameRoom.players r) /\
    (if JsMap.has (Player.id p) (GameRoom.players r) then True
     else GameRoom.players (fst res) = GameRoom.players r) /\
    GameRoom.bullets (fst res) = GameRoom.bullets r /\
    GameRoom.teamScores (fst res) = GameRoom.teamScores r /\
    GameRoom.gameEnded (fst res) = GameRoom.gameEnded r /\
    snd res = [Broadcast (GameRoom.recipients None (fst res))
                 (PlayerLeft (Player.id p))].
Proof.
  intros p r r1 res. subst r1 res.
  unfold GameRoom.removePlayer, GameRoom.addPlayer. simpl.
  rewrite get_set_same. simpl. rewrite delete_set.
  repeat split.
  unfold JsMap.has.
  destruct (JsMap.get (Player.id p) (GameRoom.players r)) eqn:G; [exact I|].
  now apply delete_absent.
Qed.

Lemma notices_of_sends (ws : nat) (l : list (string * GamePlayer.t)) :
  filter isVictoryNotice (map (fun kv => Send ws (GameRoom.joinedMsg kv)) l) = [].
Proof. induction l as [|x l IH]; [reflexivity | exact IH]. Qed.

(** The only [team_victory] a join sends is the one for the late joiner. *)
Lemma addPlayer_notices (player : Player.t) (r : GameRoom.t) :
  filter isVictoryNotice (snd (GameRoom.addPlayer player r))
  = if GameRoom.gameEnded r
       && ((GameRoom.scoreLimit <=? red (GameRoom.teamScores r))%Z
           || (GameRoom.scoreLimit <=? blue (GameRoom.teamScores r))%Z)
    then [Send (Player.ws player)
            (TeamVictory
               (if (GameRoom.scoreLimit <=? red (GameRoom.teamScores r))%Z
                then Red else Blue)
               (GameRoom.teamScores r)
               (GameRoom.victoryMessage
                  (if (GameRoom.scoreLimit <=? red (GameRoom.teamScores r))%Z
                   then Red else Blue)))]
    else [].
Proof.
  unfold GameRoom.addPlayer.
  cbn [snd fst GameRoom.gameEnded GameRoom.teamScores GameRoom.set_nextObj
       GameRoom.set_players].
  rewrite !filter_app, notices_of_sends.
  destruct (GameRoom.gameEnded r && _); reflexivity.
Qed.

(** X3: in a room that was started by [new], a join sends the joiner one
    [team_victory] when the game has ended and none otherwise; the message
    carries the room's counters and names a team whose counter has reached
    the limit. *)
Theorem late_joiner_learns_victory :
  forall (code : string) (ops : list GameRoom.Op) (player : Player.t),
    let r := fst (GameRoom.run ops (GameRoom.new code)) in
    let e := snd (GameRoom.addPlayer player r) in
    victoryNotices e = Nat.b2n (GameRoom.gameEnded r) /\
    Forall (fun x =>
              match x with
              | Send ws (TeamVictory w s _) =>
                  ws = Player.ws player /\ s = GameRoom.teamScores r /\
                  (GameRoom.scoreLimit <= scoreOf w s)%Z
              | _ => True
              end) e.
Proof.
  intros code ops player r e.
  assert (D : Decided r).
  { destruct (run_Orderly ops (GameRoom.new code)) as [_ Hd]. now apply Hd. }
  pose proof (addPlayer_notices player r) as N. fold e in N.
  unfold Decided in D.
  split.
  - unfold victoryNotices. rewrite N, <- D.
    destruct (GameRoom.gameEnded r); reflexivity.
  - apply Forall_forall. intros x Hx.
    destruct x as [to m | ws m | task delay]; try exact I.
    destruct m; try exact I.
    assert (Hf : In (Send ws (TeamVictory winningTeam finalScores message))
                   (filter isVictoryNotice e)).
    { apply filter_In. now split. }
    rewrite N, <- D in Hf.
    destruct (GameRoom.gameEnded r) eqn:E; simpl in Hf; [|contradiction].
    destruct Hf as [Hf | []]. injection Hf as <- <- <- _.
    repeat split. unfold scoreOf.
    destruct (GameRoom.scoreLimit <=? red (GameRoom.teamScores r))%Z eqn:Er.
    + now apply Z.leb_le.
    + try rewrite Er in D. simpl in D. symmetry in D. now apply Z.leb_le.
Qed.

Lemma others_of_set (k : string) (v : GamePlayer.t)
  (m : JsMap.t string GamePlayer.t) :
  filter (fun kv => negb (String.eqb (fst kv) k)) (JsMap.set k v m)
  = filter (fun kv => negb (String.eqb (fst kv) k)) m.
Proof.
  induction m as [|[k' p] m IH]; simpl.
  - now rewrite String.eqb_refl.
  - destruct (String.eqb k k') eqn:E; simpl.
    + rewrite String.eqb_sym, E. reflexivity.
    + rewrite String.eqb_sym, E. simpl. now rewrite IH.
Qed.

(** X4: a position update writes the reported position, rotation and health
    into the sender's record and touches nothing else.  The sender's record
    keeps every other field (identity, name, socket, colour, score, alive
    flag, last-shot time, team: a dead member stays dead whatever health its
    client reports), the record of every other member is the very record it
    was, the members keep their order, and bullets, counters and flag are as
    before.  One [player_update] goes to the sockets of the other members,
    in map order.  From a sender that is not a member it is a no-op. *)
Theorem position_update_keeps_standing :
  forall (player : Player.t) (r : GameRoom.t),
    let res := GameRoom.broadcastPlayerUpdate player r in
    view standing (fst res) = view standing r /\
    (forall k, k <> Player.id player ->
       JsMap.get k (GameRoom.players (fst res)) = JsMap.get k (GameRoom.players r)) /\
    GameRoom.bullets (fst res) = GameRoom.bullets r /\
    GameRoom.teamScores (fst res) = GameRoom.teamScores r /\
    GameRoom.gameEnded (fst res) = GameRoom.gameEnded r /\
    if JsMap.has (Player.id player) (GameRoom.players r)
    then option_map
           (fun p => (GamePlayer.position p, GamePlayer.rotation p, GamePlayer.health p))
           (JsMap.get (Player.id player) (GameRoom.players (fst res)))
         = Some (Player.position player, Player.rotation player, Player.health player) /\
         snd res
         = [Broadcast
              (map (fun kv => GamePlayer.ws (snd kv))
                 (filter (fun kv => negb (String.eqb (fst kv) (Player.id player)))
                    (GameRoom.players r)))
              (PlayerUpdate (Player.id player) (Player.position player)
                 (Player.rotation player) (Player.health player))]
    else res = (r, []).
Proof.
  intros player r res. subst res.
  unfold GameRoom.broadcastPlayerUpdate, JsMap.has.
  destruct (JsMap.get (Player.id player) (GameRoom.players r)) as [gp|] eqn:G.
  - cbn [fst snd].
    split; [now apply view_set with gp|].
    split; [intros k Hk; cbn [GameRoom.players GameRoom.set_players];
            apply get_set_other; congruence|].
    split; [reflexivity|]. split; [reflexivity|]. split; [reflexivity|].
    split.
    + cbn [GameRoom.players GameRoom.set_players]. now rewrite get_set_same.
    + unfold GameRoom.broadcast, GameRoom.recipients.
      cbn [GameRoom.players GameRoom.set_players]. now rewrite others_of_set.
  - repeat split.
Qed.

(** ** Accounts of a tick *)

(** X5: a tick leaves the member list as it is, entry by entry, up to
    health, alive flag and score: nobody joins, leaves or changes place,
    team, position, rotation, name, socket or last-shot time. *)
Theorem tick_keeps_profiles :
  forall (r : GameRoom.t) (now : Z),
    WellFormed r ->
    view profile (fst (GameRoom.update now r)) = view profile r.
Proof.
  intros r now [Hp _]. unfold GameRoom.update.
  apply updateBullets_view; auto.
Qed.

Lemma tick_keeps_profiles_witness :
  view profile (fst (GameRoom.update 1005 brink)) = view profile brink.
Proof.
  apply (tick_keeps_profiles brink 1005).
  vm_compute. repeat split.
  - repeat constructor; simpl; intuition discriminate.
  - repeat constructor; simpl; intuition discriminate.
  - intros k v [H | []]. now inversion H.
Defined.

Lemma Scored_trans (a b c : TeamScores * bool) :
  Scored a b -> Scored b c -> Scored a c.
Proof.
  intros Hab Hbc. induction Hbc; [exact Hab|].
  apply Scored_kill. now apply IHHbc.
Qed.

Lemma Scored_same (r r' : GameRoom.t) :
  GameRoom.teamScores r' = GameRoom.teamScores r ->
  GameRoom.gameEnded r' = GameRoom.gameEnded r ->
  Scored (tallyOf r) (tallyOf r').
Proof. unfold tallyOf. intros -> ->. apply Scored_none. Qed.

Lemma award_Scored (bullet : Bullet.t) (player : GamePlayer.t) (r : GameRoom.t) :
  Scored (tallyOf r) (tallyOf (fst (GameRoom.award bullet player r))).
Proof.
  unfold GameRoom.award.
  destruct (JsMap.get _ _) as [shooter|]; [|apply Scored_none].
  destruct (negb _); [|apply Scored_none].
  destruct (GameRoom.gameEnded r) eqn:E; [apply Scored_none|].
  match goal with
  | |- context [GameRoom.checkForVictory ?x] =>
      pose proof (checkForVictory_scores x) as Hs;
      pose proof (checkForVictory_flag x) as Hf;
      destruct (GameRoom.checkForVictory x) as [rc ev]
  end.
  simpl in *. unfold tallyOf. rewrite Hs, Hf, E. simpl.
  apply Scored_kill. rewrite <- E. apply Scored_none.
Qed.

Lemma hit_Scored (bullet : Bullet.t) (playerId : string) (player : GamePlayer.t)
  (r : GameRoom.t) :
  Scored (tallyOf r) (tallyOf (fst (GameRoom.hit bullet playerId player r))).
Proof.
  unfold GameRoom.hit.
  destruct (PrimFloat.leb _ _); [|now apply Scored_same].
  unfold GameRoom.eliminate.
  match goal with
  | |- context [GameRoom.award ?b ?p ?x] =>
      pose proof (award_Scored b p x) as H;
      destruct (GameRoom.award b p x) as [r1 e1]
  end.
  exact H.
Qed.

Lemma stepBullet_Scored (now : Z) (bullet : Bullet.t) (r : GameRoom.t) :
  Scored (tallyOf r) (tallyOf (snd (fst (fst (GameRoom.stepBullet now bullet r))))).
Proof.
  unfold GameRoom.stepBullet.
  destruct (_ <? _)%Z; [apply Scored_none|].
  destruct (find _ _) as [[playerId player]|]; [|apply Scored_none].
  pose proof (hit_Scored (GameRoom.advance now bullet) playerId player r) as H.
  destruct (GameRoom.hit _ _ _ _) as [r1 e]. exact H.
Qed.

Lemma scanBullets_Scored (now : Z) (bs : JsMap.t string Bullet.t) :
  forall r,
    Scored (tallyOf r) (tallyOf (snd (fst (fst (GameRoom.scanBullets now bs r))))).
Proof.
  induction bs as [|[k0 b0] rest IH]; intros r; simpl; [apply Scored_none|].
  pose proof (stepBullet_Scored now b0 r) as H1.
  destruct (GameRoom.stepBullet now b0 r) as [[[b1 r1] fate] e1].
  pose proof (IH r1) as H2.
  destruct (GameRoom.scanBullets now rest r1) as [[[rest1 r2] rm] e2].
  simpl in *. eapply Scored_trans; eassumption.
Qed.

Lemma step_Scored (op : GameRoom.Op) (r : GameRoom.t) :
  Scored (tallyOf r) (tallyOf (fst (GameRoom.step op r))).
Proof.
  destruct op as [player|playerId|player|now now' bd|now|[playerId player] roll];
    simpl.
  - now apply Scored_same.
  - unfold GameRoom.removePlayer.
    destruct (JsMap.get _ _); now apply Scored_same.
  - unfold GameRoom.broadcastPlayerUpdate.
    destruct (JsMap.get _ _); now apply Scored_same.
  - unfold GameRoom.handleBullet, GameRoom.rateLimit.
    destruct (JsMap.get _ _) as [p|].
    + destruct (_ <? _)%Z; [apply Scored_none|].
      destruct (PrimFloat.leb _ _); now apply Scored_same.
    + destruct (PrimFloat.leb _ _); now apply Scored_same.
  - unfold GameRoom.update, GameRoom.updateBullets.
    pose proof (scanBullets_Scored now (GameRoom.bullets r) r) as H.
    destruct (GameRoom.scanBullets now (GameRoom.bullets r) r) as [[[bs r1] rm] e].
    exact H.
  - unfold GameRoom.respawn.
    destruct (JsMap.has _ _); [|apply Scored_none].
    destruct (JsMap.get _ _) as [p|]; [|apply Scored_none].
    destruct (Nat.eqb _ _); now apply Scored_same.
Qed.

Lemma run_Scored (ops : list GameRoom.Op) :
  forall r, Scored (tallyOf r) (tallyOf (fst (GameRoom.run ops r))).
Proof.
  induction ops as [|op rest IH]; intros r; [apply Scored_none|].
  rewrite (proj1 (run_cons op rest r)).
  eapply Scored_trans; [apply step_Scored | apply IH].
Qed.

(** X6: in a room that was started by [new], after any operations, each
    counter lies between 0 and 50 and the two never both reach 50: their
    sum is at most 99. *)
Theorem counters_stop_at_limit :
  forall (code : string) (ops : list GameRoom.Op),
    let s := GameRoom.teamScores (fst (GameRoom.run ops (GameRoom.new code))) in
    (0 <= red s <= 50)%Z /\ (0 <= blue s <= 50)%Z /\ (red s + blue s <= 99)%Z.
Proof.
  intros code ops s. subst s.
  pose proof (run_Scored ops (GameRoom.new code)) as H.
  set (r' := fst (GameRoom.run ops (GameRoom.new code))) in *.
  assert (G : forall a b, Scored a b ->
            a = (mkScores 0 0, false) ->
            (0 <= red (fst b) <= 50)%Z /\ (0 <= blue (fst b) <= 50)%Z /\
            (red (fst b) + blue (fst b) <= 99)%Z /\
            (snd b = false -> (red (fst b) < 50)%Z /\ (blue (fst b) < 50)%Z)).
  { intros a b Hs. induction Hs as [a | a s team Hs IH]; intros ->.
    - simpl. lia.
    - destruct (IH eq_refl) as [Hr [Hb [Ht Hopen]]]. simpl in *.
      destruct (Hopen eq_refl) as [Hr' Hb'].
      unfold reached. rewrite winnerOf_reached.
      unfold GameRoom.scoreLimit.
      destruct team; simpl; repeat split; try lia;
        intros Hf; apply orb_false_iff in Hf; destruct Hf as [H1 H2];
        apply Z.leb_gt in H1, H2; lia. }
  destruct (G _ _ H eq_refl) as [Hr [Hb [Ht _]]]. auto.
Qed.

Lemma count_app (p : Effect -> bool) (a b : list Effect) :
  count p (a ++ b) = count p a + count p b.
Proof. unfold count. now rewrite filter_app, length_app. Qed.

Lemma victoryBroadcasts_count (e : list Effect) :
  victoryBroadcasts e = count isVictoryBroadcast e.
Proof. reflexivity. Qed.

Lemma Ledger_app (n m : nat) (r r1 r2 : GameRoom.t) (e1 e2 : list Effect) :
  Ledger n r r1 e1 -> Ledger m r1 r2 e2 -> Ledger (n + m) r r2 (e1 ++ e2).
Proof.
  unfold Ledger, victoryBroadcasts, count.
  intros (A1 & A2 & A3 & A4 & A5 & A6 & A7) (B1 & B2 & B3 & B4 & B5 & B6 & B7).
  rewrite !filter_app, !length_app.
  repeat match goal with |- _ /\ _ => split end; lia.
Qed.

Lemma Ledger_idle (r : GameRoom.t) : Ledger 0 r r [].
Proof. unfold Ledger, count, victoryBroadcasts, total. simpl. lia. Qed.

Lemma Ledger_weaken (n m : nat) (r r' : GameRoom.t) (e : list Effect) :
  n <= m -> Ledger n r r' e -> Ledger m r r' e.
Proof. unfold Ledger. intros H (A1 & A); split; [lia | exact A]. Qed.

Lemma total_bump (team : Team) (s : TeamScores) :
  total (GameRoom.bump team s) = (total s + 1)%Z.
Proof. destruct team; unfold total; simpl; lia. Qed.

Lemma hit_Ledger (bullet : Bullet.t) (playerId : string) (player : GamePlayer.t)
  (r : GameRoom.t) :
  Ledger 1 r (fst (GameRoom.hit bullet playerId player r))
    (snd (GameRoom.hit bullet playerId player r)).
Proof.
  unfold GameRoom.hit.
  destruct (PrimFloat.leb _ _).
  - unfold GameRoom.eliminate, GameRoom.award.
    destruct (JsMap.get _ _) as [shooter|].
    + destruct (negb _).
      * destruct (GameRoom.gameEnded _) eqn:E.
        -- unfold Ledger, count, victoryBroadcasts, total. simpl. lia.
        -- unfold GameRoom.checkForVictory.
           cbn [GameRoom.gameEnded GameRoom.set_teamScores GameRoom.set_players
                GameRoom.teamScores].
           simpl in E. rewrite E.
           destruct (GameRoom.winnerOf _);
             unfold Ledger, count, victoryBroadcasts; simpl;
             rewrite total_bump; repeat split; lia.
      * unfold Ledger, count, victoryBroadcasts, total. simpl. lia.
    + unfold Ledger, count, victoryBroadcasts, total. simpl. lia.
  - unfold Ledger, count, victoryBroadcasts, total. simpl. lia.
Qed.

Lemma stepBullet_Ledger (now : Z) (bullet : Bullet.t) (r : GameRoom.t) :
  Ledger 1 r (snd (fst (fst (GameRoom.stepBullet now bullet r))))
    (snd (GameRoom.stepBullet now bullet r)).
Proof.
  unfold GameRoom.stepBullet.
  destruct (_ <? _)%Z;
    [apply (Ledger_weaken 0); [lia | apply Ledger_idle]|].
  destruct (find _ _) as [[playerId player]|];
    [|apply (Ledger_weaken 0); [lia | apply Ledger_idle]].
  pose proof (hit_Ledger (GameRoom.advance now bullet) playerId player r) as H.
  destruct (GameRoom.hit _ _ _ _) as [r1 e]. exact H.
Qed.

Lemma scanBullets_Ledger (now : Z) (bs : JsMap.t string Bullet.t) :
  forall r,
    Ledger (List.length bs) r
      (snd (fst (fst (GameRoom.scanBullets now bs r))))
      (snd (GameRoom.scanBullets now bs r)).
Proof.
  induction bs as [|[k0 b0] rest IH]; intros r; simpl; [apply Ledger_idle|].
  pose proof (stepBullet_Ledger now b0 r) as H1.
  destruct (GameRoom.stepBullet now b0 r) as [[[b1 r1] fate] e1].
  pose proof (IH r1) as H2.
  destruct (GameRoom.scanBullets now rest r1) as [[[rest1 r2] rm] e2].
  simpl in *. exact (Ledger_app 1 _ _ _ _ _ _ H1 H2).
Qed.

(** X7: the books of a tick.  Among the effects of one [update]: at most one
    [player_hit] per bullet in flight, at most one [player_eliminated] per
    hit, one timer per elimination and no other, every timer a respawn after
    3000 ms, at most one [team_scores_update] per elimination, at most one
    [team_victory] per update of the scores, and the two counters together
    rise by exactly the number of [team_scores_update] broadcasts. *)
Theorem tick_accounting :
  forall (r : GameRoom.t) (now : Z),
    let r' := fst (GameRoom.update now r) in
    let e := snd (GameRoom.update now r) in
    count isHit e <= List.length (GameRoom.bullets r) /\
    count isElimination e <= count isHit e /\
    count isTimer e = count isElimination e /\
    count isRespawnTimer e = count isTimer e /\
    count isScoreUpdate e <= count isElimination e /\
    victoryBroadcasts e <= count isScoreUpdate e /\
    total (GameRoom.teamScores r')
    = (total (GameRoom.teamScores r) + Z.of_nat (count isScoreUpdate e))%Z.
Proof.
  intros r now. unfold GameRoom.update, GameRoom.updateBullets.
  pose proof (scanBullets_Ledger now (GameRoom.bullets r) r) as H.
  destruct (GameRoom.scanBullets now (GameRoom.bullets r) r) as [[[bs r1] rm] e].
  exact H.
Qed.

(** ** Members that are down *)

Lemma vital_set_other (v k : string) (p : GamePlayer.t) (r : GameRoom.t) :
  k <> v ->
  vital v (GameRoom.set_players (JsMap.set k p (GameRoom.players r)) r)
  = vital v r.
Proof.
  intros H. unfold vital. simpl. rewrite get_set_other; auto.
Qed.

Lemma vital_set_same (k : string) (p : GamePlayer.t) (r : GameRoom.t) :
  vital k (GameRoom.set_players (JsMap.set k p (GameRoom.players r)) r)
  = Some (GamePlayer.isAlive p, GamePlayer.health p).
Proof. unfold vital. simpl. now rewrite get_set_same. Qed.

Lemma eliminate_vital (v : string) (bullet : Bullet.t) (playerId : string)
  (player : GamePlayer.t) (r : GameRoom.t) :
  vital v (fst (GameRoom.eliminate bullet playerId player r)) = vital v r.
Proof.
  unfold vital. symmetry.
  apply (view_lookup (fun p => (GamePlayer.isAlive p, GamePlayer.health p))).
  symmetry. apply eliminate_view. reflexivity.
Qed.

Lemma eliminate_strikes (v : string) (bullet : Bullet.t) (playerId : string)
  (player : GamePlayer.t) (r : GameRoom.t) :
  let e := snd (GameRoom.eliminate bullet playerId player r) in
  count (strikes v) e = (if String.eqb playerId v then 1 else 0) /\
  count (isEliminationOf v) e = (if String.eqb playerId v then 1 else 0).
Proof.
  unfold GameRoom.eliminate, GameRoom.award.
  destruct (JsMap.get _ _) as [shooter|].
  - destruct (negb _).
    + destruct (GameRoom.gameEnded r).
      * unfold count. simpl. destruct (String.eqb playerId v); auto.
      * unfold GameRoom.checkForVictory.
        cbn [GameRoom.gameEnded GameRoom.set_teamScores GameRoom.set_players].
        destruct (GameRoom.gameEnded r);
          [|destruct (GameRoom.winnerOf _)];
          unfold count; simpl; destruct (String.eqb playerId v); auto.
    + unfold count. simpl. destruct (String.eqb playerId v); auto.
  - unfold count. simpl. destruct (String.eqb playerId v); auto.
Qed.

Lemma hit_Casualty (v : string) (bullet : Bullet.t) (playerId : string)
  (player : GamePlayer.t) (r : GameRoom.t) :
  JsMap.get playerId (GameRoom.players r) = Some player ->
  GamePlayer.isAlive player = true ->
  Casualty v r (fst (GameRoom.hit bullet playerId player r))
    (snd (GameRoom.hit bullet playerId player r)).
Proof.
  intros G Alive.
  assert (Hne : down v r -> playerId <> v).
  { unfold down, vital. intros D ->. rewrite G in D. simpl in D. congruence. }
  unfold GameRoom.hit.
  set (player1 := GamePlayer.set_health _ player).
  set (r1 := GameRoom.set_players (JsMap.set playerId player1 _) r).
  destruct (PrimFloat.leb _ _).
  - set (player2 := GamePlayer.set_isAlive false player1).
    set (r2 := GameRoom.set_players (JsMap.set playerId player2 _) r1).
    pose proof (eliminate_vital v (bullet) playerId player2 r2) as Hv.
    pose proof (eliminate_strikes v bullet playerId player2 r2) as [Hs He].
    destruct (GameRoom.eliminate bullet playerId player2 r2) as [r3 e2].
    cbn [fst snd] in *. unfold Casualty.
    unfold count in *. cbn [filter strikes isEliminationOf GameRoom.broadcast].
    destruct (String.eqb playerId v) eqn:E.
    + apply String.eqb_eq in E. subst v.
      split; [intros D; now destruct (Hne D)|].
      split; [rewrite He; lia|]. intros _.
      unfold down. rewrite Hv. unfold r2. rewrite vital_set_same. reflexivity.
    + apply String.eqb_neq in E.
      split.
      * intros _. split; [rewrite Hs; reflexivity|].
        rewrite Hv. unfold r2. rewrite vital_set_other by exact E.
        unfold r1. now apply vital_set_other.
      * rewrite He. split; [lia | intros; lia].
  - cbn [fst snd]. unfold Casualty, count.
    cbn [filter strikes isEliminationOf GameRoom.broadcast].
    destruct (String.eqb playerId v) eqn:E.
    + apply String.eqb_eq in E. subst v.
      split; [intros D; now destruct (Hne D)|]. simpl. split; [lia | intros; lia].
    + apply String.eqb_neq in E. simpl.
      split; [|split; [lia | intros; lia]].
      intros _. split; [reflexivity|]. now apply vital_set_other.
Qed.

Lemma Casualty_idle (v : string) (r : GameRoom.t) : Casualty v r r [].
Proof.
  unfold Casualty, count. simpl.
  split; [auto|]. split; [lia | intros; lia].
Qed.

Lemma eliminations_le_strikes (v : string) (e : list Effect) :
  count (isEliminationOf v) e <= count (strikes v) e.
Proof.
  unfold count. induction e as [|x e IH]; simpl; [lia|].
  destruct x as [to m | ws m | task delay]; simpl; try exact IH.
  destruct m; simpl; try exact IH;
    destruct (String.eqb _ v); simpl; lia.
Qed.

Lemma Casualty_trans (v : string) (a b c : GameRoom.t) (e1 e2 : list Effect) :
  Casualty v a b e1 -> Casualty v b c e2 -> Casualty v a c (e1 ++ e2).
Proof.
  unfold Casualty. rewrite !count_app.
  intros (A1 & A2 & A3) (B1 & B2 & B3).
  pose proof (eliminations_le_strikes v e2) as L2.
  split; [|split].
  - intros D. destruct (A1 D) as [S1 V1].
    assert (D' : down v b) by (unfold down in *; now rewrite V1).
    destruct (B1 D') as [S2 V2]. split; [lia | congruence].
  - destruct (Nat.eq_dec (count (isEliminationOf v) e1) 1) as [E|E]; [|lia].
    destruct (B1 (A3 E)) as [S2 _]. lia.
  - intros E.
    destruct (Nat.eq_dec (count (isEliminationOf v) e1) 1) as [E1|E1].
    + pose proof (A3 E1) as D'. destruct (B1 D') as [_ V2].
      unfold down in *. now rewrite V2.
    + apply B3. lia.
Qed.

Lemma isTarget_alive (bullet : Bullet.t) (r : GameRoom.t)
  (kv : string * GamePlayer.t) :
  GameRoom.isTarget bullet r kv = true -> GamePlayer.isAlive (snd kv) = true.
Proof.
  unfold GameRoom.isTarget.
  destruct (String.eqb _ _); simpl; [discriminate|].
  destruct (GamePlayer.isAlive (snd kv)); simpl; [reflexivity | discriminate].
Qed.

Lemma stepBullet_Casualty (v : string) (now : Z) (bullet : Bullet.t)
  (r : GameRoom.t) :
  NoDup (JsMap.keys (GameRoom.players r)) ->
  Casualty v r (snd (fst (fst (GameRoom.stepBullet now bullet r))))
    (snd (GameRoom.stepBullet now bullet r)).
Proof.
  intros Hnd. unfold GameRoom.stepBullet.
  destruct (_ <? _)%Z; [apply Casualty_idle|].
  destruct (find _ _) as [[playerId player]|] eqn:F; [|apply Casualty_idle].
  apply find_some in F. destruct F as [Hin Ht].
  apply isTarget_alive in Ht. simpl in Ht.
  pose proof (hit_Casualty v (GameRoom.advance now bullet) playerId player r
                (In_get_NoDup _ _ _ Hnd Hin) Ht) as H.
  destruct (GameRoom.hit _ _ _ _) as [r1 e]. exact H.
Qed.

Lemma scanBullets_Casualty (v : string) (now : Z) (bs : JsMap.t string Bullet.t) :
  forall r,
    NoDup (JsMap.keys (GameRoom.players r)) ->
    Casualty v r (snd (fst (fst (GameRoom.scanBullets now bs r))))
      (snd (GameRoom.scanBullets now bs r)).
Proof.
  induction bs as [|[k0 b0] rest IH]; intros r Hnd; simpl;
    [apply Casualty_idle|].
  pose proof (stepBullet_Casualty v now b0 r Hnd) as H1.
  pose proof (stepBullet_roster now b0 r Hnd) as R1.
  destruct (GameRoom.stepBullet now b0 r) as [[[b1 r1] fate] e1].
  simpl in H1, R1.
  pose proof (IH r1 (NoDup_roster _ _ R1 Hnd)) as H2.
  destruct (GameRoom.scanBullets now rest r1) as [[[rest1 r2] rm] e2].
  simpl in *. eapply Casualty_trans; eassumption.
Qed.

Lemma update_Casualty (v : string) (now : Z) (r : GameRoom.t) :
  NoDup (JsMap.keys (GameRoom.players r)) ->
  Casualty v r (fst (GameRoom.update now r)) (snd (GameRoom.update now r)).
Proof.
  intros Hnd. unfold GameRoom.update, GameRoom.updateBullets.
  pose proof (scanBullets_Casualty v now (GameRoom.bullets r) r Hnd) as H.
  destruct (GameRoom.scanBullets now (GameRoom.bullets r) r) as [[[bs r1] rm] e].
  exact H.
Qed.

(** X8: a member that is not alive is no target.  No [player_hit] and no
    [player_eliminated] of a tick has it as the victim, and its health and
    alive flag are the same after the tick, whatever bullets are in
    flight. *)
Theorem dead_member_is_never_the_victim :
  forall (r : GameRoom.t) (now : Z) (playerId : string) (health : float),
    NoDup (JsMap.keys (GameRoom.players r)) ->
    vital playerId r = Some (false, health) ->
    count (strikes playerId) (snd (GameRoom.update now r)) = 0 /\
    vital playerId (fst (GameRoom.update now r)) = Some (false, health).
Proof.
  intros r now playerId health Hnd V.
  destruct (update_Casualty playerId now r Hnd) as [H _].
  assert (D : down playerId r) by (unfold down; now rewrite V).
  destruct (H D) as [S E]. split; [exact S | congruence].
Qed.

(** X9: one tick eliminates a member at most once, however many bullets
    reach it, and a member it has eliminated is not alive when the tick is
    over. *)
Theorem eliminated_at_most_once_per_tick :
  forall (r : GameRoom.t) (now : Z) (playerId : string),
    NoDup (JsMap.keys (GameRoom.players r)) ->
    let e := snd (GameRoom.update now r) in
    count (isEliminationOf playerId) e <= 1 /\
    (count (isEliminationOf playerId) e = 1 ->
     option_map GamePlayer.isAlive
       (JsMap.get playerId (GameRoom.players (fst (GameRoom.update now r))))
     = Some false).
Proof.
  intros r now playerId Hnd e.
  destruct (update_Casualty playerId now r Hnd) as (_ & H1 & H2).
  split; [exact H1|]. intros E. specialize (H2 E).
  unfold down, vital in H2.
  destruct (JsMap.get playerId _); simpl in *; [exact H2 | discriminate].
Qed.

Lemma dead_member_is_never_the_victim_witness :
  count (strikes "player_2") (snd (GameRoom.update 1205 overkill)) = 0 /\
  vital "player_2" (fst (GameRoom.update 1205 overkill))
  = Some (false, (-25)%float).
Proof.
  apply (dead_member_is_never_the_victim overkill 1205 "player_2" (-25)%float).
  - vm_compute. repeat constructor; simpl; intuition discriminate.
  - vm_compute. reflexivity.
Defined.

Lemma eliminated_at_most_once_per_tick_witness :
  count (isEliminationOf "player_2") (snd (GameRoom.update 1005 crossfire)) <= 1 /\
  (count (isEliminationOf "player_2") (snd (GameRoom.update 1005 crossfire)) = 1 ->
   option_map GamePlayer.isAlive
     (JsMap.get "player_2"
        (GameRoom.players (fst (GameRoom.update 1005 crossfire))))
   = Some false).
Proof.
  apply (eliminated_at_most_once_per_tick crossfire 1005 "player_2").
  vm_compute. repeat constructor; simpl; intuition discriminate.
Defined.

(** ** More on shot submissions *)

(** X10: a shot submission writes the bullet table and the submitter's
    last-shot time and nothing else: every other field of every member
    (health, alive flag, score, position, team, ...), the order of the
    members, the counters and the flag are as before, and so is the
    last-shot time of everybody else. *)
Theorem shot_touches_only_last_shot_time :
  forall (now now' : Z) (bd : BulletData.t) (r : GameRoom.t),
    let r' := fst (GameRoom.handleBullet now now' bd r) in
    view sansShot r' = view sansShot r /\
    GameRoom.teamScores r' = GameRoom.teamScores r /\
    GameRoom.gameEnded r' = GameRoom.gameEnded r /\
    forall k, k <> BulletData.playerId bd -> lastShotOf k r' = lastShotOf k r.
Proof.
  intros now now' bd r. unfold GameRoom.handleBullet, GameRoom.rateLimit.
  destruct (JsMap.get _ _) as [p|] eqn:G.
  - destruct (_ <? _)%Z; [simpl; auto|].
    assert (V : view sansShot
                  (GameRoom.set_players
                     (JsMap.set (BulletData.playerId bd)
                        (GamePlayer.set_lastShotTime now p) (GameRoom.players r)) r)
                = view sansShot r).
    { apply view_set with p; [exact G | reflexivity]. }
    destruct (PrimFloat.leb _ _); simpl;
      (split; [exact V|]; split; [reflexivity|]; split; [reflexivity|];
       intros k Hk; apply lastShotOf_set_other; congruence).
  - destruct (PrimFloat.leb _ _); simpl; auto.
Qed.

(** X11: bullet ids are one name space for the whole room.  An accepted
    submission under an id that is in flight, whoever owns that bullet,
    takes its place in the table: the table has the same ids in the same
    order, the entry of that id is the new bullet (its owner, start time,
    position and weapon are those of the submission), and every other
    bullet is as before. *)
Theorem bullet_id_in_flight_is_replaced :
  forall (now now' : Z) (bd : BulletData.t) (r : GameRoom.t) (old : Bullet.t),
    JsMap.get (BulletData.id bd) (GameRoom.bullets r) = Some old ->
    snd (GameRoom.handleBullet now now' bd r) <> [] ->
    let r' := fst (GameRoom.handleBullet now now' bd r) in
    JsMap.keys (GameRoom.bullets r') = JsMap.keys (GameRoom.bullets r) /\
    (exists b, JsMap.get (BulletData.id bd) (GameRoom.bullets r') = Some b /\
               Bullet.playerId b = BulletData.playerId bd /\
               Bullet.startTime b = now' /\
               Bullet.position b = BulletData.position bd /\
               Bullet.weapon b = BulletData.weapon bd) /\
    forall k, k <> BulletData.id bd ->
              JsMap.get k (GameRoom.bullets r') = JsMap.get k (GameRoom.bullets r).
Proof.
  intros now now' bd r old G Acc. revert Acc.
  unfold GameRoom.handleBullet.
  destruct (GameRoom.rateLimit now (BulletData.playerId bd) r) as [r1|] eqn:R;
    [|intros H; now destruct H].
  assert (B : GameRoom.bullets r1 = GameRoom.bullets r).
  { unfold GameRoom.rateLimit in R.
    destruct (JsMap.get _ (GameRoom.players r)) as [p|]; [|now injection R as <-].
    destruct (_ <? _)%Z; [discriminate|]. now injection R as <-. }
  destruct (PrimFloat.leb _ _); [intros H; now destruct H|]. intros _.
  cbn [fst GameRoom.bullets GameRoom.set_bullets Bullet.id]. rewrite B.
  split; [|split].
  - apply keys_set_present. unfold JsMap.has. now rewrite G.
  - eexists. split; [apply get_set_same|]. simpl. auto.
  - intros k Hk. apply get_set_other. congruence.
Qed.

Lemma bullet_id_in_flight_is_replaced_witness :
  JsMap.keys (GameRoom.bullets (fst (GameRoom.handleBullet 2000 2000 sameId duel)))
  = JsMap.keys (GameRoom.bullets duel) /\
  (exists b,
     JsMap.get "b1"
       (GameRoom.bullets (fst (GameRoom.handleBullet 2000 2000 sameId duel)))
     = Some b /\
     Bullet.playerId b = "player_2" /\
     Bullet.startTime b = 2000%Z /\
     Bullet.position b = (5, 0.9, 5)%float /\
     Bullet.weapon b = "pistol") /\
  forall k, k <> "b1" ->
    JsMap.get k (GameRoom.bullets (fst (GameRoom.handleBullet 2000 2000 sameId duel)))
    = JsMap.get k (GameRoom.bullets duel).
Proof.
  eapply (bullet_id_in_flight_is_replaced 2000 2000 sameId duel).
  - vm_compute. reflexivity.
  - vm_compute. discriminate.
Defined.

Lemma firedBroadcasts_app (e1 e2 : list Effect) :
  firedBroadcasts (e1 ++ e2) = firedBroadcasts e1 + firedBroadcasts e2.
Proof. unfold firedBroadcasts. now rewrite filter_app, length_app. Qed.

(** X12: the rate limit is kept in the member record, so it binds members
    only.  Submissions in the name of somebody who is not in the player map
    are all accepted, however close in time, as long as their directions
    pass the guard; each is broadcast once, and the player map stays as it
    is. *)
Theorem outsider_is_not_rate_limited :
  forall (playerId : string) (subs : list Shot) (r : GameRoom.t),
    JsMap.get playerId (GameRoom.players r) = None ->
    Forall (fun s => BulletData.playerId (snd s) = playerId /\
                     passesGuard (BulletData.direction (snd s)) = true) subs ->
    firedBroadcasts (snd (GameRoom.run (map shotOp subs) r)) = List.length subs /\
    GameRoom.players (fst (GameRoom.run (map shotOp subs) r)) = GameRoom.players r.
Proof.
  intros playerId subs. induction subs as [|[[now now'] bd] rest IH]; intros r G F.
  - simpl. auto.
  - pose proof (Forall_inv F) as [Hp Hg]. pose proof (Forall_inv_tail F) as F'.
    simpl in Hp, Hg.
    change (map shotOp ((now, now', bd) :: rest))
      with (GameRoom.OpHandleBullet now now' bd :: map shotOp rest).
    destruct (run_cons (GameRoom.OpHandleBullet now now' bd) (map shotOp rest) r)
      as [E1 E2].
    rewrite E1, E2. clear E1 E2.
    change (GameRoom.step (GameRoom.OpHandleBullet now now' bd) r)
      with (GameRoom.handleBullet now now' bd r).
    assert (H : GameRoom.players (fst (GameRoom.handleBullet now now' bd r))
                = GameRoom.players r /\
                firedBroadcasts (snd (GameRoom.handleBullet now now' bd r)) = 1).
    { unfold GameRoom.handleBullet, GameRoom.rateLimit. rewrite Hp, G.
      unfold passesGuard in Hg. apply negb_true_iff in Hg. rewrite Hg.
      split; reflexivity. }
    destruct H as [H1 H2].
    assert (G' : JsMap.get playerId
                   (GameRoom.players (fst (GameRoom.handleBullet now now' bd r)))
                 = None) by (rewrite H1; exact G).
    destruct (IH _ G' F') as [I1 I2].
    rewrite firedBroadcasts_app, H2, I1, I2, H1. simpl. auto.
Qed.

Lemma outsider_is_not_rate_limited_witness :
  firedBroadcasts (snd (GameRoom.run (map shotOp ghostShots) (lobby 2))) = 2 /\
  GameRoom.players (fst (GameRoom.run (map shotOp ghostShots) (lobby 2)))
  = GameRoom.players (lobby 2).
Proof.
  apply (outsider_is_not_rate_limited "ghost" ghostShots (lobby 2)).
  - vm_compute. reflexivity.
  - repeat constructor.
Defined.

(** ** The server's tables *)

Section TableFacts.
Context {K V : Type} {EK : EqKey K}.

Lemma Forall_set (P : K * V -> Prop) (k : K) (v : V) (m : JsMap.t K V) :
  P (k, v) -> Forall P m -> Forall P (JsMap.set k v m).
Proof.
  intros Hv. induction m as [|[k' v'] m IH]; intros F; simpl.
  - constructor; [exact Hv | constructor].
  - pose proof (Forall_inv F) as H1. pose proof (Forall_inv_tail F) as H2.
    destruct (keyb k k') eqn:E.
    + apply keyb_eq in E. subst k'. constructor; assumption.
    + constructor; [exact H1 | now apply IH].
Qed.

Lemma Forall_delete (P : K * V -> Prop) (k : K) (m : JsMap.t K V) :
  Forall P m -> Forall P (JsMap.delete k m).
Proof.
  induction m as [|[k' v'] m IH]; intros F; simpl; [constructor|].
  pose proof (Forall_inv F) as H1. pose proof (Forall_inv_tail F) as H2.
  destruct (keyb k k'); [now apply IH | constructor; [exact H1 | now apply IH]].
Qed.

Lemma length_set_bounds (k : K) (v : V) (m : JsMap.t K V) :
  1 <= List.length (JsMap.set k v m) <= List.length m + 1.
Proof.
  induction m as [|[k' v'] m IH]; simpl; [lia|].
  destruct (keyb k k'); simpl; lia.
Qed.

Lemma length_delete (k : K) (m : JsMap.t K V) :
  List.length (JsMap.delete k m) <= List.length m.
Proof.
  induction m as [|[k' v'] m IH]; simpl; [lia|].
  destruct (keyb k k'); simpl; lia.
Qed.

Lemma map_set_same {A : Type} (f : V -> A) (k : K) (v v' : V) (m : JsMap.t K V) :
  JsMap.get k m = Some v -> f v' = f v ->
  map (fun kv => f (snd kv)) (JsMap.set k v' m) = map (fun kv => f (snd kv)) m.
Proof.
  intros G T. induction m as [|[k' p] m IH]; simpl in *; [discriminate|].
  destruct (keyb k k'); simpl.
  - injection G as ->. now rewrite T.
  - now rewrite IH.
Qed.

Lemma In_map_set {A : Type} (f : V -> A) (x : A) (k : K) (v : V) (m : JsMap.t K V) :
  In x (map (fun kv => f (snd kv)) (JsMap.set k v m)) ->
  x = f v \/ In x (map (fun kv => f (snd kv)) m).
Proof.
  induction m as [|[k' p] m IH]; simpl.
  - intros [H | []]. now left.
  - destruct (keyb k k'); simpl.
    + intros [H | H]; [now left | now right; right].
    + intros [H | H]; [now right; left|].
      destruct (IH H) as [H' | H']; [now left | now right; right].
Qed.

Lemma NoDup_map_set_fresh {A : Type} (f : V -> A) (k : K) (v : V)
  (m : JsMap.t K V) :
  NoDup (map (fun kv => f (snd kv)) m) ->
  ~ In (f v) (map (fun kv => f (snd kv)) m) ->
  NoDup (map (fun kv => f (snd kv)) (JsMap.set k v m)).
Proof.
  induction m as [|[k' p] m IH]; simpl; intros N Hn.
  - constructor; [intros [] | constructor].
  - inversion N as [|x l Hx N']; subst.
    destruct (keyb k k'); simpl.
    + constructor; [tauto | exact N'].
    + constructor.
      * intros Hin. apply In_map_set in Hin. destruct Hin as [H | H]; [|tauto].
        apply Hn. now left.
      * apply IH; [exact N' | tauto].
Qed.

Lemma In_map_delete {A : Type} (f : V -> A) (x : A) (k : K) (m : JsMap.t K V) :
  In x (map (fun kv => f (snd kv)) (JsMap.delete k m)) ->
  In x (map (fun kv => f (snd kv)) m).
Proof.
  induction m as [|[k' p] m IH]; simpl; [tauto|].
  destruct (keyb k k'); simpl; [now right; apply IH|].
  intros [H | H]; [now left | now right; apply IH].
Qed.

Lemma NoDup_map_delete {A : Type} (f : V -> A) (k : K) (m : JsMap.t K V) :
  NoDup (map (fun kv => f (snd kv)) m) ->
  NoDup (map (fun kv => f (snd kv)) (JsMap.delete k m)).
Proof.
  induction m as [|[k' p] m IH]; simpl; intros N; [constructor|].
  inversion N as [|x l Hx N']; subst.
  destruct (keyb k k'); simpl; [now apply IH|].
  constructor; [|now apply IH].
  intros Hin. apply Hx. now apply In_map_delete in Hin.
Qed.

End TableFacts.

Lemma size_keys (r : GameRoom.t) :
  GameRoom.getPlayerCount r = List.length (JsMap.keys (GameRoom.players r)).
Proof.
  unfold GameRoom.getPlayerCount, JsMap.size, JsMap.keys.
  now rewrite length_map.
Qed.

Lemma broadcastPlayerUpdate_keys (player : Player.t) (r : GameRoom.t) :
  JsMap.keys (GameRoom.players (fst (GameRoom.broadcastPlayerUpdate player r)))
  = JsMap.keys (GameRoom.players r).
Proof.
  unfold GameRoom.broadcastPlayerUpdate.
  destruct (JsMap.get _ _) as [p|] eqn:G; [|reflexivity].
  simpl. apply keys_set_present. unfold JsMap.has. now rewrite G.
Qed.

Lemma handleBullet_keys (now now' : Z) (bd : BulletData.t) (r : GameRoom.t) :
  JsMap.keys (GameRoom.players (fst (GameRoom.handleBullet now now' bd r)))
  = JsMap.keys (GameRoom.players r).
Proof.
  unfold GameRoom.handleBullet, GameRoom.rateLimit.
  destruct (JsMap.get _ _) as [p|] eqn:G.
  - destruct (_ <? _)%Z; [reflexivity|].
    destruct (PrimFloat.leb _ _); simpl;
      apply keys_set_present; unfold JsMap.has; now rewrite G.
  - destruct (PrimFloat.leb _ _); reflexivity.
Qed.

Lemma update_keys (now : Z) (r : GameRoom.t) :
  NoDup (JsMap.keys (GameRoom.players r)) ->
  JsMap.keys (GameRoom.players (fst (GameRoom.update now r)))
  = JsMap.keys (GameRoom.players r).
Proof.
  intros Hnd. rewrite !(keys_view GamePlayer.id). f_equal.
  unfold GameRoom.update. apply updateBullets_view; auto.
Qed.

Lemma RoomOK_keys (op : GameRoom.Op) (r : GameRoom.t) :
  JsMap.keys (GameRoom.players (fst (GameRoom.step op r)))
  = JsMap.keys (GameRoom.players r) ->
  RoomOK r -> RoomOK (fst (GameRoom.step op r)).
Proof.
  intros E [W B]. split; [now apply step_WellFormed|].
  now rewrite size_keys, E, <- size_keys.
Qed.

Lemma addPlayer_RoomOK (player : Player.t) (r : GameRoom.t) :
  WellFormed r -> GameRoom.getPlayerCount r < 8 ->
  RoomOK (fst (GameRoom.addPlayer player r)).
Proof.
  intros W B. split; [exact (step_WellFormed (GameRoom.OpAddPlayer player) r W)|].
  unfold GameRoom.getPlayerCount, JsMap.size in *. simpl.
  pose proof (length_set_bounds (Player.id player)
                (GamePlayer.mk (GameRoom.nextObj r) (Player.id player)
                   (Player.name player) (Player.ws player) (Player.position player)
                   (Player.rotation player) (Player.health player)
                   (GameRoom.getTeamColor (GameRoom.assignPlayerTeam r)) 0%Z true 0%Z
                   (GameRoom.assignPlayerTeam r))
                (GameRoom.players r)) as H.
  lia.
Qed.

Lemma removePlayer_RoomOK (playerId : string) (r : GameRoom.t) :
  RoomOK r ->
  Nat.eqb (GameRoom.getPlayerCount (fst (GameRoom.removePlayer playerId r))) 0 = false ->
  RoomOK (fst (GameRoom.removePlayer playerId r)).
Proof.
  intros [W B] N. apply Nat.eqb_neq in N.
  split; [exact (step_WellFormed (GameRoom.OpRemovePlayer playerId) r W)|].
  split; [lia|].
  unfold GameRoom.removePlayer, GameRoom.getPlayerCount, JsMap.size in *.
  destruct (JsMap.get _ _); simpl in *; [|lia].
  pose proof (length_delete playerId (GameRoom.players r)). lia.
Qed.

Lemma updateRooms_RoomOK (clock : nat -> Z) (rs : JsMap.t string GameRoom.t) :
  forall i,
    Forall (fun kv => RoomOK (snd kv)) rs ->
    Forall (fun kv => RoomOK (snd kv)) (fst (GameServer.updateRooms clock i rs)) /\
    JsMap.keys (fst (GameServer.updateRooms clock i rs)) = JsMap.keys rs.
Proof.
  induction rs as [|[c room] rest IH]; intros i F; simpl; [split; auto|].
  pose proof (Forall_inv F) as H1. pose proof (Forall_inv_tail F) as H2.
  simpl in H1.
  pose proof (RoomOK_keys (GameRoom.OpUpdate (clock i)) room
                (update_keys (clock i) room (proj1 (proj1 H1))) H1) as R.
  simpl in R.
  destruct (GameRoom.update (clock i) room) as [room1 e1].
  destruct (IH (S i) H2) as [I1 I2].
  destruct (GameServer.updateRooms clock (S i) rest) as [rest1 e2].
  simpl in *. split; [constructor; assumption | now rewrite I2].
Qed.

Lemma step_RoomsOK (op : GameServer.Op) (s : GameServer.t) :
  Forall (fun kv => RoomOK (snd kv)) (GameServer.rooms s) ->
  Forall (fun kv => RoomOK (snd kv)) (GameServer.rooms (fst (GameServer.step op s))).
Proof.
  intros F.
  assert (Look : forall c room, JsMap.get c (GameServer.rooms s) = Some room ->
                                RoomOK room).
  { intros c room G. apply get_In in G.
    exact (proj1 (Forall_forall _ _) F (c, room) G). }
  destruct op as [ws|ws|env ws message|clock]; simpl.
  - exact F.
  - unfold GameServer.handleDisconnection.
    destruct (JsMap.get ws _) as [player|]; [|exact F].
    destruct (GameServer.currentRoom player) as [roomId|]; [|exact F].
    destruct (JsMap.get roomId _) as [room|] eqn:G; [|exact F].
    pose proof (removePlayer_RoomOK (Player.id player) room (Look _ _ G)) as R.
    destruct (GameRoom.removePlayer (Player.id player) room) as [room1 e].
    simpl in R.
    destruct (Nat.eqb (GameRoom.getPlayerCount room1) 0); simpl.
    + now apply Forall_delete.
    + apply Forall_set; [exact (R eq_refl) | exact F].
  - unfold GameServer.handleMessage.
    destruct (JsMap.get ws _) as [player0|] eqn:G0; [|exact F].
    destruct message as [playerName|code playerName|position rotation health
                        |id position direction weapon|type]; [| | | |exact F].
    + unfold GameServer.handleCreateRoom. rewrite G0.
      match goal with
      | |- context [GameRoom.addPlayer ?p ?r] =>
          pose proof (addPlayer_RoomOK p r (new_WellFormed _)) as R;
          destruct (GameRoom.addPlayer p r) as [room1 e]
      end.
      simpl in *. apply Forall_set; [|exact F]. apply R.
      unfold GameRoom.getPlayerCount. simpl. lia.
    + unfold GameServer.handleJoinRoom. rewrite G0.
      destruct (JsMap.get code _) as [room|] eqn:G; [|exact F].
      destruct (Nat.leb 8 (GameRoom.getPlayerCount room)) eqn:L; [exact F|].
      apply Nat.leb_gt in L.
      match goal with
      | |- context [GameRoom.addPlayer ?p ?r] =>
          pose proof (addPlayer_RoomOK p r (proj1 (Look _ _ G)) L) as R;
          destruct (GameRoom.addPlayer p r) as [room1 e]
      end.
      simpl in *. apply Forall_set; [exact R | exact F].
    + unfold GameServer.handlePlayerUpdate. rewrite G0.
      destruct (GameServer.currentRoom player0) as [roomId|]; [|exact F].
      simpl.
      destruct (JsMap.get roomId _) as [room|] eqn:G; [|exact F].
      match goal with
      | |- context [GameRoom.broadcastPlayerUpdate ?p ?r] =>
          pose proof (RoomOK_keys (GameRoom.OpPlayerUpdate p) r
                        (broadcastPlayerUpdate_keys p r) (Look _ _ G)) as R;
          simpl in R;
          destruct (GameRoom.broadcastPlayerUpdate p r) as [room1 e]
      end.
      simpl in *. apply Forall_set; [exact R | exact F].
    + unfold GameServer.handleBulletFired. rewrite G0.
      destruct (GameServer.currentRoom player0) as [roomId|]; [|exact F].
      destruct (JsMap.get roomId _) as [room|] eqn:G; [|exact F].
      match goal with
      | |- context [GameRoom.handleBullet ?a ?b ?c ?r] =>
          pose proof (RoomOK_keys (GameRoom.OpHandleBullet a b c) r
                        (handleBullet_keys a b c r) (Look _ _ G)) as R;
          simpl in R;
          destruct (GameRoom.handleBullet a b c r) as [room1 e]
      end.
      simpl in *. apply Forall_set; [exact R | exact F].
  - unfold GameServer.updateAllRooms.
    pose proof (updateRooms_RoomOK clock (GameServer.rooms s) 0 F) as [R _].
    destruct (GameServer.updateRooms clock 0 (GameServer.rooms s)) as [rooms1 e].
    exact R.
Qed.

Lemma server_run_cons (op : GameServer.Op) (rest : list GameServer.Op)
  (s : GameServer.t) :
  fst (GameServer.run (op :: rest) s)
  = fst (GameServer.run rest (fst (GameServer.step op s))) /\
  snd (GameServer.run (op :: rest) s)
  = snd (GameServer.step op s)
    ++ snd (GameServer.run rest (fst (GameServer.step op s))).
Proof.
  simpl. destruct (GameServer.step op s) as [s1 e1]. simpl.
  destruct (GameServer.run rest s1) as [s2 e2]. now split.
Qed.

(** X13: whatever connections, disconnections, messages and interval ticks
    the server has seen since it started, every room in its table has at
    least one and at most eight members, and its player and bullet maps
    hold no key twice. *)
Theorem rooms_hold_one_to_eight_members :
  forall (ops : list GameServer.Op),
    Forall (fun kv => RoomOK (snd kv))
      (GameServer.rooms (fst (GameServer.run ops GameServer.new))).
Proof.
  intros ops.
  assert (G : forall s, Forall (fun kv => RoomOK (snd kv)) (GameServer.rooms s) ->
                        Forall (fun kv => RoomOK (snd kv))
                          (GameServer.rooms (fst (GameServer.run ops s)))).
  { induction ops as [|op rest IH]; intros s F; [exact F|].
    rewrite (proj1 (server_run_cons op rest s)).
    apply IH. now apply step_RoomsOK. }
  apply G. constructor.
Qed.

Lemma to_uint_nonnil (n : nat) : Nat.to_uint n <> Decimal.Nil.
Proof.
  intros H. pose proof (DecimalNat.Unsigned.to_of (Nat.to_uint n)) as T.
  rewrite DecimalNat.Unsigned.of_to in T. rewrite H in T. discriminate T.
Qed.

Lemma decimal_inj (n m : nat) :
  GameServer.decimal n = GameServer.decimal m -> n = m.
Proof.
  unfold GameServer.decimal. intros H.
  apply (f_equal NilZero.uint_of_string) in H.
  rewrite !NilZero.usu in H by apply to_uint_nonnil.
  injection H as H. now apply DecimalNat.Unsigned.to_uint_inj.
Qed.

Lemma idOf_inj (n m : nat) : idOf n = idOf m -> n = m.
Proof.
  unfold idOf. simpl. intros H. apply decimal_inj. congruence.
Qed.

Lemma playerIds_kept (ws : nat) (p p' : Player.t) (s : GameServer.t)
  (rooms' : JsMap.t string GameRoom.t) :
  JsMap.get ws (GameServer.players s) = Some p ->
  Player.id p' = Player.id p ->
  playerIds (GameServer.mk (JsMap.set ws p' (GameServer.players s)) rooms'
               (GameServer.playerCounter s))
  = playerIds s /\
  (Issued s ->
   Issued (GameServer.mk (JsMap.set ws p' (GameServer.players s)) rooms'
             (GameServer.playerCounter s))).
Proof.
  intros G E. split.
  - unfold playerIds. simpl. now apply map_set_same with p.
  - unfold Issued. simpl. intros I. apply Forall_set; [|exact I].
    apply get_In in G.
    destruct (proj1 (Forall_forall _ _) I (ws, p) G) as [n [Hn Hid]].
    exists n. simpl in *. split; [exact Hn | congruence].
Qed.

Lemma step_ids (op : GameServer.Op) (s : GameServer.t) :
  NoDup (playerIds s) /\ Issued s ->
  NoDup (playerIds (fst (GameServer.step op s))) /\
  Issued (fst (GameServer.step op s)).
Proof.
  intros [N I].
  destruct op as [ws|ws|env ws message|clock]; simpl.
  - unfold GameServer.handleConnection, playerIds, Issued in *. simpl.
    split.
    + apply NoDup_map_set_fresh; [exact N|]. simpl.
      intros Hin. apply in_map_iff in Hin. destruct Hin as [[ws' p] [Hid Hin]].
      destruct (proj1 (Forall_forall _ _) I (ws', p) Hin) as [n [Hn Hp]].
      simpl in *. rewrite Hp in Hid.
      apply (idOf_inj n (S (GameServer.playerCounter s))) in Hid. lia.
    + apply Forall_set.
      * exists (S (GameServer.playerCounter s)). split; [lia | reflexivity].
      * apply Forall_impl with (2 := I). intros kv [n [Hn Hp]].
        exists n. split; [lia | exact Hp].
  - unfold GameServer.handleDisconnection.
    destruct (JsMap.get ws _) as [player|]; [|now split].
    match goal with
    | |- context [let '(rooms1, e) := ?x in _] => destruct x as [rooms1 e]
    end.
    unfold playerIds, Issued in *. simpl. split.
    + now apply NoDup_map_delete.
    + now apply Forall_delete.
  - unfold GameServer.handleMessage.
    destruct (JsMap.get ws _) as [player0|] eqn:G0; [|now split].
    destruct message as [playerName|code playerName|position rotation health
                        |id position direction weapon|type]; [| | | |now split].
    + unfold GameServer.handleCreateRoom. rewrite G0.
      destruct (GameRoom.addPlayer _ _) as [room1 e]. simpl.
      match goal with
      | |- context [GameServer.mk (JsMap.set ws ?p' _) ?rs _] =>
          destruct (playerIds_kept ws player0 p' s rs G0 eq_refl) as [K1 K2]
      end.
      rewrite K1. split; [exact N | exact (K2 I)].
    + unfold GameServer.handleJoinRoom. rewrite G0.
      destruct (JsMap.get code _) as [room|]; [|now split].
      destruct (Nat.leb 8 _); [now split|].
      destruct (GameRoom.addPlayer _ _) as [room1 e]. simpl.
      match goal with
      | |- context [GameServer.mk (JsMap.set ws ?p' _) ?rs _] =>
          destruct (playerIds_kept ws player0 p' s rs G0 eq_refl) as [K1 K2]
      end.
      rewrite K1. split; [exact N | exact (K2 I)].
    + unfold GameServer.handlePlayerUpdate. rewrite G0.
      destruct (GameServer.currentRoom player0) as [roomId|]; [|now split].
      destruct (playerIds_kept ws player0
                  (Player.set_state position rotation health player0) s
                  (GameServer.rooms s) G0 eq_refl) as [K1 K2].
      simpl.
      destruct (JsMap.get roomId _) as [room|].
      * destruct (GameRoom.broadcastPlayerUpdate _ _) as [room1 e]. simpl.
        unfold playerIds, Issued in *. simpl in *.
        split; [now rewrite K1 | exact (K2 I)].
      * simpl. unfold playerIds, Issued in *. simpl in *.
        split; [now rewrite K1 | exact (K2 I)].
    + unfold GameServer.handleBulletFired. rewrite G0.
      destruct (GameServer.currentRoom player0) as [roomId|]; [|now split].
      destruct (JsMap.get roomId _) as [room|]; [|now split].
      destruct (GameRoom.handleBullet _ _ _ _) as [room1 e]. simpl.
      now split.
  - unfold GameServer.updateAllRooms.
    destruct (GameServer.updateRooms _ _ _) as [rooms1 e]. simpl. now split.
Qed.

(** X14: the connections the server holds have pairwise different player
    ids, whatever connections, disconnections, messages and interval ticks
    it has seen since it started; so two connections are never the same
    member of a room. *)
Theorem connections_have_distinct_ids :
  forall (ops : list GameServer.Op),
    NoDup (playerIds (fst (GameServer.run ops GameServer.new))).
Proof.
  intros ops.
  assert (G : forall s, NoDup (playerIds s) /\ Issued s ->
                        NoDup (playerIds (fst (GameServer.run ops s))) /\
                        Issued (fst (GameServer.run ops s))).
  { induction ops as [|op rest IH]; intros s H; [exact H|].
    rewrite (proj1 (server_run_cons op rest s)).
    apply IH. now apply step_ids. }
  apply G. split; constructor.
Qed.

Lemma recipients_all (r : GameRoom.t) :
  GameRoom.recipients None r
  = map (fun kv => GamePlayer.ws (snd kv)) (GameRoom.players r).
Proof.
  unfold GameRoom.recipients. f_equal.
  induction (GameRoom.players r) as [|kv m IH]; simpl; [reflexivity|].
  now rewrite IH.
Qed.

Lemma removePlayer_result (playerId : string) (r : GameRoom.t) :
  fst (GameRoom.removePlayer playerId r)
  = GameRoom.set_players (JsMap.delete playerId (GameRoom.players r)) r /\
  snd (GameRoom.removePlayer playerId r)
  = if JsMap.has playerId (GameRoom.players r)
    then [Broadcast
            (map (fun kv => GamePlayer.ws (snd kv))
               (JsMap.delete playerId (GameRoom.players r)))
            (PlayerLeft playerId)]
    else [].
Proof.
  unfold GameRoom.removePlayer, JsMap.has.
  destruct (JsMap.get playerId (GameRoom.players r)) eqn:G; simpl.
  - split; [reflexivity|]. unfold GameRoom.broadcast.
    now rewrite recipients_all.
  - split; [|reflexivity]. rewrite (delete_absent _ _ G). now destruct r.
Qed.

(** X15: when a connection closes, its record leaves the connection table,
    every other record stays as it is, and the counter is not touched.  If
    the record names no current room, or one that is not in the room table,
    the room table is as before and there is no effect.  Otherwise the room
    it names loses the player from its player map and is otherwise the same
    room; [player_left] goes once to the sockets of the members that remain
    when the player was a member, and nothing is sent when it was not; the
    room leaves the table exactly when nobody is left in it; and no other
    room is touched. *)
Theorem disconnection_leaves_current_room :
  forall (s : GameServer.t) (ws : nat) (player : Player.t),
    JsMap.get ws (GameServer.players s) = Some player ->
    let res := GameServer.handleDisconnection ws s in
    JsMap.get ws (GameServer.players (fst res)) = None /\
    (forall ws', ws' <> ws ->
       JsMap.get ws' (GameServer.players (fst res))
       = JsMap.get ws' (GameServer.players s)) /\
    GameServer.playerCounter (fst res) = GameServer.playerCounter s /\
    match GameServer.currentRoom player with
    | None => GameServer.rooms (fst res) = GameServer.rooms s /\ snd res = []
    | Some roomId =>
        match JsMap.get roomId (GameServer.rooms s) with
        | None => GameServer.rooms (fst res) = GameServer.rooms s /\ snd res = []
        | Some room =>
            let remaining := JsMap.delete (Player.id player) (GameRoom.players room) in
            (forall c, c <> roomId ->
               JsMap.get c (GameServer.rooms (fst res))
               = JsMap.get c (GameServer.rooms s)) /\
            snd res
            = (if JsMap.has (Player.id player) (GameRoom.players room)
               then [Broadcast (map (fun kv => GamePlayer.ws (snd kv)) remaining)
                       (PlayerLeft (Player.id player))]
               else []) /\
            JsMap.get roomId (GameServer.rooms (fst res))
            = match remaining with
              | [] => None
              | _ :: _ => Some (GameRoom.set_players remaining room)
              end /\
            JsMap.has (Player.id player) remaining = false
        end
    end.
Proof.
  intros s ws player G res. subst res.
  unfold GameServer.handleDisconnection. rewrite G.
  destruct (GameServer.currentRoom player) as [roomId|].
  - destruct (JsMap.get roomId (GameServer.rooms s)) as [room|] eqn:R.
    + destruct (removePlayer_result (Player.id player) room) as [P1 P2].
      destruct (GameRoom.removePlayer (Player.id player) room) as [room1 e].
      cbn [fst snd] in P1, P2. subst room1 e.
      unfold GameRoom.getPlayerCount, JsMap.size.
      cbn [GameRoom.players GameRoom.set_players].
      assert (Hh : JsMap.has (Player.id player)
                     (JsMap.delete (Player.id player) (GameRoom.players room))
                   = false).
      { unfold JsMap.has. now rewrite get_delete_same. }
      destruct (JsMap.delete (Player.id player) (GameRoom.players room))
        as [|kv rest] eqn:D; cbn [List.length Nat.eqb fst snd
                                   GameServer.players GameServer.rooms
                                   GameServer.playerCounter].
      * split; [apply get_delete_same|].
        split; [intros ws' Hne; now apply get_delete_other|].
        split; [reflexivity|].
        split; [intros c Hne; now apply get_delete_other|].
        split; [reflexivity|].
        split; [apply get_delete_same | exact Hh].
      * split; [apply get_delete_same|].
        split; [intros ws' Hne; now apply get_delete_other|].
        split; [reflexivity|].
        split; [intros c Hne; apply get_set_other; congruence|].
        split; [reflexivity|].
        split; [apply get_set_same | exact Hh].
    + cbn [fst snd GameServer.players GameServer.rooms GameServer.playerCounter].
      split; [apply get_delete_same|].
      split; [intros ws' Hne; now apply get_delete_other|].
      repeat split.
  - cbn [fst snd GameServer.players GameServer.rooms GameServer.playerCounter].
    split; [apply get_delete_same|].
    split; [intros ws' Hne; now apply get_delete_other|].
    repeat split.
Qed.

Lemma disconnection_leaves_current_room_witness :
  JsMap.get 2 (GameServer.players (fst (GameServer.handleDisconnection 2 pairServer)))
  = None /\
  option_map (fun room' => JsMap.keys (GameRoom.players room'))
    (JsMap.get "AAAAAA"
       (GameServer.rooms (fst (GameServer.handleDisconnection 2 pairServer))))
  = Some ["player_1"] /\
  snd (GameServer.handleDisconnection 2 pairServer)
  = [Broadcast [1] (PlayerLeft "player_2")].
Proof.
  assert (H := disconnection_leaves_current_room pairServer 2
                 (Player.set_roomId (Some "AAAAAA") (guest 2))).
  destruct H as (H1 & _ & _ & H4).
  - vm_compute. reflexivity.
  - split; [exact H1|].
    change (GameServer.currentRoom (Player.set_roomId (Some "AAAAAA") (guest 2)))
      with (Some "AAAAAA") in H4.
    change (JsMap.get "AAAAAA" (GameServer.rooms pairServer))
      with (Some (lobby 2)) in H4.
    cbv zeta in H4. destruct H4 as (_ & H5 & H6 & _).
    split.
    + rewrite H6. vm_compute. reflexivity.
    + rewrite H5. vm_compute. reflexivity.
Defined.

(** X16: [create_room] puts a new room under the generated code, whatever
    the table held under that code before: its only member is the sender, on
    the red team, with no bullets, counters 0 : 0 and the flag unset.  Every
    other code keeps its room, the sender's record names the new room, and
    the effects are: the team and the counters to the socket of the
    sender's record, a [player_joined] broadcast that has no recipient, and
    [room_created] with the code and the sender's id to the socket the
    message came from. *)
Theorem created_room_holds_its_creator :
  forall (env : Env) (ws : nat) (playerName : option string) (s : GameServer.t)
         (player : Player.t),
    JsMap.get ws (GameServer.players s) = Some player ->
    let code := GameServer.generateRoomCode (draws env) in
    let res := GameServer.handleMessage env ws (CreateRoom playerName) s in
    (exists room,
       JsMap.get code (GameServer.rooms (fst res)) = Some room /\
       roster room = [(Player.id player, Red)] /\
       GameRoom.bullets room = [] /\
       GameRoom.teamScores room = mkScores 0 0 /\
       GameRoom.gameEnded room = false) /\
    (forall c, c <> code ->
       JsMap.get c (GameServer.rooms (fst res)) = JsMap.get c (GameServer.rooms s)) /\
    option_map (fun p => (Player.id p, Player.roomId p))
      (JsMap.get ws (GameServer.players (fst res)))
    = Some (Player.id player, Some code) /\
    snd res
    = [Send (Player.ws player) (TeamAssigned Red (GameRoom.getTeamColor Red));
       Send (Player.ws player) (TeamScoresUpdate (mkScores 0 0));
       Broadcast []
         (PlayerJoined (Player.id player) (orStr playerName (Player.name player))
            (Player.position player) (Player.rotation player)
            (Player.health player) (GameRoom.getTeamColor Red) Red);
       Send ws (RoomCreated code (Player.id player))].
Proof.
  intros env ws playerName s player G code res. subst res code.
  unfold GameServer.handleMessage, GameServer.handleCreateRoom. rewrite G.
  unfold GameRoom.addPlayer, GameRoom.new, GameRoom.broadcast,
    GameRoom.recipients, GameRoom.assignPlayerTeam, roster, view.
  cbn -[GameServer.generateRoomCode String.eqb].
  rewrite String.eqb_refl. cbn -[GameServer.generateRoomCode].
  split; [|split; [|split]].
  - eexists. split; [apply get_set_same|]. cbn. auto.
  - intros c Hne. apply get_set_other. congruence.
  - rewrite get_set_same. reflexivity.
  - reflexivity.
Qed.

Lemma created_room_holds_its_creator_witness :
  option_map (fun p => (Player.id p, Player.roomId p))
    (JsMap.get 2
       (GameServer.players
          (fst (GameServer.handleMessage envB 2 (CreateRoom None) pairServer))))
  = Some ("player_2", Some "BBBBBB").
Proof.
  refine (proj1 (proj2 (proj2
    (created_room_holds_its_creator envB 2 None pairServer
       (Player.set_roomId (Some "AAAAAA") (guest 2)) _)))).
  vm_compute. reflexivity.
Defined.

(** ** Bots *)

Lemma takeDamage_health (dmg : float) (b : AIBot.t) :
  (if AIBot.isAlive b then PrimFloat.leb (AIBot.health b) 0 = false
   else AIBot.health b = 0%float) ->
  let b' := fst (AIBot.takeDamage dmg b) in
  if AIBot.isAlive b' then PrimFloat.leb (AIBot.health b') 0 = false
  else AIBot.health b' = 0%float.
Proof.
  unfold AIBot.takeDamage. destruct (AIBot.isAlive b) eqn:A; simpl.
  - intros _. destruct (PrimFloat.leb (AIBot.health b - dmg) 0) eqn:L; simpl.
    + reflexivity.
    + exact L.
  - rewrite A. auto.
Qed.

(** X17: a bot made by the constructor is dead exactly at health 0: after
    any history of hits and respawns, either it is alive and its health is
    not at or below 0, or it is not alive and its health is 0 (the health of
    a bot never goes below 0, and hits on a dead bot do not count). *)
Theorem bot_is_dead_exactly_at_zero_health :
  forall (id : string) (spawnPosition : Vec3) (events : list AIBot.Event),
    let b := fst (AIBot.live events (AIBot.new id spawnPosition)) in
    if AIBot.isAlive b then PrimFloat.leb (AIBot.health b) 0 = false
    else AIBot.health b = 0%float.
Proof.
  intros id spawnPosition events.
  assert (G : forall b,
            (if AIBot.isAlive b then PrimFloat.leb (AIBot.health b) 0 = false
             else AIBot.health b = 0%float) ->
            let b' := fst (AIBot.live events b) in
            if AIBot.isAlive b' then PrimFloat.leb (AIBot.health b') 0 = false
            else AIBot.health b' = 0%float).
  { induction events as [|[dmg | pos u v] rest IH]; intros b H; simpl.
    - exact H.
    - pose proof (takeDamage_health dmg b H) as H1.
      destruct (AIBot.takeDamage dmg b) as [b1 died].
      pose proof (IH b1 H1) as H2.
      destruct (AIBot.live rest b1) as [b2 flags]. exact H2.
    - apply IH. reflexivity. }
  apply G. reflexivity.
Qed.

Lemma live_dead (ds : list float) (b : AIBot.t) :
  AIBot.isAlive b = false ->
  fst (AIBot.live (map AIBot.Damage ds) b) = b /\
  deaths (snd (AIBot.live (map AIBot.Damage ds) b)) = 0.
Proof.
  intros A. induction ds as [|d rest IH]; simpl; [now split|].
  unfold AIBot.takeDamage. rewrite A. simpl.
  destruct IH as [I1 I2].
  destruct (AIBot.live (map AIBot.Damage rest) b) as [b2 flags].
  simpl in *. now split.
Qed.

(** X18: between two respawns a bot dies at most once: of any number of
    [takeDamage] calls in a row at most one returns [true], after such a call
    the bot is not alive, and calls on a bot that is not alive return
    [false] and leave it as it is. *)
Theorem bot_dies_once :
  forall (ds : list float) (b : AIBot.t),
    let res := AIBot.live (map AIBot.Damage ds) b in
    deaths (snd res) <= 1 /\
    (deaths (snd res) = 1 -> AIBot.isAlive (fst res) = false) /\
    (AIBot.isAlive b = false -> fst res = b /\ deaths (snd res) = 0).
Proof.
  intros ds. induction ds as [|d rest IH]; intros b; simpl.
  - unfold deaths. simpl. repeat split; auto; lia.
  - split; [|split].
    + unfold AIBot.takeDamage.
      destruct (AIBot.isAlive b) eqn:A; simpl.
      * destruct (PrimFloat.leb _ _); simpl.
        -- match goal with
           | |- context [AIBot.live _ ?x] =>
               destruct (live_dead rest x eq_refl) as [_ D];
               destruct (AIBot.live (map AIBot.Damage rest) x) as [b2 flags]
           end.
           unfold deaths in *. simpl in *. lia.
        -- match goal with
           | |- context [AIBot.live _ ?x] =>
               destruct (IH x) as [D _];
               destruct (AIBot.live (map AIBot.Damage rest) x) as [b2 flags]
           end.
           unfold deaths in *. simpl in *. exact D.
      * destruct (IH b) as [D _].
        destruct (AIBot.live (map AIBot.Damage rest) b) as [b2 flags].
        unfold deaths in *. simpl in *. exact D.
    + unfold AIBot.takeDamage.
      destruct (AIBot.isAlive b) eqn:A; simpl.
      * destruct (PrimFloat.leb _ _); simpl.
        -- match goal with
           | |- context [AIBot.live _ ?x] =>
               destruct (live_dead rest x eq_refl) as [E _];
               destruct (AIBot.live (map AIBot.Damage rest) x) as [b2 flags]
           end.
           simpl in *. intros _. now rewrite E.
        -- match goal with
           | |- context [AIBot.live _ ?x] =>
               destruct (IH x) as (_ & D & _);
               destruct (AIBot.live (map AIBot.Damage rest) x) as [b2 flags]
           end.
           unfold deaths in *. simpl in *. exact D.
      * destruct (IH b) as (_ & D & _).
        destruct (AIBot.live (map AIBot.Damage rest) b) as [b2 flags].
        unfold deaths in *. simpl in *. exact D.
    + intros A. exact (live_dead (d :: rest) b A).
Qed.

Lemma consider_sound (distanceTo : Vec3 -> Vec3 -> float) (b : AIBot.t)
  (all : JsMap.t string GamePlayer.t) (l : JsMap.t string GamePlayer.t) :
  forall acc,
    (forall kv, In kv l -> In kv all) ->
    (forall p, fst acc = Some p ->
       In p (map snd all) /\ GamePlayer.isAlive p = true /\
       GamePlayer.team p = Blue /\ AIBot.canSeeTarget distanceTo p b = true) ->
    forall p, fst (fold_left (AIBot.consider distanceTo b) l acc) = Some p ->
      In p (map snd all) /\ GamePlayer.isAlive p = true /\
      GamePlayer.team p = Blue /\ AIBot.canSeeTarget distanceTo p b = true.
Proof.
  induction l as [|[k q] rest IH]; intros acc Hin Hacc; simpl; [exact Hacc|].
  apply IH; [intros kv H; apply Hin; now right|].
  unfold AIBot.consider. simpl.
  destruct (GamePlayer.isAlive q) eqn:A; simpl; [|exact Hacc].
  destruct (GamePlayer.team q) eqn:T; simpl; [exact Hacc|].
  destruct (PrimFloat.ltb _ (snd acc)); simpl; [|exact Hacc].
  destruct (PrimFloat.ltb _ AIBot.range) eqn:R; simpl; [|exact Hacc].
  intros p [= <-]. split; [|auto].
  apply in_map_iff. exists (k, q). split; [reflexivity | apply Hin; now left].
Qed.

(** X19: whatever [distanceTo] computes, the player [findNearestPlayer]
    returns is one of the players it was given, is alive, is on the blue
    team, and passes [canSeeTarget]: its distance is below the weapon
    range. *)
Theorem nearest_player_is_a_living_enemy_in_range :
  forall (distanceTo : Vec3 -> Vec3 -> float)
         (players : JsMap.t string GamePlayer.t) (b : AIBot.t) (p : GamePlayer.t),
    AIBot.findNearestPlayer distanceTo players b = Some p ->
    In p (map snd players) /\
    GamePlayer.isAlive p = true /\
    GamePlayer.team p = Blue /\
    AIBot.canSeeTarget distanceTo p b = true.
Proof.
  intros distanceTo players b p H.
  apply (consider_sound distanceTo b players players (None, infinity)); auto.
  simpl. intros q Hq. discriminate Hq.
Qed.

Lemma nearest_player_is_a_living_enemy_in_range_witness :
  exists p,
    AIBot.findNearestPlayer euclid (GameRoom.players (lobby 2)) sentry = Some p /\
    GamePlayer.id p = "player_2" /\
    GamePlayer.team p = Blue /\
    AIBot.canSeeTarget euclid p sentry = true.
Proof.
  destruct (AIBot.findNearestPlayer euclid (GameRoom.players (lobby 2)) sentry)
    as [p|] eqn:E.
  - exists p. split; [reflexivity|].
    destruct (nearest_player_is_a_living_enemy_in_range euclid
                (GameRoom.players (lobby 2)) sentry p E) as (_ & _ & T & S).
    split; [|split; assumption].
    vm_compute in E. injection E as <-. reflexivity.
  - vm_compute in E. discriminate E.
Defined.

(** ** Respawns *)

Lemma award_no_timer (bullet : Bullet.t) (player : GamePlayer.t) (r : GameRoom.t)
  (x : Effect) :
  In x (snd (GameRoom.award bullet player r)) -> isTimer x = false.
Proof.
  unfold GameRoom.award.
  destruct (JsMap.get _ _) as [shooter|]; [|intros []].
  destruct (negb _); [|intros []].
  destruct (GameRoom.gameEnded r); [intros []|].
  unfold GameRoom.checkForVictory.
  cbn [GameRoom.gameEnded GameRoom.set_teamScores GameRoom.set_players].
  destruct (GameRoom.gameEnded r); [|destruct (GameRoom.winnerOf _)]; simpl;
    intuition (subst; reflexivity).
Qed.

Lemma hit_timers (bullet : Bullet.t) (playerId : string) (player : GamePlayer.t)
  (r : GameRoom.t) (k : string) (o : nat) (d : Z) :
  In (SetTimeout (Respawn k o) d) (snd (GameRoom.hit bullet playerId player r)) ->
  d = 3000%Z /\ awaits k o (fst (GameRoom.hit bullet playerId player r)).
Proof.
  unfold GameRoom.hit.
  set (player1 := GamePlayer.set_health _ player).
  set (r1 := GameRoom.set_players (JsMap.set playerId player1 _) r).
  destruct (PrimFloat.leb _ _); [|intros [H | []]; discriminate H].
  set (player2 := GamePlayer.set_isAlive false player1).
  set (r2 := GameRoom.set_players (JsMap.set playerId player2 _) r1).
  pose proof (eliminate_view body (fun v p => eq_refl) bullet playerId player2 r2)
    as V.
  unfold GameRoom.eliminate in *.
  pose proof (award_no_timer bullet player2 r2) as T.
  destruct (GameRoom.award bullet player2 r2) as [r3 e1].
  cbn [fst snd] in *.
  intros [H | H]; [discriminate H|].
  apply in_app_or in H. destruct H as [H | [H | [H | []]]].
  - apply T in H. discriminate H.
  - discriminate H.
  - injection H as <- <- <-. split; [reflexivity|].
    unfold awaits. rewrite (view_lookup body playerId r3 r2 V).
    unfold r2. simpl. rewrite get_set_same. reflexivity.
Qed.

Lemma awaits_kept (k : string) (o : nat) (now : Z) (bs : JsMap.t string Bullet.t)
  (r : GameRoom.t) :
  NoDup (JsMap.keys (GameRoom.players r)) ->
  awaits k o r ->
  awaits k o (snd (fst (fst (GameRoom.scanBullets now bs r)))).
Proof.
  intros Hnd A.
  destruct (scanBullets_Casualty k now bs r Hnd) as [C _].
  pose proof (scanBullets_view GamePlayer.obj (fun v p => eq_refl)
                (fun v p => eq_refl) (fun v p => eq_refl) now bs r Hnd) as V.
  apply (view_lookup GamePlayer.obj k) in V.
  unfold awaits, body, down, vital in *.
  destruct (JsMap.get k (GameRoom.players r)) as [p|]; [|discriminate].
  simpl in A. injection A as Ao Aa.
  assert (D : option_map fst
                (option_map (fun p => (GamePlayer.isAlive p, GamePlayer.health p))
                   (Some p)) = Some false) by (simpl; now rewrite Aa).
  destruct (C D) as [_ E].
  destruct (JsMap.get k _) as [q|]; [|discriminate].
  simpl in *. injection V as V. injection E as E1 E2. congruence.
Qed.

Lemma stepBullet_timers (now : Z) (bullet : Bullet.t) (r : GameRoom.t)
  (k : string) (o : nat) (d : Z) :
  In (SetTimeout (Respawn k o) d) (snd (GameRoom.stepBullet now bullet r)) ->
  d = 3000%Z /\ awaits k o (snd (fst (fst (GameRoom.stepBullet now bullet r)))).
Proof.
  unfold GameRoom.stepBullet.
  destruct (_ <? _)%Z; [intros []|].
  destruct (find _ _) as [[playerId player]|]; [|intros []].
  pose proof (hit_timers (GameRoom.advance now bullet) playerId player r k o d) as H.
  destruct (GameRoom.hit _ _ _ _) as [r1 e]. exact H.
Qed.

Lemma scanBullets_timers (now : Z) (bs : JsMap.t string Bullet.t)
  (k : string) (o : nat) (d : Z) :
  forall r,
    NoDup (JsMap.keys (GameRoom.players r)) ->
    In (SetTimeout (Respawn k o) d) (snd (GameRoom.scanBullets now bs r)) ->
    d = 3000%Z /\ awaits k o (snd (fst (fst (GameRoom.scanBullets now bs r)))).
Proof.
  induction bs as [|[k0 b0] rest IH]; intros r Hnd; simpl; [intros []|].
  pose proof (stepBullet_timers now b0 r k o d) as H1.
  pose proof (stepBullet_roster now b0 r Hnd) as R1.
  destruct (GameRoom.stepBullet now b0 r) as [[[b1 r1] fate] e1].
  simpl in H1, R1.
  pose proof (NoDup_roster _ _ R1 Hnd) as Hnd1.
  pose proof (IH r1 Hnd1) as H2.
  pose proof (awaits_kept k o now rest r1 Hnd1) as K.
  destruct (GameRoom.scanBullets now rest r1) as [[[rest1 r2] rm] e2].
  simpl in *. intros Hin. apply in_app_or in Hin.
  destruct Hin as [Hin | Hin].
  - destruct (H1 Hin) as [Hd Ha]. split; [exact Hd | now apply K].
  - now apply H2.
Qed.

(** X20: every timer a tick sets is due after 3000 ms and is for a member
    the tick leaves not alive, and its closure, run on the room as the tick
    left it, brings that member back: alive, at 100 health, at one of the
    ten spawn points, with one [player_respawned] broadcast to all
    members. *)
Theorem tick_timers_revive_the_fallen :
  forall (r : GameRoom.t) (now : Z) (playerId : string) (o : nat) (delay : Z),
    NoDup (JsMap.keys (GameRoom.players r)) ->
    In (SetTimeout (Respawn playerId o) delay) (snd (GameRoom.update now r)) ->
    let r1 := fst (GameRoom.update now r) in
    delay = 3000%Z /\
    option_map GamePlayer.isAlive (JsMap.get playerId (GameRoom.players r1))
    = Some false /\
    forall roll,
      let res := GameRoom.runTask (Respawn playerId o) roll r1 in
      (exists p, JsMap.get playerId (GameRoom.players (fst res)) = Some p /\
                 GamePlayer.isAlive p = true /\
                 GamePlayer.health p = 100%float /\
                 In (GamePlayer.position p) GameRoom.getSpawnPoints) /\
      snd res = [Broadcast (GameRoom.recipients None (fst res))
                   (PlayerRespawned playerId (GameRoom.getRandomSpawnPoint roll))].
Proof.
  intros r now playerId o delay Hnd Hin r1. subst r1.
  unfold GameRoom.update, GameRoom.updateBullets in *.
  pose proof (scanBullets_timers now (GameRoom.bullets r) playerId o delay r Hnd)
    as H.
  destruct (GameRoom.scanBullets now (GameRoom.bullets r) r) as [[[bs r1] rm] e].
  cbn [fst snd] in *. destruct (H Hin) as [Hd Ha]. clear H.
  unfold awaits in Ha. cbn [GameRoom.players GameRoom.set_bullets].
  destruct (JsMap.get playerId (GameRoom.players r1)) as [p|] eqn:G;
    [|discriminate].
  simpl in Ha. injection Ha as Ho Hl.
  split; [exact Hd|]. split; [simpl; now rewrite Hl|].
  intros roll. simpl.
  pose proof (respawn_same_object playerId p roll
                (GameRoom.set_bullets (GameRoom.removeAll rm bs) r1) G) as R.
  rewrite Ho in R. simpl in R. destruct R as [R1 R2].
  split.
  - eexists. split; [exact R1|]. simpl.
    split; [reflexivity|]. split; [reflexivity|]. apply spawn_point_listed.
  - exact R2.
Qed.

Lemma tick_timers_revive_the_fallen_witness :
  option_map GamePlayer.isAlive
    (JsMap.get "player_2" (GameRoom.players (fst (GameRoom.update 1005 duel))))
  = Some false.
Proof.
  refine (proj1 (proj2
    (tick_timers_revive_the_fallen duel 1005 "player_2" 1 3000 _ _))).
  - vm_compute. repeat constructor; simpl; intuition discriminate.
  - vm_compute. right. right. right. left. reflexivity.
Defined.

(** ** Damage *)








(** ** Room codes *)

Lemma get_nth (s : string) :
  forall i, i < String.length s ->
    String.get i s = Some (nth i (list_ascii_of_string s) Ascii.zero).
Proof.
  induction s as [|c s IH]; intros i H; simpl in *; [lia|].
  destruct i as [|i]; [reflexivity|]. apply IH. lia.
Qed.

Lemma length_list_ascii (s : string) :
  List.length (list_ascii_of_string s) = String.length s.
Proof. induction s as [|c s IH]; simpl; [reflexivity | now rewrite IH]. Qed.

Lemma charAt_chars (i : nat) :
  exists c,
    GameServer.charAt (Nat.modulo i (String.length GameServer.chars))
      GameServer.chars
    = String c EmptyString /\
    In c alphabet.
Proof.
  assert (B : Nat.modulo i (String.length GameServer.chars)
              < String.length GameServer.chars).
  { apply Nat.mod_upper_bound. discriminate. }
  exists (nth (Nat.modulo i (String.length GameServer.chars)) alphabet Ascii.zero).
  split.
  - unfold GameServer.charAt. now rewrite (get_nth _ _ B).
  - apply nth_In. unfold alphabet. now rewrite length_list_ascii.
Qed.

(** X22: a room code has six characters, each a capital letter or a digit,
    whatever the random draws are. *)
Theorem room_code_is_six_from_alphabet :
  forall (draws : nat -> nat),
    String.length (GameServer.generateRoomCode draws) = 6 /\
    Forall (fun c => In c alphabet)
      (list_ascii_of_string (GameServer.generateRoomCode draws)).
Proof.
  intros draws.
  cbv beta iota delta [GameServer.generateRoomCode seq fold_left].
  destruct (charAt_chars (draws 0)) as [c0 [E0 I0]].
  destruct (charAt_chars (draws 1)) as [c1 [E1 I1]].
  destruct (charAt_chars (draws 2)) as [c2 [E2 I2]].
  destruct (charAt_chars (draws 3)) as [c3 [E3 I3]].
  destruct (charAt_chars (draws 4)) as [c4 [E4 I4]].
  destruct (charAt_chars (draws 5)) as [c5 [E5 I5]].
  rewrite E0, E1, E2, E3, E4, E5.
  cbv beta iota delta [String.append String.length list_ascii_of_string].
  split; [reflexivity|].
  repeat (apply Forall_cons; [assumption|]). apply Forall_nil.
Qed.

(** ** Messages of a player in a game *)

(** X23: a [player_update] or [bullet_fired] message stays in the sender's
    current room.  No room enters or leaves the table, every room but the
    one the sender's record names is as before, every other connection
    record is as before, the sender keeps its id and its room, and every
    effect is a broadcast that carries the id of the sender's record as its
    player: the id is the connection's, not the message's.  A sender without
    a current room causes nothing. *)
Theorem game_messages_stay_in_the_senders_room :
  forall (env : Env) (ws : nat) (message : Inbound) (s : GameServer.t)
         (player : Player.t),
    JsMap.get ws (GameServer.players s) = Some player ->
    inGame message ->
    let res := GameServer.handleMessage env ws message s in
    JsMap.keys (GameServer.rooms (fst res)) = JsMap.keys (GameServer.rooms s) /\
    (forall c, GameServer.currentRoom player <> Some c ->
       JsMap.get c (GameServer.rooms (fst res)) = JsMap.get c (GameServer.rooms s)) /\
    (forall ws', ws' <> ws ->
       JsMap.get ws' (GameServer.players (fst res))
       = JsMap.get ws' (GameServer.players s)) /\
    option_map (fun p => (Player.id p, Player.roomId p))
      (JsMap.get ws (GameServer.players (fst res)))
    = Some (Player.id player, Player.roomId player) /\
    (GameServer.currentRoom player = None -> res = (s, [])) /\
    Forall (inNameOf (Player.id player)) (snd res).
Proof.
  intros env ws message s player G M res. subst res.
  unfold GameServer.handleMessage. rewrite G.
  destruct message as [playerName|code playerName|position rotation health
                      |id position direction weapon|type];
    try (now destruct M); clear M.
  - unfold GameServer.handlePlayerUpdate. rewrite G.
    destruct (GameServer.currentRoom player) as [roomId|] eqn:C.
    + cbn [GameServer.rooms GameServer.set_players].
      destruct (JsMap.get roomId (GameServer.rooms s)) as [room|] eqn:R.
      * unfold GameRoom.broadcastPlayerUpdate.
        destruct (JsMap.get _ (GameRoom.players room)); simpl.
        -- split; [apply keys_set_present; unfold JsMap.has; now rewrite R|].
           split; [intros c Hc; apply get_set_other; congruence|].
           split; [intros ws' Hne; apply get_set_other; congruence|].
           rewrite get_set_same. simpl.
           split; [reflexivity|]. split; [discriminate|].
           constructor; [reflexivity | constructor].
        -- split; [apply keys_set_present; unfold JsMap.has; now rewrite R|].
           split; [intros c Hc; apply get_set_other; congruence|].
           split; [intros ws' Hne; apply get_set_other; congruence|].
           rewrite get_set_same. simpl.
           split; [reflexivity|]. split; [discriminate | constructor].
      * simpl. split; [reflexivity|]. split; [reflexivity|].
        split; [intros ws' Hne; apply get_set_other; congruence|].
        rewrite get_set_same. simpl.
        split; [reflexivity|]. split; [discriminate | constructor].
    + simpl. rewrite G. simpl. repeat split; auto.
  - unfold GameServer.handleBulletFired. rewrite G.
    destruct (GameServer.currentRoom player) as [roomId|] eqn:C.
    + destruct (JsMap.get roomId (GameServer.rooms s)) as [room|] eqn:R.
      * assert (E : Forall (inNameOf (Player.id player))
                      (snd (GameRoom.handleBullet (now env) (now' env)
                              (BulletData.mk id (Player.id player) position
                                 direction weapon) room))).
        { unfold GameRoom.handleBullet.
          destruct (GameRoom.rateLimit _ _ _); [|constructor].
          destruct (PrimFloat.leb _ _); [constructor|].
          constructor; [reflexivity | constructor]. }
        destruct (GameRoom.handleBullet _ _ _ _) as [room1 e]. simpl in *.
        split; [apply keys_set_present; unfold JsMap.has; now rewrite R|].
        split; [intros c Hc; apply get_set_other; congruence|].
        split; [reflexivity|]. rewrite G. simpl.
        split; [reflexivity|]. split; [discriminate | exact E].
      * simpl. rewrite G. simpl. repeat split; auto; discriminate.
    + simpl. rewrite G. simpl. repeat split; auto.
Qed.

Lemma game_messages_stay_in_the_senders_room_witness :
  JsMap.keys
    (GameServer.rooms
       (fst (GameServer.handleMessage envA 2
               (BulletFiredIn "b1" (0, 0.9, 0)%float (0, 0, 1)%float "rifle")
               pairServer)))
  = JsMap.keys (GameServer.rooms pairServer).
Proof.
  refine (proj1
    (game_messages_stay_in_the_senders_room envA 2
       (BulletFiredIn "b1" (0, 0.9, 0)%float (0, 0, 1)%float "rifle")
       pairServer (Player.set_roomId (Some "AAAAAA") (guest 2)) _ I)).
  vm_compute. reflexivity.
Defined.

(** ** The standing of a member who stays *)

Lemma notBelow_refl (a : option Z) : notBelow a a.
Proof. destruct a; simpl; auto; lia. Qed.

Lemma Standing_refl (k : string) (r : GameRoom.t) : Standing k r r.
Proof. split; [reflexivity | apply notBelow_refl]. Qed.

Lemma Standing_trans (k : string) (a b c : GameRoom.t) :
  Standing k a b -> Standing k b c -> Standing k a c.
Proof.
  unfold Standing, notBelow. intros [T1 S1] [T2 S2]. split; [congruence|].
  destruct (pointsOf k a), (pointsOf k b), (pointsOf k c); auto; try lia;
    contradiction.
Qed.

Lemma Standing_same_players (k : string) (r r' : GameRoom.t) :
  GameRoom.players r' = GameRoom.players r -> Standing k r r'.
Proof.
  intros E. unfold Standing, teamOf, pointsOf. rewrite E.
  split; [reflexivity | apply notBelow_refl].
Qed.

Lemma Standing_set (k k' : string) (p p' : GamePlayer.t) (r : GameRoom.t) :
  JsMap.get k' (GameRoom.players r) = Some p ->
  GamePlayer.team p' = GamePlayer.team p ->
  (GamePlayer.score p <= GamePlayer.score p')%Z ->
  Standing k r (GameRoom.set_players (JsMap.set k' p' (GameRoom.players r)) r).
Proof.
  intros G T S. unfold Standing, teamOf, pointsOf. simpl.
  destruct (String.eqb k' k) eqn:E.
  - apply String.eqb_eq in E. subst k'. rewrite get_set_same, G. simpl.
    split; [congruence | exact S].
  - apply String.eqb_neq in E. rewrite get_set_other by auto.
    split; [reflexivity | apply notBelow_refl].
Qed.

Lemma checkForVictory_Standing (k : string) (r : GameRoom.t) :
  Standing k r (fst (GameRoom.checkForVictory r)).
Proof.
  unfold GameRoom.checkForVictory.
  destruct (GameRoom.gameEnded r); [apply Standing_refl|].
  destruct (GameRoom.winnerOf _) as [w|]; [|apply Standing_refl].
  unfold Standing, teamOf, pointsOf. simpl. rewrite get_map_bonus.
  destruct (JsMap.get k (GameRoom.players r)) as [p|]; simpl; [|auto].
  unfold withBonus. destruct (Team_eqb _ _); simpl; split; auto; lia.
Qed.

Lemma award_Standing (k : string) (bullet : Bullet.t) (player : GamePlayer.t)
  (r : GameRoom.t) :
  Standing k r (fst (GameRoom.award bullet player r)).
Proof.
  unfold GameRoom.award.
  destruct (JsMap.get _ _) as [shooter|] eqn:G; [|apply Standing_refl].
  destruct (negb _); [|apply Standing_refl].
  destruct (GameRoom.gameEnded r); [apply Standing_refl|].
  match goal with
  | |- context [GameRoom.checkForVictory ?x] =>
      pose proof (checkForVictory_Standing k x) as H;
      destruct (GameRoom.checkForVictory x) as [rc ev]
  end.
  simpl in *. eapply Standing_trans; [|exact H].
  eapply Standing_trans;
    [apply (Standing_set k (Bullet.playerId bullet) shooter
              (GamePlayer.set_score (GamePlayer.score shooter + 100)%Z shooter) r G);
     [reflexivity | simpl; lia]|].
  now apply Standing_same_players.
Qed.

Lemma hit_Standing (k : string) (bullet : Bullet.t) (playerId : string)
  (player : GamePlayer.t) (r : GameRoom.t) :
  JsMap.get playerId (GameRoom.players r) = Some player ->
  Standing k r (fst (GameRoom.hit bullet playerId player r)).
Proof.
  intros G. unfold GameRoom.hit.
  set (player1 := GamePlayer.set_health _ player).
  set (r1 := GameRoom.set_players (JsMap.set playerId player1 _) r).
  assert (S1 : Standing k r r1).
  { apply (Standing_set k playerId player player1 r G); [reflexivity | simpl; lia]. }
  destruct (PrimFloat.leb _ _); [|exact S1].
  set (player2 := GamePlayer.set_isAlive false player1).
  set (r2 := GameRoom.set_players (JsMap.set playerId player2 _) r1).
  assert (S2 : Standing k r1 r2).
  { apply (Standing_set k playerId player1 player2 r1);
      [apply get_set_same | reflexivity | simpl; lia]. }
  unfold GameRoom.eliminate.
  pose proof (award_Standing k bullet player2 r2) as S3.
  destruct (GameRoom.award bullet player2 r2) as [r3 e1]. simpl in *.
  eapply Standing_trans; [exact S1|].
  eapply Standing_trans; [exact S2 | exact S3].
Qed.

Lemma stepBullet_Standing (k : string) (now : Z) (bullet : Bullet.t)
  (r : GameRoom.t) :
  NoDup (JsMap.keys (GameRoom.players r)) ->
  Standing k r (snd (fst (fst (GameRoom.stepBullet now bullet r)))).
Proof.
  intros Hnd. unfold GameRoom.stepBullet.
  destruct (_ <? _)%Z; [apply Standing_refl|].
  destruct (find _ _) as [[playerId player]|] eqn:F; [|apply Standing_refl].
  apply find_some in F. destruct F as [Hin _].
  pose proof (hit_Standing k (GameRoom.advance now bullet) playerId player r
                (In_get_NoDup _ _ _ Hnd Hin)) as H.
  destruct (GameRoom.hit _ _ _ _) as [r1 e]. exact H.
Qed.

Lemma scanBullets_Standing (k : string) (now : Z) (bs : JsMap.t string Bullet.t) :
  forall r,
    NoDup (JsMap.keys (GameRoom.players r)) ->
    Standing k r (snd (fst (fst (GameRoom.scanBullets now bs r)))).
Proof.
  induction bs as [|[k0 b0] rest IH]; intros r Hnd; simpl; [apply Standing_refl|].
  pose proof (stepBullet_Standing k now b0 r Hnd) as H1.
  pose proof (stepBullet_roster now b0 r Hnd) as R1.
  destruct (GameRoom.stepBullet now b0 r) as [[[b1 r1] fate] e1].
  simpl in H1, R1.
  pose proof (IH r1 (NoDup_roster _ _ R1 Hnd)) as H2.
  destruct (GameRoom.scanBullets now rest r1) as [[[rest1 r2] rm] e2].
  simpl in *. eapply Standing_trans; eassumption.
Qed.

Lemma step_Standing (k : string) (op : GameRoom.Op) (r : GameRoom.t) :
  WellFormed r -> stays k op -> Standing k r (fst (GameRoom.step op r)).
Proof.
  intros [Hp _] F.
  destruct op as [player|x|player|now now' bd|now|[x player] roll]; simpl in *.
  - unfold Standing, teamOf, pointsOf. simpl.
    rewrite get_set_other by auto. split; [reflexivity | apply notBelow_refl].
  - unfold GameRoom.removePlayer.
    destruct (JsMap.get _ _); [|apply Standing_refl].
    unfold Standing, teamOf, pointsOf. simpl.
    rewrite get_delete_other by auto. split; [reflexivity | apply notBelow_refl].
  - unfold GameRoom.broadcastPlayerUpdate.
    destruct (JsMap.get _ _) as [gp|] eqn:G; [|apply Standing_refl].
    simpl. apply (Standing_set k _ gp _ r G); [reflexivity | simpl; lia].
  - unfold GameRoom.handleBullet, GameRoom.rateLimit.
    destruct (JsMap.get _ _) as [p|] eqn:G.
    + destruct (_ <? _)%Z; [apply Standing_refl|].
      assert (S1 := Standing_set k _ p (GamePlayer.set_lastShotTime now p) r G
                      eq_refl (Z.le_refl _)).
      destruct (PrimFloat.leb _ _); simpl; [exact S1|].
      eapply Standing_trans; [exact S1|]. now apply Standing_same_players.
    + destruct (PrimFloat.leb _ _); simpl; [apply Standing_refl|].
      now apply Standing_same_players.
  - unfold GameRoom.update, GameRoom.updateBullets.
    pose proof (scanBullets_Standing k now (GameRoom.bullets r) r Hp) as H.
    destruct (GameRoom.scanBullets now (GameRoom.bullets r) r) as [[[bs r1] rm] e].
    simpl in *. eapply Standing_trans; [exact H|]. now apply Standing_same_players.
  - unfold GameRoom.respawn, JsMap.has.
    destruct (JsMap.get _ _) as [p|] eqn:G; [|apply Standing_refl].
    destruct (Nat.eqb _ _); [|apply Standing_refl].
    simpl. apply (Standing_set k _ p _ r G); [reflexivity | simpl; lia].
Qed.

(** X24: a member who stays keeps its team and loses no points.  Over any
    operations on a room other than a join or a leave under its own id
    (shots, position updates, ticks, respawns, the joins and leaves of
    others), somebody who is a member stays one, on the same team, with a
    score that is not lower; somebody who is not a member does not become
    one. *)
Theorem member_keeps_team_and_points :
  forall (playerId : string) (ops : list GameRoom.Op) (r : GameRoom.t),
    WellFormed r ->
    Forall (stays playerId) ops ->
    teamOf playerId (fst (GameRoom.run ops r)) = teamOf playerId r /\
    notBelow (pointsOf playerId r) (pointsOf playerId (fst (GameRoom.run ops r))).
Proof.
  intros playerId ops. induction ops as [|op rest IH]; intros r W F.
  - apply Standing_refl.
  - rewrite (proj1 (run_cons op rest r)).
    pose proof (Forall_inv F) as F1. pose proof (Forall_inv_tail F) as F2.
    apply (Standing_trans playerId r (fst (GameRoom.step op r))).
    + now apply step_Standing.
    + apply IH; [now apply step_WellFormed | exact F2].
Qed.

Lemma member_keeps_team_and_points_witness :
  teamOf "player_1" (fst (GameRoom.run career brink)) = teamOf "player_1" brink /\
  notBelow (pointsOf "player_1" brink)
    (pointsOf "player_1" (fst (GameRoom.run career brink))).
Proof.
  apply (member_keeps_team_and_points "player_1" career brink).
  - vm_compute. repeat split.
    + repeat constructor; simpl; intuition discriminate.
    + repeat constructor; simpl; intuition discriminate.
    + intros k v [H | []]. now inversion H.
  - repeat constructor. vm_compute. discriminate.
Defined.

(** ** After the game has ended *)

Lemma award_ended (bullet : Bullet.t) (player : GamePlayer.t) (r : GameRoom.t) :
  GameRoom.gameEnded r = true -> GameRoom.award bullet player r = (r, []).
Proof.
  intros E. unfold GameRoom.award.
  destruct (JsMap.get _ _); [|reflexivity].
  destruct (negb _); [|reflexivity]. now rewrite E.
Qed.

Lemma hit_ended (bullet : Bullet.t) (playerId : string) (player : GamePlayer.t)
  (r : GameRoom.t) :
  JsMap.get playerId (GameRoom.players r) = Some player ->
  GameRoom.gameEnded r = true ->
  view GamePlayer.score (fst (GameRoom.hit bullet playerId player r))
  = view GamePlayer.score r.
Proof.
  intros G E. unfold GameRoom.hit.
  set (player1 := GamePlayer.set_health _ player).
  set (r1 := GameRoom.set_players (JsMap.set playerId player1 _) r).
  assert (V1 : view GamePlayer.score r1 = view GamePlayer.score r).
  { apply view_set with player; [exact G | reflexivity]. }
  destruct (PrimFloat.leb _ _); [|exact V1].
  set (player2 := GamePlayer.set_isAlive false player1).
  set (r2 := GameRoom.set_players (JsMap.set playerId player2 _) r1).
  assert (V2 : view GamePlayer.score r2 = view GamePlayer.score r1).
  { apply view_set with player1; [apply get_set_same | reflexivity]. }
  unfold GameRoom.eliminate.
  rewrite (award_ended bullet player2 r2) by exact E.
  simpl. congruence.
Qed.

Lemma scanBullets_ended (now : Z) (bs : JsMap.t string Bullet.t) :
  forall r,
    NoDup (JsMap.keys (GameRoom.players r)) ->
    GameRoom.gameEnded r = true ->
    view GamePlayer.score (snd (fst (fst (GameRoom.scanBullets now bs r))))
    = view GamePlayer.score r.
Proof.
  induction bs as [|[k0 b0] rest IH]; intros r Hnd E; simpl; [reflexivity|].
  assert (H1 : view GamePlayer.score
                 (snd (fst (fst (GameRoom.stepBullet now b0 r))))
               = view GamePlayer.score r).
  { unfold GameRoom.stepBullet.
    destruct (_ <? _)%Z; [reflexivity|].
    destruct (find _ _) as [[playerId player]|] eqn:F; [|reflexivity].
    apply find_some in F. destruct F as [Hin _].
    pose proof (hit_ended (GameRoom.advance now b0) playerId player r
                  (In_get_NoDup _ _ _ Hnd Hin) E) as H.
    destruct (GameRoom.hit _ _ _ _) as [r1 e]. exact H. }
  pose proof (stepBullet_ScoreStep now b0 r) as [_ S1].
  pose proof (stepBullet_roster now b0 r Hnd) as R1.
  destruct (GameRoom.stepBullet now b0 r) as [[[b1 r1] fate] e1].
  simpl in H1, S1, R1. destruct (S1 E) as [E1 _].
  pose proof (IH r1 (NoDup_roster _ _ R1 Hnd) E1) as H2.
  destruct (GameRoom.scanBullets now rest r1) as [[[rest1 r2] rm] e2].
  simpl in *. congruence.
Qed.

(** X25: once the game has ended, kills score nothing.  A tick on a room
    whose flag is set leaves every member's personal score and both team
    counters as they are and broadcasts neither [team_scores_update] nor
    [team_victory]; hits, eliminations and respawn timers go on as
    before. *)
Theorem ended_game_scores_nothing :
  forall (r : GameRoom.t) (now : Z),
    NoDup (JsMap.keys (GameRoom.players r)) ->
    GameRoom.gameEnded r = true ->
    let res := GameRoom.update now r in
    view GamePlayer.score (fst res) = view GamePlayer.score r /\
    GameRoom.teamScores (fst res) = GameRoom.teamScores r /\
    GameRoom.gameEnded (fst res) = true /\
    count isScoreUpdate (snd res) = 0 /\
    victoryBroadcasts (snd res) = 0.
Proof.
  intros r now Hnd E res. subst res. unfold GameRoom.update.
  pose proof (updateBullets_ScoreStep now r) as [_ S].
  destruct (S E) as [E' T].
  assert (V : view GamePlayer.score (fst (GameRoom.updateBullets now r))
              = view GamePlayer.score r).
  { unfold GameRoom.updateBullets.
    pose proof (scanBullets_ended now (GameRoom.bullets r) r Hnd E) as H.
    destruct (GameRoom.scanBullets now (GameRoom.bullets r) r)
      as [[[bs r1] rm] e].
    exact H. }
  assert (L : Ledger (List.length (GameRoom.bullets r)) r
                (fst (GameRoom.updateBullets now r))
                (snd (GameRoom.updateBullets now r))).
  { unfold GameRoom.updateBullets.
    pose proof (scanBullets_Ledger now (GameRoom.bullets r) r) as H.
    destruct (GameRoom.scanBullets now (GameRoom.bullets r) r)
      as [[[bs r1] rm] e].
    exact H. }
  destruct L as (_ & _ & _ & _ & _ & L6 & L7).
  rewrite T in L7.
  split; [exact V|]. split; [exact T|]. split; [exact E'|]. lia.
Qed.

Lemma ended_game_scores_nothing_witness :
  view GamePlayer.score (fst (GameRoom.update 5005 lateShot))
  = view GamePlayer.score lateShot /\
  count isElimination (snd (GameRoom.update 5005 lateShot)) = 1 /\
  count isScoreUpdate (snd (GameRoom.update 5005 lateShot)) = 0.
Proof.
  assert (H := ended_game_scores_nothing lateShot 5005).
  destruct H as (H1 & _ & _ & H4 & _).
  - vm_compute. repeat constructor; simpl; intuition discriminate.
  - reflexivity.
  - split; [exact H1|]. split; [reflexivity | exact H4].
Defined.

(** ** Points *)

Lemma credited_app (k : string) (e1 e2 : list Effect) :
  forall pending,
    credited k pending (e1 ++ e2)
    = credited k pending e1 + credited k (pendingAfter pending e1) e2.
Proof.
  induction e1 as [|x e1 IH]; intros pending; simpl; [reflexivity|].
  destruct x as [to m | ws m | task delay]; try apply IH.
  destruct m; try apply IH. rewrite IH. lia.
Qed.

Lemma pendingAfter_app (e1 e2 : list Effect) :
  forall pending,
    pendingAfter pending (e1 ++ e2) = pendingAfter (pendingAfter pending e1) e2.
Proof.
  induction e1 as [|x e1 IH]; intros pending; simpl; [reflexivity|].
  destruct x as [to m | ws m | task delay]; try apply IH.
  destruct m; apply IH.
Qed.

Lemma victor_app (e1 e2 : list Effect) :
  victor (e1 ++ e2)
  = match victor e1 with Some w => Some w | None => victor e2 end.
Proof.
  induction e1 as [|x e1 IH]; simpl; [reflexivity|].
  destruct x as [to m | ws m | task delay]; try apply IH.
  destruct m; try apply IH. reflexivity.
Qed.

Lemma victor_quiet (e : list Effect) :
  victoryBroadcasts e = 0 -> victor e = None.
Proof.
  unfold victoryBroadcasts.
  induction e as [|x e IH]; simpl; [reflexivity|].
  destruct x as [to m | ws m | task delay]; simpl; try apply IH.
  destruct m; simpl; try apply IH. discriminate.
Qed.

Lemma victor_loud (e : list Effect) (w : Team) :
  victor e = Some w -> 1 <= victoryBroadcasts e.
Proof.
  intros H. destruct (victoryBroadcasts e) eqn:E; [|lia].
  rewrite (victor_quiet e E) in H. discriminate.
Qed.

Lemma silent_list (k : string) (es : list Effect) :
  forallb silent es = true ->
  forall pending,
    credited k pending es = 0 /\ pendingAfter pending es = pending /\
    victor es = None /\ victoryBroadcasts es = 0.
Proof.
  unfold victoryBroadcasts.
  induction es as [|x es IH]; simpl; intros H pending; [auto|].
  apply andb_true_iff in H. destruct H as [Hx H].
  destruct (IH H pending) as (I1 & I2 & I3 & I4).
  destruct x as [to m | ws m | task delay]; simpl; auto.
  destruct m; simpl in *; auto; discriminate.
Qed.

Lemma silent_sends {A : Type} (ws : nat) (f : A -> Msg) (l : list A) :
  forallb silent (map (fun a => Send ws (f a)) l) = true.
Proof. induction l; simpl; auto. Qed.

Lemma winnerOf_limit (s : TeamScores) (w : Team) :
  GameRoom.winnerOf s = Some w -> (GameRoom.scoreLimit <= scoreOf w s)%Z.
Proof.
  unfold GameRoom.winnerOf.
  destruct (_ <=? red s)%Z eqn:R; [intros [= <-]; now apply Z.leb_le|].
  destruct (_ <=? blue s)%Z eqn:B; [intros [= <-]; now apply Z.leb_le|].
  discriminate.
Qed.

(** A part that broadcasts none of the three and keeps the flag pays
    nothing. *)
Lemma Paid_quiet (k : string) (r r' : GameRoom.t) (e : list Effect) :
  forallb silent e = true ->
  GameRoom.gameEnded r' = GameRoom.gameEnded r ->
  (forall p, JsMap.get k (GameRoom.players r) = Some p ->
     exists p', JsMap.get k (GameRoom.players r') = Some p' /\
                GamePlayer.team p' = GamePlayer.team p /\
                GamePlayer.score p' = GamePlayer.score p) ->
  Paid k r r' e.
Proof.
  intros S E H. destruct (silent_list k e S false) as (C & P & V & B).
  unfold Paid. rewrite C, P, V, B, E. simpl.
  split; [reflexivity|]. split; [lia|]. split; [discriminate|].
  intros p Hp. destruct (H p Hp) as [p' [G [T Sc]]].
  exists p'. split; [exact G|]. split; [exact T | lia].
Qed.

Lemma Paid_trans (k : string) (a b c : GameRoom.t) (e1 e2 : list Effect) :
  Paid k a b e1 -> Paid k b c e2 -> ScoreStep b c -> Paid k a c (e1 ++ e2).
Proof.
  intros (P1 & F1 & W1 & S1) (P2 & F2 & W2 & S2) [_ Fr].
  assert (Hq : victor e1 <> None -> victor e2 = None /\
               GameRoom.teamScores c = GameRoom.teamScores b).
  { intros Hv. destruct (victor e1) as [w|] eqn:V; [|now destruct Hv].
    pose proof (victor_loud e1 w V) as L.
    assert (Eb : GameRoom.gameEnded b = true).
    { destruct (GameRoom.gameEnded b); [reflexivity|].
      destruct (GameRoom.gameEnded a); simpl in *; lia. }
    destruct (Fr Eb) as [Ec T]. rewrite Eb, Ec in F2. simpl in F2.
    split; [apply victor_quiet; lia | exact T]. }
  unfold Paid.
  rewrite pendingAfter_app, P1, P2, victoryBroadcasts_app, victor_app,
    credited_app, P1.
  split; [reflexivity|]. split; [lia|]. split.
  - intros w Hw. destruct (victor e1) as [w1|] eqn:V.
    + injection Hw as <-. destruct Hq as [_ T]; [discriminate|].
      rewrite T. now apply W1.
    + now apply W2.
  - intros p Hp. destruct (S1 p Hp) as [p1 [G1 [T1 Sc1]]].
    destruct (S2 p1 G1) as [p2 [G2 [T2 Sc2]]].
    exists p2. split; [exact G2|]. split; [congruence|].
    rewrite Sc2, Sc1, T1. rewrite Nat2Z.inj_add.
    destruct (victor e1) as [w1|] eqn:V.
    + destruct Hq as [Q _]; [discriminate|]. rewrite Q. cbn [bonusFor].
      destruct (Team_eqb (GamePlayer.team p) w1); lia.
    + cbn [bonusFor]. destruct (victor e2) as [w2|];
        [destruct (Team_eqb (GamePlayer.team p) w2)|]; lia.
Qed.

(** A write to one record that keeps its team and its score. *)
Lemma kept_by_set (k k' : string) (q q' : GamePlayer.t) (r : GameRoom.t) :
  JsMap.get k' (GameRoom.players r) = Some q ->
  GamePlayer.team q' = GamePlayer.team q ->
  GamePlayer.score q' = GamePlayer.score q ->
  forall p, JsMap.get k (GameRoom.players r) = Some p ->
    exists p', JsMap.get k
                 (GameRoom.players
                    (GameRoom.set_players (JsMap.set k' q' (GameRoom.players r)) r))
               = Some p' /\
               GamePlayer.team p' = GamePlayer.team p /\
               GamePlayer.score p' = GamePlayer.score p.
Proof.
  intros G T S p Hp. simpl.
  destruct (String.eqb k' k) eqn:E.
  - apply String.eqb_eq in E. subst k'. rewrite get_set_same.
    exists q'. rewrite G in Hp. injection Hp as <-. auto.
  - apply String.eqb_neq in E. rewrite get_set_other by auto.
    exists p. auto.
Qed.

Lemma eliminate_Paid (k : string) (bullet : Bullet.t) (playerId : string)
  (player : GamePlayer.t) (r : GameRoom.t) :
  Paid k r (fst (GameRoom.eliminate bullet playerId player r))
    (snd (GameRoom.eliminate bullet playerId player r)).
Proof.
  assert (Idle : Paid k r r
                   [GameRoom.broadcast
                      (PlayerEliminated playerId (GamePlayer.name player)
                         (Bullet.playerId bullet)
                         (GameRoom.shooterName
                            (JsMap.get (Bullet.playerId bullet) (GameRoom.players r)))
                         (Bullet.weapon bullet)) None r;
                    SetTimeout (Respawn playerId (GamePlayer.obj player))
                      GameRoom.respawnDelay]).
  { unfold Paid, GameRoom.broadcast, victoryBroadcasts. simpl.
    split; [reflexivity|]. split; [lia|]. split; [discriminate|].
    intros p Hp. exists p. split; [exact Hp|]. split; [reflexivity | lia]. }
  unfold GameRoom.eliminate, GameRoom.award.
  destruct (JsMap.get (Bullet.playerId bullet) (GameRoom.players r))
    as [shooter|] eqn:G; [|exact Idle].
  destruct (negb _); [|exact Idle].
  destruct (GameRoom.gameEnded r) eqn:E; [exact Idle|]. clear Idle.
  unfold GameRoom.checkForVictory.
  cbn [GameRoom.gameEnded GameRoom.set_teamScores GameRoom.set_players
       GameRoom.teamScores GameRoom.players].
  rewrite E.
  destruct (GameRoom.winnerOf _) as [w|] eqn:W;
    unfold Paid, GameRoom.broadcast, victoryBroadcasts;
    cbn [fst snd app pendingAfter credited victor filter isVictoryBroadcast
         List.length GameRoom.gameEnded GameRoom.set_gameEnded
         GameRoom.set_players GameRoom.set_teamScores GameRoom.teamScores
         GameRoom.players andb Nat.b2n Nat.add];
    rewrite E.
  - split; [reflexivity|]. split; [reflexivity|].
    split; [intros w' [= <-]; now apply winnerOf_limit|].
    intros p Hp. rewrite get_map_bonus.
    destruct (String.eqb (Bullet.playerId bullet) k) eqn:K.
    + apply String.eqb_eq in K. subst k. rewrite get_set_same.
      rewrite G in Hp. injection Hp as <-.
      eexists. split; [reflexivity|]. unfold withBonus, bonusFor. simpl.
      destruct (Team_eqb (GamePlayer.team shooter) w); simpl; split; auto; lia.
    + apply String.eqb_neq in K. rewrite get_set_other by auto. rewrite Hp.
      eexists. split; [reflexivity|]. unfold withBonus, bonusFor. simpl.
      destruct (Team_eqb (GamePlayer.team p) w); simpl; split; auto; lia.
  - split; [reflexivity|]. split; [reflexivity|]. split; [discriminate|].
    intros p Hp.
    destruct (String.eqb (Bullet.playerId bullet) k) eqn:K.
    + apply String.eqb_eq in K. subst k. rewrite get_set_same.
      rewrite G in Hp. injection Hp as <-.
      eexists. split; [reflexivity|]. simpl. split; auto; lia.
    + apply String.eqb_neq in K. rewrite get_set_other by auto.
      exists p. split; [exact Hp|]. simpl. split; auto; lia.
Qed.

Lemma hit_Paid (k : string) (bullet : Bullet.t) (playerId : string)
  (player : GamePlayer.t) (r : GameRoom.t) :
  JsMap.get playerId (GameRoom.players r) = Some player ->
  Paid k r (fst (GameRoom.hit bullet playerId player r))
    (snd (GameRoom.hit bullet playerId player r)).
Proof.
  intros G. unfold GameRoom.hit.
  set (player1 := GamePlayer.set_health _ player).
  set (r1 := GameRoom.set_players (JsMap.set playerId player1 _) r).
  set (e1 := GameRoom.broadcast _ None r1).
  assert (P1 : Paid k r r1 [e1]).
  { apply Paid_quiet; [reflexivity | reflexivity|].
    now apply (kept_by_set k playerId player player1 r G). }
  destruct (PrimFloat.leb _ _); [|exact P1].
  set (player2 := GamePlayer.set_isAlive false player1).
  set (r2 := GameRoom.set_players (JsMap.set playerId player2 _) r1).
  assert (P2 : Paid k r1 r2 []).
  { apply Paid_quiet; [reflexivity | reflexivity|].
    apply (kept_by_set k playerId player1 player2 r1);
      [apply get_set_same | reflexivity | reflexivity]. }
  pose proof (eliminate_Paid k bullet playerId player2 r2) as P3.
  pose proof (eliminate_ScoreStep bullet playerId player2 r2) as S3.
  destruct (GameRoom.eliminate bullet playerId player2 r2) as [r3 e2].
  cbn [fst snd] in *.
  change (e1 :: e2) with (([e1] ++ []) ++ e2).
  apply Paid_trans with r2; [|exact P3 | exact S3].
  apply Paid_trans with r1; [exact P1 | exact P2|].
  apply ScoreStep_same; reflexivity.
Qed.

Lemma stepBullet_Paid (k : string) (now : Z) (bullet : Bullet.t)
  (r : GameRoom.t) :
  NoDup (JsMap.keys (GameRoom.players r)) ->
  Paid k r (snd (fst (fst (GameRoom.stepBullet now bullet r))))
    (snd (GameRoom.stepBullet now bullet r)).
Proof.
  intros Hnd.
  assert (Idle : Paid k r r []).
  { apply Paid_quiet; [reflexivity | reflexivity|]. intros p Hp. exists p. auto. }
  unfold GameRoom.stepBullet.
  destruct (_ <? _)%Z; [exact Idle|].
  destruct (find _ _) as [[playerId player]|] eqn:F; [|exact Idle].
  apply find_some in F. destruct F as [Hin _].
  pose proof (hit_Paid k (GameRoom.advance now bullet) playerId player r
                (In_get_NoDup _ _ _ Hnd Hin)) as H.
  destruct (GameRoom.hit _ _ _ _) as [r1 e]. exact H.
Qed.

Lemma scanBullets_Paid (k : string) (now : Z) (bs : JsMap.t string Bullet.t) :
  forall r,
    NoDup (JsMap.keys (GameRoom.players r)) ->
    Paid k r (snd (fst (fst (GameRoom.scanBullets now bs r))))
      (snd (GameRoom.scanBullets now bs r)).
Proof.
  induction bs as [|[k0 b0] rest IH]; intros r Hnd; simpl.
  - apply Paid_quiet; [reflexivity | reflexivity|]. intros p Hp. exists p. auto.
  - pose proof (stepBullet_Paid k now b0 r Hnd) as H1.
    pose proof (stepBullet_roster now b0 r Hnd) as R1.
    destruct (GameRoom.stepBullet now b0 r) as [[[b1 r1] fate] e1].
    simpl in H1, R1.
    pose proof (IH r1 (NoDup_roster _ _ R1 Hnd)) as H2.
    pose proof (scanBullets_ScoreStep now rest r1) as S2.
    destruct (GameRoom.scanBullets now rest r1) as [[[rest1 r2] rm] e2].
    simpl in *. now apply Paid_trans with r1.
Qed.

Lemma step_Paid (k : string) (op : GameRoom.Op) (r : GameRoom.t) :
  WellFormed r -> stays k op ->
  Paid k r (fst (GameRoom.step op r)) (snd (GameRoom.step op r)).
Proof.
  intros [Hp _] F.
  assert (Idle : Paid k r r []).
  { apply Paid_quiet; [reflexivity | reflexivity|]. intros p Hq. exists p. auto. }
  destruct op as [player|x|player|now now' bd|now|[x player] roll]; simpl in *.
  - apply Paid_quiet; [|reflexivity|].
    + cbn [forallb silent andb]. rewrite forallb_app. apply andb_true_iff. split.
      * destruct (_ && _); reflexivity.
      * cbn [forallb GameRoom.broadcast silent andb]. apply silent_sends.
    + intros p Hq. exists p. simpl. rewrite get_set_other by auto. auto.
  - unfold GameRoom.removePlayer.
    destruct (JsMap.get x (GameRoom.players r)); [|exact Idle].
    apply Paid_quiet; [reflexivity | reflexivity|].
    intros p Hq. exists p. simpl. rewrite get_delete_other by auto. auto.
  - unfold GameRoom.broadcastPlayerUpdate.
    destruct (JsMap.get _ _) as [gp|] eqn:G; [|exact Idle].
    apply Paid_quiet; [reflexivity | reflexivity|].
    apply (kept_by_set k _ gp _ r G); reflexivity.
  - unfold GameRoom.handleBullet, GameRoom.rateLimit.
    destruct (JsMap.get _ _) as [q|] eqn:G.
    + destruct (_ <? _)%Z; [exact Idle|].
      destruct (PrimFloat.leb _ _); cbn [fst snd];
        (apply Paid_quiet; [reflexivity | reflexivity|]);
        apply (kept_by_set k _ q _ r G); reflexivity.
    + destruct (PrimFloat.leb _ _); cbn [fst snd]; [exact Idle|].
      apply Paid_quiet; [reflexivity | reflexivity|].
      intros p Hq. exists p. auto.
  - unfold GameRoom.update, GameRoom.updateBullets.
    pose proof (scanBullets_Paid k now (GameRoom.bullets r) r Hp) as H.
    destruct (GameRoom.scanBullets now (GameRoom.bullets r) r) as [[[bs r1] rm] e].
    exact H.
  - unfold GameRoom.respawn, JsMap.has.
    destruct (JsMap.get x (GameRoom.players r)) as [q|] eqn:G; [|exact Idle].
    destruct (Nat.eqb _ _); cbn [fst snd].
    + apply Paid_quiet; [reflexivity | reflexivity|].
      apply (kept_by_set k _ q _ r G); reflexivity.
    + apply Paid_quiet; [reflexivity | reflexivity|].
      intros p Hq. exists p. auto.
Qed.

Lemma run_Paid (k : string) (ops : list GameRoom.Op) :
  forall r,
    WellFormed r -> Forall (stays k) ops ->
    Paid k r (fst (GameRoom.run ops r)) (snd (GameRoom.run ops r)).
Proof.
  induction ops as [|op rest IH]; intros r W F.
  - apply Paid_quiet; [reflexivity | reflexivity|]. intros p Hq. exists p. auto.
  - destruct (run_cons op rest r) as [E1 E2]. rewrite E1, E2.
    pose proof (Forall_inv F) as F1. pose proof (Forall_inv_tail F) as F2.
    apply Paid_trans with (fst (GameRoom.step op r)).
    + now apply step_Paid.
    + apply IH; [now apply step_WellFormed | exact F2].
    + apply run_ScoreStep.
Qed.

(** C4: over the whole life of a room, started by [new], [team_victory] is
    broadcast once if the flag is set at the end and never otherwise, and the
    flag is set exactly when a counter has reached 50; from a room whose flag
    is set every further run leaves it set and broadcasts no [team_victory],
    and the victory check does nothing; the operation that takes a counter
    of an unended room to 50 sets the flag and broadcasts [team_victory]
    once; the kill that does so, and the victory check in general, adds 500
    to the score of every member of the winning team and to nobody else's;
    an operation that leaves the counters unchanged neither sets the flag
    nor broadcasts [team_victory].  In numbers: over any operations on a
    room during which a member neither joins again nor leaves, its score
    rises by 100 for every kill credited to it and by 500, once, when a
    [team_victory] is broadcast and names its team, and by nothing else;
    the team so named has a counter of at least 50; and the
    [team_victory] goes to the socket of every member. *)
Theorem victory_once_at_score_limit :
  (forall (code : string) (ops : list GameRoom.Op),
      let res := GameRoom.run ops (GameRoom.new code) in
      victoryBroadcasts (snd res) = Nat.b2n (GameRoom.gameEnded (fst res)) /\
      Decided (fst res)) /\
  (forall (r : GameRoom.t) (ops : list GameRoom.Op),
      GameRoom.gameEnded r = true ->
      GameRoom.gameEnded (fst (GameRoom.run ops r)) = true /\
      victoryBroadcasts (snd (GameRoom.run ops r)) = 0 /\
      GameRoom.checkForVictory r = (r, [])) /\
  (forall (r : GameRoom.t) (op : GameRoom.Op),
      Decided r ->
      GameRoom.gameEnded r = false ->
      let res := GameRoom.step op r in
      ((50 <= red (GameRoom.teamScores (fst res)))%Z \/
       (50 <= blue (GameRoom.teamScores (fst res)))%Z) ->
      GameRoom.gameEnded (fst res) = true /\ victoryBroadcasts (snd res) = 1) /\
  (forall (r : GameRoom.t) (bullet : Bullet.t) (victim shooter : GamePlayer.t),
      Decided r ->
      GameRoom.gameEnded r = false ->
      JsMap.get (Bullet.playerId bullet) (GameRoom.players r) = Some shooter ->
      GamePlayer.team shooter <> GamePlayer.team victim ->
      (50 <= scoreOf (GamePlayer.team shooter) (GameRoom.teamScores r) + 1)%Z ->
      let res := GameRoom.award bullet victim r in
      GameRoom.gameEnded (fst res) = true /\
      victoryBroadcasts (snd res) = 1 /\
      forall k,
        JsMap.get k (GameRoom.players (fst res))
        = option_map (withBonus (GamePlayer.team shooter))
            (JsMap.get k
               (JsMap.set (Bullet.playerId bullet)
                  (GamePlayer.set_score (GamePlayer.score shooter + 100)%Z shooter)
                  (GameRoom.players r)))) /\
  (forall (r : GameRoom.t) (w : Team),
      GameRoom.gameEnded r = false ->
      GameRoom.winnerOf (GameRoom.teamScores r) = Some w ->
      GameRoom.gameEnded (fst (GameRoom.checkForVictory r)) = true /\
      snd (GameRoom.checkForVictory r)
      = [Broadcast (GameRoom.recipients None r)
           (TeamVictory w (GameRoom.teamScores r) (GameRoom.victoryMessage w))] /\
      forall k,
        JsMap.get k (GameRoom.players (fst (GameRoom.checkForVictory r)))
        = option_map (withBonus w) (JsMap.get k (GameRoom.players r))) /\
  (forall (r : GameRoom.t) (op : GameRoom.Op),
      GameRoom.teamScores (fst (GameRoom.step op r)) = GameRoom.teamScores r ->
      GameRoom.gameEnded (fst (GameRoom.step op r)) = GameRoom.gameEnded r /\
      victoryBroadcasts (snd (GameRoom.step op r)) = 0) /\
  (forall (r : GameRoom.t) (ops : list GameRoom.Op) (playerId : string)
          (p : GamePlayer.t),
      WellFormed r ->
      Forall (stays playerId) ops ->
      JsMap.get playerId (GameRoom.players r) = Some p ->
      let res := GameRoom.run ops r in
      (exists p',
         JsMap.get playerId (GameRoom.players (fst res)) = Some p' /\
         GamePlayer.team p' = GamePlayer.team p /\
         GamePlayer.score p'
         = (GamePlayer.score p
            + 100 * Z.of_nat (credited playerId false (snd res))
            + match victor (snd res) with
              | Some w => if Team_eqb (GamePlayer.team p) w then 500 else 0
              | None => 0
              end)%Z) /\
      (forall w, victor (snd res) = Some w ->
                 (50 <= scoreOf w (GameRoom.teamScores (fst res)))%Z) /\
      victoryBroadcasts (snd res) <= 1) /\
  (forall (r : GameRoom.t),
      GameRoom.recipients None r
      = map (fun kv => GamePlayer.ws (snd kv)) (GameRoom.players r)).
Proof.
  split; [|split; [|split; [|split; [|split; [|split; [|split]]]]]].
  - intros code ops res. subst res.
    destruct (run_Orderly ops (GameRoom.new code)) as [[Hn _] Hd].
    split; [exact Hn | apply Hd; reflexivity].
  - intros r ops E. destruct (run_after_end r ops E) as [H1 H2].
    split; [exact H1 | split; [exact H2 | now apply checkForVictory_after_end]].
  - intros r op D E res L. subst res.
    assert (Lb : ((GameRoom.scoreLimit <=? red (GameRoom.teamScores (fst (GameRoom.step op r))))%Z
                  || (GameRoom.scoreLimit <=? blue (GameRoom.teamScores (fst (GameRoom.step op r))))%Z)
                 = true).
    { apply orb_true_iff. unfold GameRoom.scoreLimit.
      destruct L; [left | right]; now apply Z.leb_le. }
    destruct (step_reaches_limit r op D Lb) as [H1 H2].
    rewrite E in H2. split; [exact H1 | exact H2].
  - intros r bullet victim shooter D E G T L res. subst res.
    now apply award_reaches_limit.
  - exact checkForVictory_bonus.
  - exact step_without_score_change.
- intros r ops playerId p W F G res. subst res.
    destruct (run_Paid playerId ops r W F) as (_ & Fl & Wn & St).
    split; [exact (St p G)|]. split; [exact Wn|].
    destruct (GameRoom.gameEnded r), (GameRoom.gameEnded (fst (GameRoom.run ops r)));
      simpl in Fl; lia.
  - exact recipients_all.
Qed.

Lemma victory_once_at_score_limit_witness :
  Decided brink /\ GameRoom.gameEnded brink = false /\
  GameRoom.gameEnded (fst (GameRoom.step (GameRoom.OpUpdate 1005) brink)) = true /\
  victoryBroadcasts (snd (GameRoom.step (GameRoom.OpUpdate 1005) brink)) = 1 /\
  pointsOf "player_1" brink = Some 0%Z /\
  pointsOf "player_1" (fst (GameRoom.run [GameRoom.OpUpdate 1005] brink))
  = Some 600%Z /\
  pointsOf "player_2" (fst (GameRoom.run [GameRoom.OpUpdate 1005] brink))
  = Some 0%Z.
Proof.
  assert (W : WellFormed brink).
  { vm_compute. repeat split.
    - repeat constructor; simpl; intuition discriminate.
    - repeat constructor; simpl; intuition discriminate.
    - intros k v [H | []]. now inversion H. }
  split; [reflexivity | split; [reflexivity|]].
  assert (H3 := proj1 (proj2 (proj2 victory_once_at_score_limit))
                  brink (GameRoom.OpUpdate 1005)).
  destruct H3 as [H3 H4].
  - reflexivity.
  - reflexivity.
  - left. apply Z.leb_le. vm_compute. reflexivity.
  - split; [exact H3|]. split; [exact H4|]. split; [reflexivity|].
    pose proof (proj1 (proj2 (proj2 (proj2 (proj2 (proj2 (proj2
                  victory_once_at_score_limit))))))) as H7.
    split.
    + edestruct (H7 brink [GameRoom.OpUpdate 1005] "player_1")
        as [[p' [G' [_ S']]] _].
      * exact W.
      * repeat constructor.
      * vm_compute. reflexivity.
      * unfold pointsOf. rewrite G'. simpl. rewrite S'.
        vm_compute. reflexivity.
    + edestruct (H7 brink [GameRoom.OpUpdate 1005] "player_2")
        as [[p' [G' [_ S']]] _].
      * exact W.
      * repeat constructor.
      * vm_compute. reflexivity.
      * unfold pointsOf. rewrite G'. simpl. rewrite S'.
        vm_compute. reflexivity.
Defined.
